(** * italian_derivatives: a shallow embedding of the three scripts

    - [MistralInterface.py]: the retrying, semaphore-guarded invocation
      client ([invokeLLM]);
    - [relationsBuilder.py]: the chunked generation pipeline
      ([process_chunk], [insert_terms], [main]);
    - [dbRelationCleanup.py]: the reconciliation workflow ([main]).

    Python values are an inductive type [pyval]; effects (the SQLite
    database, text files, the console, standard input, the external model
    call, sleeping) are threaded through one [world] record by a state and
    exception monad [M].  Definitions come first, theorems follow. *)

From Stdlib Require Import ZArith List String Ascii Bool Lia DecimalString.
From stdpp Require Import base strings gmap.
Import ListNotations.

Set Warnings "-register-all".

Open Scope string_scope.
Open Scope Z_scope.

(* ===================================================================== *)
(** * Python strings *)
(* ===================================================================== *)

(** A [str] is modelled as a [string]: one [ascii] per character.  The
    operations below are the ones the scripts call, with Python's
    conventions for negative and out-of-range indices. *)
Module PyStr.

Definition len (s : string) : Z := Z.of_nat (String.length s).

(** The double quote, which the templates and the JSON texts contain. *)
Definition dquote : string := String "034" EmptyString.

(** [s.startswith(p)] *)
Fixpoint startswith (p s : string) : bool :=
  match p, s with
  | EmptyString, _ => true
  | String a p', String b s' => Ascii.eqb a b && startswith p' s'
  | String _ _, EmptyString => false
  end.

(** Lowest offset in [s] at which [sub] occurs, counted from the head of
    [s]; [None] when there is none. *)
Fixpoint find_offset (sub s : string) : option nat :=
  if startswith sub s then Some O
  else match s with
       | EmptyString => None
       | String _ s' => option_map S (find_offset sub s')
       end.

(** [s[n:]] for [n >= 0] *)
Fixpoint drop (n : nat) (s : string) : string :=
  match n, s with
  | O, _ => s
  | S n', String _ s' => drop n' s'
  | S _, EmptyString => EmptyString
  end.

(** [s[:n]] for [n >= 0] *)
Fixpoint take (n : nat) (s : string) : string :=
  match n, s with
  | O, _ => EmptyString
  | S n', String a s' => String a (take n' s')
  | S _, EmptyString => EmptyString
  end.

(** A slice bound as Python adjusts it: a negative bound counts from the
    end, and the result is clipped to [0, len s]. *)
Definition clip (s : string) (i : Z) : nat :=
  let i' := if i <? 0 then i + len s else i in
  Z.to_nat (Z.min (Z.max i' 0) (len s)).

(** [s.find(sub, start)]: the lowest index [>= start] where [sub] occurs,
    or [-1]. *)
Definition find_from (s sub : string) (start : Z) : Z :=
  let st := if start <? 0 then Z.max (start + len s) 0 else start in
  if len s <? st then -1
  else match find_offset sub (drop (Z.to_nat st) s) with
       | Some k => st + Z.of_nat k
       | None => -1
       end.

(** [s.find(sub)] *)
Definition find (s sub : string) : Z := find_from s sub 0.

(** [s[start:stop]] *)
Definition slice (s : string) (start stop : Z) : string :=
  let a := clip s start in
  let b := clip s stop in
  take (b - a)%nat (drop a s).

(** [sub in s] *)
Definition contains (s sub : string) : bool :=
  match find_offset sub s with Some _ => true | None => false end.

(** Characters [str.strip()] removes, those for which [str.isspace()]
    holds: tab, line feed, vertical tab, form feed, carriage return, the
    four separators 28..31, the space, the next-line character 133 and the
    no-break space 160. *)
Definition is_space (c : ascii) : bool :=
  let n := nat_of_ascii c in
  ((9 <=? n) && (n <=? 13) || (28 <=? n) && (n <=? 32)
   || (n =? 133) || (n =? 160))%nat.

Fixpoint lstrip (s : string) : string :=
  match s with
  | String c s' => if is_space c then lstrip s' else s
  | EmptyString => EmptyString
  end.

Fixpoint rstrip (s : string) : string :=
  match s with
  | EmptyString => EmptyString
  | String c s' =>
      match rstrip s' with
      | EmptyString => if is_space c then EmptyString else String c EmptyString
      | r => String c r
      end
  end.

(** [s.strip()] *)
Definition strip (s : string) : string := rstrip (lstrip s).

(** [str.lower()] on one character: the capital letters A..Z and, above
    127, the capital letters 192..222, the multiplication sign 215 apart,
    go 32 places up. *)
Definition lower_char (c : ascii) : ascii :=
  let n := nat_of_ascii c in
  if ((65 <=? n) && (n <=? 90)
      || (192 <=? n) && (n <=? 222) && negb (n =? 215))%nat
  then ascii_of_nat (n + 32) else c.

(** [s.lower()] *)
Fixpoint lower (s : string) : string :=
  match s with
  | EmptyString => EmptyString
  | String c s' => String (lower_char c) (lower s')
  end.

(** [s.split(sep, 1)] for a non-empty separator: one or two pieces. *)
Definition split_once (s sep : string) : list string :=
  match find_offset sep s with
  | Some k => [take k s; drop (k + String.length sep) s]
  | None => [s]
  end.

(** [sep.join(l)] *)
Fixpoint join (sep : string) (l : list string) : string :=
  match l with
  | [] => EmptyString
  | [x] => x
  | x :: rest => x +:+ sep +:+ join sep rest
  end.

(** Lines of a text file read in text mode: [\r\n] and [\r] are read as
    [\n]; each line keeps no terminator here (the callers strip it). *)
Fixpoint lines_aux (cur : string) (s : string) : list string :=
  match s with
  | EmptyString => if String.eqb cur EmptyString then [] else [cur]
  | String c s' =>
      if Ascii.eqb c "010" then cur :: lines_aux EmptyString s'
      else if Ascii.eqb c "013" then
        match s' with
        | String d s'' =>
            if Ascii.eqb d "010" then cur :: lines_aux EmptyString s''
            else cur :: lines_aux EmptyString s'
        | EmptyString => [cur]
        end
      else lines_aux (cur +:+ String c EmptyString) s'
  end.

Definition lines (s : string) : list string := lines_aux EmptyString s.

(** [str(n)] and [f"{n}"] for an integer. *)
Definition of_Z (z : Z) : string := NilZero.string_of_int (Z.to_int z).

(** What SQLite's [NOCASE] does to a character: the 26 upper case ASCII
    letters are folded, and no other character. *)
Definition nocase_char (c : ascii) : ascii :=
  let n := nat_of_ascii c in
  if ((65 <=? n) && (n <=? 90))%nat then ascii_of_nat (n + 32) else c.

Fixpoint nocase_fold (s : string) : string :=
  match s with
  | EmptyString => EmptyString
  | String c s' => String (nocase_char c) (nocase_fold s')
  end.

(** SQLite's [COLLATE NOCASE] comparison: the 26 upper case ASCII letters
    are folded before the texts are compared. *)
Definition nocase_eqb (a b : string) : bool :=
  String.eqb (nocase_fold a) (nocase_fold b).

(** The order of SQLite's [BINARY] collation, in which an index on a text
    column is kept: the texts compared character by character, by their
    codes. *)
Fixpoint ltb (a b : string) : bool :=
  match a, b with
  | EmptyString, EmptyString => false
  | EmptyString, String _ _ => true
  | String _ _, EmptyString => false
  | String x a', String y b' =>
      if (nat_of_ascii x <? nat_of_ascii y)%nat then true
      else if (nat_of_ascii y <? nat_of_ascii x)%nat then false
      else ltb a' b'
  end.

(** Characters at which [str.splitlines()] breaks a text: line feed,
    vertical tab, form feed, carriage return, the three separators
    28..30 and the next-line character 133. *)
Definition is_line_break (c : ascii) : bool :=
  let n := nat_of_ascii c in
  ((10 <=? n) && (n <=? 13) || (28 <=? n) && (n <=? 30) || (n =? 133))%nat.

(** [s.splitlines()]: the lines without their breaks; a carriage return
    followed by a line feed is one break, and a break at the very end
    opens no further line.  (A file read in text mode has its [\r\n] and
    [\r] turned into [\n] first, which gives the same lines.) *)
Fixpoint splitlines (s : string) : list string :=
  match s with
  | EmptyString => []
  | String c s' =>
      if is_line_break c then
        match s' with
        | String d s'' =>
            if Ascii.eqb c "013" && Ascii.eqb d "010"
            then EmptyString :: splitlines s''
            else EmptyString :: splitlines s'
        | EmptyString => [EmptyString]
        end
      else
        match splitlines s' with
        | [] => [String c EmptyString]
        | line :: rest => String c line :: rest
        end
  end.

(** [s.split(sep)] for a separator of one character: the pieces between
    its occurrences, at least one. *)
Fixpoint split_char (sep : ascii) (s : string) : list string :=
  match s with
  | EmptyString => [EmptyString]
  | String c s' =>
      if Ascii.eqb c sep then EmptyString :: split_char sep s'
      else
        match split_char sep s' with
        | [] => [String c EmptyString]
        | piece :: rest => String c piece :: rest
        end
  end.

End PyStr.

(* ===================================================================== *)
(** * Python values, dictionaries and exceptions *)
(* ===================================================================== *)

Module Py.

(** The values the scripts handle: what [json.loads] produces ([None],
    booleans, integers, strings, lists, objects as [VDict]) and the
    attribute-carrying objects of the SDK's responses ([VObj]).  JSON
    numbers are integers here. *)
Inductive pyval : Type :=
| VNone
| VBool (b : bool)
| VInt (z : Z)
| VStr (s : string)
| VList (l : list pyval)
| VDict (d : list (string * pyval))
| VObj (attrs : list (string * pyval)).

(** A [dict] with string keys keeps insertion order: an association list
    with one binding per key. *)
Definition dict (V : Type) : Type := list (string * V).

Fixpoint dict_get {V : Type} (d : dict V) (k : string) : option V :=
  match d with
  | [] => None
  | (k', v) :: d' => if String.eqb k' k then Some v else dict_get d' k
  end.

(** [d[k] = v]: an existing key keeps its place and takes the new value, a
    new key goes to the end. *)
Fixpoint dict_set {V : Type} (d : dict V) (k : string) (v : V) : dict V :=
  match d with
  | [] => [(k, v)]
  | (k', v') :: d' =>
      if String.eqb k' k then (k', v) :: d' else (k', v') :: dict_set d' k v
  end.

Definition dict_has {V : Type} (d : dict V) (k : string) : bool :=
  match dict_get d k with Some _ => true | None => false end.

Definition dict_keys {V : Type} (d : dict V) : list string := map fst d.

(** Truth value of an object in a condition ([if x:], [not x], [x or y]). *)
Definition truthy (v : pyval) : bool :=
  match v with
  | VNone => false
  | VBool b => b
  | VInt z => negb (z =? 0)
  | VStr s => negb (String.eqb s EmptyString)
  | VList l => match l with [] => false | _ => true end
  | VDict d => match d with [] => false | _ => true end
  | VObj _ => true
  end.

(** [x or y] *)
Definition py_or (x y : pyval) : pyval := if truthy x then x else y.

(** [isinstance(v, dict)] *)
Definition is_dict (v : pyval) : bool :=
  match v with VDict _ => true | _ => false end.

(** [v is None] *)
Definition is_none (v : pyval) : bool :=
  match v with VNone => true | _ => false end.

(** The subclasses of [Exception] that occur: [SDKError] is the client's
    recognised service error; the others are what the interpreter and the
    libraries raise. *)
Inductive error_class : Type :=
| SDKError
| AttributeError
| TypeError
| KeyError
| IndexError
| ValueError
| JSONDecodeError
| EOFError
| OtherError (name : string).

(** A raised exception: an [Exception] of some class, or [SystemExit],
    which derives from [BaseException] only and passes [except Exception]. *)
Inductive exn : Type :=
| Error (cls : error_class)
| SystemExit (msg : string).

(** [isinstance(e, SDKError)] *)
Definition is_SDKError (e : exn) : bool :=
  match e with Error SDKError => true | _ => false end.

(** [isinstance(e, Exception)] *)
Definition is_Exception (e : exn) : bool :=
  match e with Error _ => true | SystemExit _ => false end.

(** How a computation ends: with a value, with an exception on its way to
    the caller, or cut off by the bound of a loop of the model
    ([OutOfFuel], which no handler catches). *)
Inductive result (A : Type) : Type :=
| Ok (a : A)
| Raise (e : exn)
| OutOfFuel.

Arguments Ok {A} a.
Arguments Raise {A} e.
Arguments OutOfFuel {A}.

Definition rbind {A B : Type} (r : result A) (k : A -> result B) : result B :=
  match r with
  | Ok a => k a
  | Raise e => Raise e
  | OutOfFuel => OutOfFuel
  end.

#[export] Instance result_ret : MRet result := @Ok.
#[export] Instance result_bind : MBind result := fun A B k r => rbind r k.

(** [getattr(v, name, None)] *)
Definition getattr_or_none (v : pyval) (name : string) : pyval :=
  match v with
  | VObj attrs => match dict_get attrs name with Some x => x | None => VNone end
  | _ => VNone
  end.

(** [v.get(k, dflt)]: a [dict] method. *)
Definition py_get_default (v : pyval) (k : string) (dflt : pyval) : result pyval :=
  match v with
  | VDict d => Ok (match dict_get d k with Some x => x | None => dflt end)
  | _ => Raise (Error AttributeError)
  end.

(** [v.get(k)] *)
Definition py_get (v : pyval) (k : string) : result pyval := py_get_default v k VNone.

(** [len(v)] *)
Definition py_len (v : pyval) : result Z :=
  match v with
  | VStr s => Ok (PyStr.len s)
  | VList l => Ok (Z.of_nat (length l))
  | VDict d => Ok (Z.of_nat (length d))
  | _ => Raise (Error TypeError)
  end.

(** [v[k]] for a string key [k]. *)
Definition getitem_key (v : pyval) (k : string) : result pyval :=
  match v with
  | VDict d => match dict_get d k with Some x => Ok x | None => Raise (Error KeyError) end
  | _ => Raise (Error TypeError)
  end.

(** [v[0]] *)
Definition getitem_0 (v : pyval) : result pyval :=
  match v with
  | VList (x :: _) => Ok x
  | VList [] => Raise (Error IndexError)
  | VStr (String c _) => Ok (VStr (String c EmptyString))
  | VStr EmptyString => Raise (Error IndexError)
  | VDict _ => Raise (Error KeyError)
  | _ => Raise (Error TypeError)
  end.

(** The receiver of a [str] method call ([v.find(..)], [v.strip()]): a
    value that is no string has no such attribute. *)
Definition as_str (v : pyval) : result string :=
  match v with
  | VStr s => Ok s
  | _ => Raise (Error AttributeError)
  end.

(** [str(v)]; [repr] renders the containers and objects. *)
Definition py_str (repr : pyval -> string) (v : pyval) : string :=
  match v with
  | VStr s => s
  | VNone => "None"
  | VBool true => "True"
  | VBool false => "False"
  | VInt z => PyStr.of_Z z
  | _ => repr v
  end.

End Py.

(* ===================================================================== *)
(** * The world: database, files, console, model service *)
(* ===================================================================== *)

Module Sys.
Import Py.

(** [words(id PK AUTOINCREMENT, lemma UNIQUE NOT NULL, pos NOT NULL)] *)
Record word_row : Type := mk_word { w_id : Z; w_lemma : string; w_pos : string }.

(** [derived_forms(id PK AUTOINCREMENT, lemma_id, form, pos, relation_type)] *)
Record derived_row : Type := mk_derived {
  d_id : Z;
  d_lemma_id : Z;
  d_form : string;
  d_pos : string;
  d_relation_type : string
}.

(** The database [relations_italian.db3]: the rows of the two tables in
    the order a scan yields them, and for each table the largest id ever
    handed out (SQLite's [sqlite_sequence]). *)
Record store : Type := mk_store {
  words : list word_row;
  words_seq : Z;
  derived_forms : list derived_row;
  derived_seq : Z
}.

(** One request to [chat.complete]; the temperature is kept as its
    decimal text. *)
Record request : Type := mk_request {
  rq_model : string;
  rq_temperature : string;
  rq_prompt : string;
  rq_format : string
}.

(** A piece of a printed line: literal text, or a value or an exception
    where [print] or an f-string renders one. *)
Inductive frag : Type :=
| FStr (s : string)
| FVal (v : pyval)
| FExn (e : exn).

(** What a run does that an observer can see, besides the database and
    the files. *)
Inductive event : Type :=
| EvAcquire
| EvRelease
| EvCall (req : request)
| EvSleep (hundredths : Z)
| EvPrint (line : list frag).

(** The state the scripts run in.  [db] is the SQLite database file the
    run is pointed at ([None] while it does not exist), a file of its own
    beside the text files [files]; [stdin] holds the lines [input()] will
    read; [trace] lists the events so far, latest first. *)
Record world : Type := mk_world {
  db : option store;
  files : dict string;
  stdin : list string;
  trace : list event
}.

Definition set_db (s : store) (w : world) : world :=
  mk_world (Some s) (files w) (stdin w) (trace w).

Definition set_files (f : dict string) (w : world) : world :=
  mk_world (db w) f (stdin w) (trace w).

Definition set_stdin (i : list string) (w : world) : world :=
  mk_world (db w) (files w) i (trace w).

Definition log (e : event) (w : world) : world :=
  mk_world (db w) (files w) (stdin w) (e :: trace w).

(** State and exception monad over the world. *)
Definition M (A : Type) : Type := world -> result A * world.

Definition ret {A : Type} (a : A) : M A := fun w => (Ok a, w).

Definition bind {A B : Type} (m : M A) (k : A -> M B) : M B :=
  fun w =>
    match m w with
    | (Ok a, w') => k a w'
    | (Raise e, w') => (Raise e, w')
    | (OutOfFuel, w') => (OutOfFuel, w')
    end.

#[export] Instance M_ret : MRet M := @ret.
#[export] Instance M_bind : MBind M := fun A B k m => bind m k.

(** [raise e] *)
Definition raise {A : Type} (e : exn) : M A := fun w => (Raise e, w).

Definition out_of_fuel {A : Type} : M A := fun w => (OutOfFuel, w).

(** A pure step that may raise. *)
Definition lift {A : Type} (r : result A) : M A := fun w => (r, w).

(** [try: body except ...: handler]: the handler sees the exception and
    the world as the body left it; a handler with no matching clause
    raises the exception again. *)
Definition try_except {A : Type} (body : M A) (handler : exn -> M A) : M A :=
  fun w =>
    match body w with
    | (Raise e, w') => handler e w'
    | r => r
    end.

Definition emit (e : event) : M unit := fun w => (Ok tt, log e w).

(** [print(...)] *)
Definition print (line : list frag) : M unit := emit (EvPrint line).

(** [time.sleep(0.15 * n)]: recorded in hundredths of a second. *)
Definition sleep_015 (n : Z) : M unit := emit (EvSleep (15 * n)).

(** A statement that changes the database ([INSERT ...]); without the
    tables it fails. *)
Definition execute (f : store -> store) : M unit :=
  fun w =>
    match db w with
    | Some s => (Ok tt, set_db (f s) w)
    | None => (Raise (Error (OtherError "OperationalError")), w)
    end.

(** A [SELECT]: it reads the database and leaves it as it is. *)
Definition query {A : Type} (q : store -> A) : M A :=
  fun w =>
    match db w with
    | Some s => (Ok (q s), w)
    | None => (Raise (Error (OtherError "OperationalError")), w)
    end.

(** Number of requests sent to the model service so far. *)
Fixpoint calls_in (t : list event) : nat :=
  match t with
  | [] => O
  | EvCall _ :: t' => S (calls_in t')
  | _ :: t' => calls_in t'
  end.

Definition calls_made (w : world) : nat := calls_in (trace w).

Definition printed (w : world) (line : list frag) : Prop := In (EvPrint line) (trace w).

(** The lines printed so far, first line first. *)
Fixpoint prints_in (t : list event) : list (list frag) :=
  match t with
  | [] => []
  | EvPrint line :: t' => prints_in t' ++ [line]
  | _ :: t' => prints_in t'
  end.

Definition console (w : world) : list (list frag) := prints_in (trace w).

(** The pauses so far, in hundredths of a second, first pause first. *)
Fixpoint sleeps_in (t : list event) : list Z :=
  match t with
  | [] => []
  | EvSleep n :: t' => sleeps_in t' ++ [n]
  | _ :: t' => sleeps_in t'
  end.

End Sys.

(* ===================================================================== *)
(** * MistralInterface.py *)
(* ===================================================================== *)

Module Mistral.
Import Py Sys.

(** What one call of [genAI_Client.chat.complete] does: it returns a
    response (an SDK object or a plain mapping), or raises an error, which
    is an [Exception] of some class. *)
Inductive call_outcome : Type :=
| Returns (v : pyval)
| Raises (cls : error_class).

(** The external service as a stub: the outcome of the call with the given
    index (0 for the first call of the run) on the given request. *)
Definition service : Type := nat -> request -> call_outcome.

(** [threading.Semaphore(6)] of [__init__]. *)
Definition llmSemaphore_permits : nat := 6.

(** The local variables [response], [success] and [retry_counter]. *)
Record locals : Type := mk_locals {
  response : string;
  success : bool;
  retry_counter : Z
}.

(** How an iteration of the [while] loop ends: [break], or back to the
    loop test. *)
Inductive ctl : Type := Break | Continue.

(** Lines 59-72: the content of the first choice's message, from an
    object (attributes) or a mapping (keys); [None] when a piece is missing
    or anything raises on the way. *)
Definition extract_content (res : pyval) : pyval :=
  let body : result pyval :=
    let choices := getattr_or_none res "choices" in
    choices ← (if negb (truthy choices) && is_dict res
               then py_get res "choices" else Ok choices);
    if truthy choices then
      n ← py_len choices;
      if 0 <? n then
        first ← getitem_0 choices;
        message ← (if negb (is_dict first)
                   then Ok (getattr_or_none first "message")
                   else py_get first "message");
        if truthy message then
          (if negb (is_dict message)
           then Ok (getattr_or_none message "content")
           else py_get message "content")
        else Ok VNone
      else Ok VNone
    else Ok VNone in
  match body with
  | Ok content => content
  | _ => VNone
  end.

(** The request [invokeLLM] sends: the model, the temperature, the prompt
    as the one message, and the response format. *)
Definition request_of (_prompt _format _temperature : string) : request :=
  mk_request "mistral-large-latest" _temperature _prompt _format.

Section Client.

(** The stubbed [chat.complete]. *)
Variable complete : service.

(** [self.genAI_Client.chat.complete(...)] *)
Definition chat_complete (req : request) : M pyval :=
  fun w =>
    let w' := log (EvCall req) w in
    match complete (calls_made w) req with
    | Returns v => (Ok v, w')
    | Raises cls => (Raise (Error cls), w')
    end.

(** [with self.llmSemaphore: body]: a permit is taken on entry and given
    back on every way out.  A run on its own never waits for one. *)
Definition with_llmSemaphore {A : Type} (body : M A) : M A :=
  fun w =>
    let (r, w') := body (log EvAcquire w) in
    (r, log EvRelease w').

Definition bump (l : locals) : locals :=
  mk_locals (response l) (success l) (retry_counter l + 1).

(** Lines 49-87: one iteration of the loop, the [try] with its two
    handlers. *)
Definition attempt (req : request) (l : locals) : M (locals * ctl) :=
  try_except
    (res ← with_llmSemaphore (chat_complete req);
     let content := extract_content res in
     if truthy content then
       text ← lift (as_str content);
       mret (mk_locals (PyStr.strip text) true (retry_counter l), Break)
     else
       let l' := bump l in
       sleep_015 (retry_counter l');;
       mret (l', Continue))
    (fun e =>
       if is_SDKError e then
         let l' := bump l in
         sleep_015 (retry_counter l');;
         mret (l', Continue)
       else if is_Exception e then
         print [FStr "Unexpected error occurred: "; FExn e];;
         mret (l, Break)
       else raise e).

(** [while retry_counter < attempts: ...], at most [fuel] iterations. *)
Fixpoint retry_loop (fuel : nat) (req : request) (attempts : Z) (l : locals)
  : M locals :=
  if retry_counter l <? attempts then
    match fuel with
    | O => out_of_fuel
    | S fuel' =>
        r ← attempt req l;
        match snd r with
        | Break => mret (fst r)
        | Continue => retry_loop fuel' req attempts (fst r)
        end
    end
  else mret l.

(** [invokeLLM(_prompt, _format, _temperature, attempts)] *)
Definition invokeLLM (_prompt _format _temperature : string) (attempts : Z)
  : M (string * bool) :=
  let req := request_of _prompt _format _temperature in
  l ← retry_loop (Z.to_nat attempts) req attempts (mk_locals "" false 0);
  mret (response l, success l).

End Client.

(** An outcome the loop retries after a pause: the recognised service
    error, or a response whose content is missing or empty. *)
Definition transient (o : call_outcome) : bool :=
  match o with
  | Returns res => negb (truthy (extract_content res))
  | Raises SDKError => true
  | Raises _ => false
  end.

(** The world once a call has been made and its permit given back. *)
Definition after_request (req : request) (w : world) : world :=
  log EvRelease (log (EvCall req) (log EvAcquire w)).

(** ** Several threads calling [invokeLLM] at once

    Each thread runs the loop above; the only shared object is the
    semaphore of the [MistralInterface] it calls.  A thread is at the loop
    test holding no permit, or inside the [with] block with its request in
    flight, or has returned. *)
Inductive pc : Type :=
| AtLoop (l : locals)
| InCall (l : locals)
| Returned (r : string * bool).

Record thread : Type := mk_thread {
  th_client : nat;
  th_attempts : Z;
  th_pc : pc
}.

(** The permits left in each client's semaphore, and the threads. *)
Record system : Type := mk_system {
  permits : nat -> nat;
  threads : list thread
}.

Definition set_permits (p : nat -> nat) (c n : nat) : nat -> nat :=
  fun c' => if Nat.eqb c' c then n else p c'.

(** What the rest of the iteration does with the outcome of the call, once
    the permit is back: the new locals and where control goes. *)
Definition after_call (l : locals) (o : call_outcome) : pc :=
  match o with
  | Returns res =>
      let content := extract_content res in
      if truthy content then
        match as_str content with
        | Ok text => Returned (PyStr.strip text, true)
        | _ => Returned (response l, success l)
        end
      else AtLoop (bump l)
  | Raises SDKError => AtLoop (bump l)
  | Raises _ => Returned (response l, success l)
  end.

Definition in_call (c : nat) (t : thread) : bool :=
  Nat.eqb (th_client t) c && match th_pc t with InCall _ => true | _ => false end.

(** Requests of client [c] in flight. *)
Definition in_flight (c : nat) (s : system) : nat :=
  length (List.filter (in_call c) (threads s)).

Definition any_in_call (t : thread) : bool :=
  match th_pc t with InCall _ => true | _ => false end.

(** Requests in flight in the whole process. *)
Definition in_flight_total (s : system) : nat :=
  length (List.filter any_in_call (threads s)).

(** One step of one thread: it takes a permit when one is free (and
    waits, taking no step, when none is), it leaves the [with] block with
    whatever the call did and gives the permit back, or it finds the loop
    test false and returns. *)
Inductive step : system -> system -> Prop :=
| step_acquire p ts1 ts2 c a l :
    retry_counter l < a ->
    (0 < p c)%nat ->
    step (mk_system p (ts1 ++ mk_thread c a (AtLoop l) :: ts2))
         (mk_system (set_permits p c (p c - 1)%nat)
                    (ts1 ++ mk_thread c a (InCall l) :: ts2))
| step_release p ts1 ts2 c a l o :
    step (mk_system p (ts1 ++ mk_thread c a (InCall l) :: ts2))
         (mk_system (set_permits p c (p c + 1)%nat)
                    (ts1 ++ mk_thread c a (after_call l o) :: ts2))
| step_exit p ts1 ts2 c a l :
    ~ retry_counter l < a ->
    step (mk_system p (ts1 ++ mk_thread c a (AtLoop l) :: ts2))
         (mk_system p (ts1 ++ mk_thread c a (Returned (response l, success l)) :: ts2)).

Inductive reachable (s0 : system) : system -> Prop :=
| reach_refl : reachable s0 s0
| reach_step s s' : reachable s0 s -> step s s' -> reachable s0 s'.

(** A thread about to enter [invokeLLM] on client [c]. *)
Definition caller (c : nat) (attempts : Z) : thread :=
  mk_thread c attempts (AtLoop (mk_locals "" false 0)).

Definition is_caller (t : thread) : Prop :=
  exists c a, t = caller c a.

(** The start: every client's semaphore is full and every thread is about
    to call. *)
Definition initial (ts : list thread) : system :=
  mk_system (fun _ => llmSemaphore_permits) ts.

(** The permits left and the requests in flight of a client add up to the
    size of its semaphore, and the threads keep their clients. *)
Definition balanced (ts : list thread) (s : system) : Prop :=
  (forall c, (in_flight c s + permits s c = llmSemaphore_permits)%nat)
  /\ map th_client (threads s) = map th_client ts.

(** ** What a run of the client leaves in the trace *)

(** A field of a response, read the way [extract_content] reads it: a key
    of a mapping, an attribute of an object, [None] on anything else. *)
Definition field (v : pyval) (k : string) : pyval :=
  match v with
  | VDict d => match dict_get d k with Some x => x | None => VNone end
  | VObj _ => getattr_or_none v k
  | _ => VNone
  end.

(** The content of the message of the first choice, when [choices] is a
    list with a first element whose message is truthy. *)
Definition first_choice_content (res : pyval) : pyval :=
  match field res "choices" with
  | VList (first :: _) =>
      let message := field first "message" in
      if truthy message then field message "content" else VNone
  | _ => VNone
  end.

(** The text of an outcome that is an answer: a response whose content is
    a non-empty string. *)
Definition answer_text (o : call_outcome) : option string :=
  match o with
  | Returns res =>
      match extract_content res with
      | VStr s => if String.eqb s "" then None else Some s
      | _ => None
      end
  | Raises _ => None
  end.

(** A trace in which every request stands between the taking and the
    giving back of a permit, nothing else happens while the permit is
    held, and no permit is held at the end. *)
Fixpoint permit_free (t : list event) : bool :=
  match t with
  | [] => true
  | EvRelease :: EvCall _ :: EvAcquire :: t' => permit_free t'
  | EvSleep _ :: t' => permit_free t'
  | EvPrint _ :: t' => permit_free t'
  | _ => false
  end.

(** The requests sent so far, latest first. *)
Fixpoint requests_in (t : list event) : list request :=
  match t with
  | [] => []
  | EvCall req :: t' => req :: requests_in t'
  | _ :: t' => requests_in t'
  end.

(** A thread that has not returned yet. *)
Definition running (t : thread) : bool :=
  match th_pc t with Returned _ => false | _ => true end.

(** The pauses of [n] failed attempts in a row that start with the counter
    at [rc]: 0.15 s times the counter after each, in hundredths. *)
Definition backoff (rc : Z) (n : nat) : list Z :=
  map (fun i => 15 * (rc + Z.of_nat i)) (seq 1 n).

(** The trace of one iteration after the request: nothing for an answer,
    a pause for a transient failure, a diagnostic for anything else. *)
Definition tail_of_attempt (e : list event) : bool :=
  match e with
  | [] => true
  | [EvSleep _] => true
  | [EvPrint _] => true
  | _ => false
  end.

(** What a thread still has to do, counted in steps: two for each attempt
    left, one more at the loop test. *)
Definition work_left (t : thread) : nat :=
  match th_pc t with
  | AtLoop l => (2 * Z.to_nat (th_attempts t - retry_counter l) + 1)%nat
  | InCall l => (2 * Z.to_nat (th_attempts t - retry_counter l))%nat
  | Returned _ => O
  end.

Definition work_left_total (s : system) : nat :=
  list_sum (map work_left (threads s)).

(** A thread inside the [with] block passed the loop test. *)
Definition entered (t : thread) : Prop :=
  match th_pc t with
  | InCall l => retry_counter l < th_attempts t
  | _ => True
  end.

(** [n] steps lead from the first system to the second. *)
Inductive steps : nat -> system -> system -> Prop :=
| steps_O s : steps O s s
| steps_S n s s' s'' : steps n s s' -> step s' s'' -> steps (S n) s s''.

End Mistral.

(* ===================================================================== *)
(** * relationsBuilder.py *)
(* ===================================================================== *)

Module Builder.
Import Py Sys.

Definition nl : string := String "010" EmptyString.

(** A text between double quotes. *)
Definition q (s : string) : string := PyStr.dquote +:+ s +:+ PyStr.dquote.

(** The letter a with a grave accent, as one character. *)
Definition a_grave : string := String "224" EmptyString.

(** [PROMPT_TEMPLATE] up to the place of the word list. *)
Definition PROMPT_TEMPLATE : string :=
  PyStr.join nl
    [ "";
      "Riceverai una lista di sostantivi italiani. Per ogni parola restituisci aggettivo, avverbio";
      "e verbo morfologicamente **esistenti** in italiano, oppure " +:+ q "N/A" +:+ " se non esistono.";
      "Segui queste regole:";
      "- **Aggettivo**: derivato da radice del sostantivo.";
      "- **Avverbio**: termina in " +:+ q "-ente" +:+ " e deriva dall'aggettivo correlato.";
      "- **Verbo**: derivato da radice del sostantivo.";
      "- **Non inventare**! Piuttosto, usa " +:+ q "N/A" +:+ ".";
      "- Restituisci JSON in questo formato:";
      "";
      "{";
      "    " +:+ q "allegria" +:+ ": {";
      "        " +:+ q "morpho" +:+ ": {";
      "            " +:+ q "a" +:+ ": " +:+ q "allegro" +:+ ",";
      "            " +:+ q "r" +:+ ": " +:+ q "allegramente" +:+ ",";
      "            " +:+ q "v" +:+ ": " +:+ q "rallegrare";
      "        }";
      "    },";
      "    " +:+ q ("bont" +:+ a_grave) +:+ ": {";
      "        " +:+ q "morpho" +:+ ": {";
      "            " +:+ q "a" +:+ ": " +:+ q "buono" +:+ ",";
      "            " +:+ q "r" +:+ ": " +:+ q "N/A" +:+ ",";
      "            " +:+ q "v" +:+ ": " +:+ q "N/A";
      "        }";
      "    },";
      "    ...";
      "}";
      "";
      "Parole da analizzare:";
      "" ].

(** [PROMPT_TEMPLATE.format(list=words)]: the word list fills the last
    line of the template. *)
Definition format_prompt (words : string) : string :=
  PROMPT_TEMPLATE +:+ words +:+ nl.

(** The sentinel for a form that does not exist. *)
Definition NA : string := "N/A".

(** ** The tables *)

Definition max_id {R : Type} (id : R -> Z) (rows : list R) : Z :=
  fold_right (fun r m => Z.max (id r) m) 0 rows.

(** The id [AUTOINCREMENT] gives a new row: one more than the largest id
    of the table, in use or used before. *)
Definition next_id {R : Type} (seq : Z) (id : R -> Z) (rows : list R) : Z :=
  Z.max seq (max_id id rows) + 1.

(** [INSERT OR IGNORE INTO words (lemma, pos) VALUES (?, ?)]: the id is
    drawn from the counter of the table first; when the lemma is there
    ([UNIQUE]) no row is written, and the counter keeps the id that was
    drawn. *)
Definition insert_or_ignore_word (lemma pos : string) (s : store) : store :=
  let i := next_id (words_seq s) w_id (words s) in
  if existsb (fun r => String.eqb (w_lemma r) lemma) (words s)
  then mk_store (words s) i (derived_forms s) (derived_seq s)
  else mk_store (words s ++ [mk_word i lemma pos]) i (derived_forms s) (derived_seq s).

(** [SELECT id FROM words WHERE lemma = ?] and [fetchone()] *)
Definition select_word_id (lemma : string) (s : store) : option Z :=
  option_map w_id (List.find (fun r => String.eqb (w_lemma r) lemma) (words s)).

(** [INSERT OR REPLACE INTO derived_forms (lemma_id, form, pos,
    relation_type) VALUES (?, ?, ?, ?)]: the new row takes a fresh id; a
    row with that id, the table's only key, would be replaced. *)
Definition insert_or_replace_derived (lemma_id : Z) (form pos rel : string)
  (s : store) : store :=
  let i := next_id (derived_seq s) d_id (derived_forms s) in
  let kept := List.filter (fun r => negb (d_id r =? i)) (derived_forms s) in
  mk_store (words s) (words_seq s) (kept ++ [mk_derived i lemma_id form pos rel]) i.

(** [ensure_db]: [CREATE TABLE IF NOT EXISTS] for both tables. *)
Definition ensure_db : M unit :=
  fun w =>
    match db w with
    | Some _ => (Ok tt, w)
    | None => (Ok tt, set_db (mk_store [] 0 [] 0) w)
    end.

(** Line 179, [if form and form != 'N/A']: the texts [insert_terms]
    stores as forms. *)
Definition is_form (form : string) : bool :=
  negb (String.eqb form "") && negb (String.eqb form NA).

(** ** process_chunk *)

(** Lines 156-161, [if x != 'N/A' and x not in paisa_set: x = 'N/A'], by
    the type of the candidate [x]: a string is looked up; a list or an
    object of the JSON text cannot be hashed, so the membership test
    raises; any other value is no member of a set of strings. *)
Definition validate (paisa_set : gset string) (x : pyval) : result string :=
  match x with
  | VStr s =>
      Ok (if negb (String.eqb s NA) && negb (bool_decide (s ∈ paisa_set))
          then NA else s)
  | VList _ | VDict _ => Raise (Error TypeError)
  | _ => Ok NA
  end.

(** Lines 148-161: the three forms of one entry of the response. *)
Definition entry_forms (paisa_set : gset string) (entry : pyval)
  : result (dict string) :=
  match entry with
  | VDict d =>
      if dict_has d "morpho" then
        m ← py_get entry "morpho";
        let morpho := py_or m (VDict []) in
        a ← py_get_default morpho "a" (VStr NA);
        v ← py_get_default morpho "v" (VStr NA);
        r ← py_get_default morpho "r" (VStr NA);
        v' ← validate paisa_set v;
        a' ← validate paisa_set a;
        r' ← validate paisa_set r;
        Ok [("a", a'); ("v", v'); ("r", r')]
      else Ok [("a", NA); ("v", NA); ("r", NA)]
  | _ => Ok [("a", NA); ("v", NA); ("r", NA)]
  end.

(** Lines 147-162, the [for] loop inside the [try]: [terms] as it stands
    when the loop ends, and how the loop ended. *)
Fixpoint fill_terms (paisa_set : gset string) (items : list (string * pyval))
  (terms : dict (dict string)) : dict (dict string) * result unit :=
  match items with
  | [] => (terms, Ok tt)
  | (noun, entry) :: rest =>
      match entry_forms paisa_set entry with
      | Ok forms => fill_terms paisa_set rest (dict_set terms noun forms)
      | Raise e => (terms, Raise e)
      | OutOfFuel => (terms, OutOfFuel)
      end
  end.

Section Pipeline.

(** The stubbed model service. *)
Variable complete : Mistral.service.

(** [json.loads] on a text: the value, or [None] for a [JSONDecodeError]. *)
Variable json_loads : string -> option pyval.

(** Lines 145-162, the [try] block on the text of the response. *)
Definition parse_response (paisa_set : gset string) (text : string)
  : dict (dict string) * result unit :=
  match json_loads text with
  | None => ([], Raise (Error JSONDecodeError))
  | Some (VDict items) => fill_terms paisa_set items []
  | Some _ => ([], Raise (Error AttributeError))
  end.

(** [process_chunk(chunk, chunk_index, paisa_set, mistral)] *)
Definition process_chunk (chunk : list string) (chunk_index : Z)
  (paisa_set : gset string) : M (dict (dict string)) :=
  let formatted := format_prompt (PyStr.join nl chunk) in
  print [FStr "Processing chunk "; FVal (VInt chunk_index); FStr ": ";
         FVal (VList (map VStr chunk))];;
  resp ← Mistral.invokeLLM complete formatted "json_object" "0.7" 5;
  let parsed := parse_response paisa_set (fst resp) in
  match snd parsed with
  | Ok _ => mret (fst parsed)
  | Raise e =>
      if is_Exception e then
        print [FStr "Failed to parse JSON response for chunk:"; FStr " ";
               FVal (VList (map VStr chunk))];;
        mret (fst parsed)
      else raise e
  | OutOfFuel => out_of_fuel
  end.

(** ** insert_terms *)

(** Lines 178-186: the forms of one lemma. *)
Fixpoint insert_forms (lemma_id : Z) (forms : dict string) : M unit :=
  match forms with
  | [] => mret tt
  | (pos, form) :: rest =>
      (if is_form form
       then execute (insert_or_replace_derived lemma_id form pos "morphological")
       else mret tt);;
      insert_forms lemma_id rest
  end.

(** [insert_terms(conn, terms)]; the [commit] closes it. *)
Fixpoint insert_terms (terms : dict (dict string)) : M unit :=
  match terms with
  | [] => mret tt
  | (lemma, forms) :: rest =>
      execute (insert_or_ignore_word lemma "n");;
      row ← query (select_word_id lemma);
      match row with
      | None => insert_terms rest
      | Some lemma_id => insert_forms lemma_id forms;; insert_terms rest
      end
  end.

(** ** main *)

(** [l[a:b]] on a list. *)
Definition list_slice {A : Type} (l : list A) (a b : Z) : list A :=
  let n := Z.of_nat (length l) in
  let clip i := Z.to_nat (Z.min (Z.max (if i <? 0 then i + n else i) 0) n) in
  firstn (clip b - clip a)%nat (skipn (clip a) l).

Fixpoint range_from (count : nat) (start step : Z) : list Z :=
  match count with
  | O => []
  | S n => start :: range_from n (start + step) step
  end.

(** [range(start, stop, step)] *)
Definition py_range (start stop step : Z) : result (list Z) :=
  if step =? 0 then Raise (Error ValueError)
  else if 0 <? step then
    Ok (range_from (Z.to_nat ((stop - start + step - 1) / step)) start step)
  else
    Ok (range_from (Z.to_nat ((start - stop - step - 1) / (- step))) start step).

(** Lines 201-205: the loop over the chunks. *)
Fixpoint chunks_loop (word_list : list string) (paisa_set : gset string)
  (chunk_size : Z) (indices : list Z) : M unit :=
  match indices with
  | [] => mret tt
  | i :: rest =>
      let chunk := list_slice word_list i (i + chunk_size) in
      terms ← process_chunk chunk i paisa_set;
      (match terms with
       | [] => mret tt
       | _ => insert_terms terms
       end);;
      chunks_loop word_list paisa_set chunk_size rest
  end.

(** [main(start, chunk_size)], given the vocabulary [load_paisa_set()]
    returns and the nouns [build_word_list()] returns. *)
Definition main (paisa_set : gset string) (word_list : list string)
  (start chunk_size : Z) : M unit :=
  ensure_db;;
  print [FStr "Loading paisa set and building word list..."];;
  print [FStr "Number of nouns: "; FVal (VInt (Z.of_nat (length word_list)))];;
  indices ← lift (py_range start (Z.of_nat (length word_list)) chunk_size);
  chunks_loop word_list paisa_set chunk_size indices.

End Pipeline.

(** Rows of [derived_forms] for a word and a part-of-speech slot. *)
Definition slot_rows (lemma_id : Z) (pos : string) (s : store) : list derived_row :=
  List.filter (fun r => (d_lemma_id r =? lemma_id) && String.eqb (d_pos r) pos)
    (derived_forms s).

(** What a row of [derived_forms] says, its id apart. *)
Definition payload (r : derived_row) : Z * string * string * string :=
  (d_lemma_id r, d_form r, d_pos r, d_relation_type r).

(** What the rows stored for the forms of one lemma say. *)
Definition forms_payload (lemma_id : Z) (forms : dict string)
  : list (Z * string * string * string) :=
  map (fun pf => (lemma_id, snd pf, fst pf, "morphological"))
    (List.filter (fun pf => is_form (snd pf)) forms).

(** What the rows stored for [terms] say, given the ids of the lemmas. *)
Definition terms_payload (s : store) (terms : dict (dict string))
  : list (Z * string * string * string) :=
  flat_map (fun lf => match select_word_id (fst lf) s with
                      | Some lemma_id => forms_payload lemma_id (snd lf)
                      | None => []
                      end) terms.

(** A form the validation lets through: the sentinel or a word of the
    vocabulary. *)
Definition vetted (paisa_set : gset string) (form : string) : Prop :=
  form = NA \/ form ∈ paisa_set.

Definition derived_of (w : world) : list derived_row :=
  match db w with Some s => derived_forms s | None => [] end.

Definition words_of (w : world) : list word_row :=
  match db w with Some s => words s | None => [] end.

(** ** The tables as a whole *)

(** [i] is the id of a row of [words]. *)
Definition has_word_id (s : store) (i : Z) : Prop :=
  exists r, In r (words s) /\ w_id r = i.

(** What the schema asks of the tables: no lemma and no id twice in
    [words], no id twice in [derived_forms], and every row of
    [derived_forms] refers to a row of [words] (the [FOREIGN KEY], which
    SQLite does not check unless asked to). *)
Definition sound (s : store) : Prop :=
  List.NoDup (map w_lemma (words s))
  /\ List.NoDup (map w_id (words s))
  /\ List.NoDup (map d_id (derived_forms s))
  /\ (forall r, In r (derived_forms s) -> has_word_id s (d_lemma_id r)).

(** The tables of [s0] are still there, row for row, at the head of the
    tables of [s]. *)
Definition extends (s0 s : store) : Prop :=
  (exists ws, words s = (words s0 ++ ws)%list)
  /\ (exists added, derived_forms s = (derived_forms s0 ++ added)%list).

(** The number of forms of [terms] that line 179 lets through. *)
Definition stored_count (terms : dict (dict string)) : nat :=
  list_sum (map (fun lf => length (List.filter (fun pf => is_form (snd pf)) (snd lf))) terms).

(** The database a run starts from: the one that is there, or the empty
    one [ensure_db] creates. *)
Definition store_of (w : world) : store :=
  match db w with Some s => s | None => mk_store [] 0 [] 0 end.

(** The shape of [terms]: one entry for each noun, with the three slots. *)
Definition shaped (terms : dict (dict string)) : Prop :=
  List.NoDup (dict_keys terms)
  /\ forall n f, In (n, f) terms -> map fst f = ["a"; "v"; "r"].

(** ** load_paisa_set *)

(** The default of [path]. *)
Definition PAISA_PATH : string := "lemma-sorted-frequencies-paisa.txt".

(** Line 108: an empty line, a line that starts with [#] and a line of
    white space are passed over. *)
Definition skipped_line (line : string) : bool :=
  String.eqb line "" || PyStr.startswith "#" line || String.eqb (PyStr.strip line) "".

(** Line 110: [[p.strip() for p in line.split(",")]] *)
Definition line_parts (line : string) : list string :=
  map PyStr.strip (PyStr.split_char "," line).

(** Lines 107-114: the loop over the lines, which adds the first part of
    each line that is not passed over. *)
Fixpoint paisa_terms (lines : list string) (s : gset string) : gset string :=
  match lines with
  | [] => s
  | line :: rest =>
      if skipped_line line then paisa_terms rest s
      else
        match line_parts line with
        | [] => paisa_terms rest s
        | term :: _ => paisa_terms rest (s ∪ {[ term ]})
        end
  end.

(** [isinstance(e, FileNotFoundError)] *)
Definition is_FileNotFoundError (e : exn) : bool :=
  match e with
  | Error (OtherError name) => String.eqb name "FileNotFoundError"
  | _ => false
  end.

Section Vocabulary.

(** [open(path, 'r', encoding='utf-8')] and [fh.read()] in the world [w]:
    the text of the file, or the exception the attempt ends in
    ([FileNotFoundError] when nothing is at the path, and also
    [IsADirectoryError], [PermissionError], [UnicodeDecodeError] for a
    file that is not UTF-8). *)
Variable read_text : world -> string -> result string.

(** [load_paisa_set(path)]: [FileNotFoundError] is the one exception
    caught; it gives a warning and the empty set. *)
Definition load_paisa_set (path : string) : M (gset string) :=
  fun w =>
    match read_text w path with
    | Ok text => (Ok (paisa_terms (PyStr.splitlines text) ∅), w)
    | Raise e =>
        if is_FileNotFoundError e then
          (Ok ∅,
           log (EvPrint [FStr "Warning: paisa file not found at "; FStr path;
                         FStr ". Continuing with empty set."]) w)
        else (Raise e, w)
    | OutOfFuel => (OutOfFuel, w)
    end.

End Vocabulary.


(** The term a line of the vocabulary file stands for. *)
Definition term_of_line (line : string) : string :=
  match line_parts line with
  | [] => ""
  | term :: _ => term
  end.

(** An entry with no [morpho] in it, or that is no mapping. *)
Definition bare (entry : pyval) : Prop :=
  match entry with
  | VDict d => dict_has d "morpho" = false
  | _ => True
  end.

(** The chunks [main] cuts out of the word list. *)
Definition chunks_of (word_list : list string) (chunk_size : Z) (indices : list Z)
  : list (list string) :=
  map (fun i => list_slice word_list i (i + chunk_size)) indices.

End Builder.

(* ===================================================================== *)
(** * dbRelationCleanup.py *)
(* ===================================================================== *)

Module Cleanup.
Import Py Sys.

(** The command line: [--input], [--output], [--db] and [--yes]. *)
Record args : Type := mk_args {
  arg_input : string;
  arg_output : string;
  arg_db : string;
  arg_yes : bool
}.

(** An entry of [deletions]: derived term, root term, [derived_forms.id]. *)
Definition deletion : Type := (string * string * Z)%type.

(** The review artifact. *)
Definition deletions_sql : string := "deletions.sql".

(** The line of the artifact for one entry, without its line feed. *)
Definition delete_statement (d : deletion) : string :=
  match d with
  | (derived, root, df_id) =>
      "DELETE FROM derived_forms WHERE id = " +:+ PyStr.of_Z df_id
      +:+ ";  -- form='" +:+ derived +:+ "' expected_root='" +:+ root +:+ "'"
  end.

(** The row of [rows] that a scan of the index on [lemma] meets first: the
    one whose lemma is least in the order of the index. *)
Fixpoint first_in_index (rows : list word_row) : option word_row :=
  match rows with
  | [] => None
  | r :: rest =>
      match first_in_index rest with
      | Some r' => if PyStr.ltb (w_lemma r') (w_lemma r) then Some r' else Some r
      | None => Some r
      end
  end.

(** The rows of [words] whose lemma is [root] up to the case of ASCII
    letters. *)
Definition nocase_matches (root : string) (s : store) : list word_row :=
  List.filter (fun r => PyStr.nocase_eqb (w_lemma r) root) (words s).

(** [SELECT id FROM words WHERE lemma = ? COLLATE NOCASE] and
    [fetchone()]: the query has no [ORDER BY]; SQLite answers it by a scan
    of the index that [UNIQUE] puts on [lemma], which is kept in the order
    of the lemmas as they are written, so of the rows whose lemma is [root]
    up to case the one with the least lemma comes first. *)
Definition select_root_id (root : string) (s : store) : option Z :=
  option_map w_id (first_in_index (nocase_matches root s)).

(** [SELECT id, form FROM derived_forms WHERE lemma_id = ? COLLATE NOCASE]
    and [fetchall()]: the collation does nothing to a comparison of
    integers. *)
Definition select_derived_rows (root_id : Z) (s : store) : list derived_row :=
  List.filter (fun r => d_lemma_id r =? root_id) (derived_forms s).

(** [x in q] for the text [x], by the type of [q]. *)
Definition py_in (x : string) (qv : pyval) : result bool :=
  match qv with
  | VStr s => Ok (PyStr.contains s x)
  | VList l =>
      Ok (existsb (fun v => match v with VStr s => String.eqb s x | _ => false end) l)
  | VDict d => Ok (dict_has d x)
  | _ => Raise (Error TypeError)
  end.

(** [input(prompt)]: the prompt goes to the console and a line is read;
    at the end of the input it raises [EOFError]. *)
Definition input (prompt : string) : M string :=
  fun w =>
    let w' := log (EvPrint [FStr prompt]) w in
    match stdin w' with
    | [] => (Raise (Error EOFError), w')
    | line :: rest => (Ok line, set_stdin rest w')
    end.

(** [prompt_yes_no(prompt, default)] *)
Definition prompt_yes_no (prompt : string) (default : bool) : M bool :=
  let prompt' := if default then prompt +:+ " [Y/n]: " else prompt +:+ " [y/N]: " in
  line ← input prompt';
  let resp := PyStr.lower (PyStr.strip line) in
  match resp with
  | EmptyString => mret default
  | String c _ => mret (Ascii.eqb c "y")
  end.

(** [in_rec["body"]["messages"][0]["content"]], on which [find] is called *)
Definition message_content (in_rec : pyval) : result string :=
  body ← getitem_key in_rec "body";
  messages ← getitem_key body "messages";
  first ← getitem_0 messages;
  content ← getitem_key first "content";
  as_str content.

(** [out["response"]["body"]["choices"][0]["message"]["content"]] *)
Definition answer_of (out : pyval) : result pyval :=
  response ← getitem_key out "response";
  body ← getitem_key response "body";
  choices ← getitem_key body "choices";
  first ← getitem_0 choices;
  message ← getitem_key first "message";
  getitem_key message "content".

(** The text between the quote that ends [marker] and the next quote;
    [None] when the marker is missing. *)
Definition quoted_after (content marker : string) : option string :=
  let index := PyStr.find content marker in
  if index =? -1 then None
  else
    let start := index + PyStr.len marker in
    let stop := PyStr.find_from content "'" start in
    Some (PyStr.slice content start stop).

(** Lines 134-141: the fallback on a [question] or [text] field. *)
Definition fallback (in_rec : pyval) (derived root : string)
  : result (string * string) :=
  if String.eqb derived "" || String.eqb root "" then
    q1 ← py_get in_rec "question";
    q2 ← py_get in_rec "text";
    let qv := py_or (py_or q1 q2) (VStr "") in
    has_arrow ← py_in "->" qv;
    if has_arrow : bool then
      s ← as_str qv;
      match map PyStr.strip (PyStr.split_once s "->") with
      | [d; r] => Ok (d, r)
      | _ => Ok (derived, root)
      end
    else Ok (derived, root)
  else Ok (derived, root).

Section Workflow.

(** [json.loads] on a text: the value, or [None] for a [JSONDecodeError]. *)
Variable json_loads : string -> option pyval.

(** [repr] of a list, a mapping or an object, as [str()] renders them. *)
Variable repr : pyval -> string.

(** The non-blank lines of a file, each decoded. *)
Fixpoint decode_lines (ls : list string) : result (list pyval) :=
  match ls with
  | [] => Ok []
  | line :: rest =>
      let line' := PyStr.strip line in
      if String.eqb line' "" then decode_lines rest
      else
        match json_loads line' with
        | None => Raise (Error JSONDecodeError)
        | Some v => data ← decode_lines rest; Ok (v :: data)
        end
  end.

(** [read_jsonl(path)] *)
Definition read_jsonl (path : string) : M (list pyval) :=
  fun w =>
    match dict_get (files w) path with
    | None => (Raise (Error (OtherError "FileNotFoundError")), w)
    | Some text => (decode_lines (PyStr.lines text), w)
    end.

(** [build_input_map(input_records)] *)
Fixpoint build_input_map (input_records : list pyval) (m : dict pyval)
  : result (dict pyval) :=
  match input_records with
  | [] => Ok m
  | r :: rest =>
      cid ← py_get r "custom_id";
      if is_none cid then build_input_map rest m
      else build_input_map rest (dict_set m (py_str repr cid) r)
  end.

(** Lines 108-160: the body of the first loop for the output record
    [out].  [Some (derived, root)] when the pair is confirmed and goes into
    [to_delete], [None] when the record is passed over. *)
Definition examine (yes : bool) (input_map : dict pyval) (out : pyval)
  : M (option (string * string)) :=
  cid ← lift (py_get out "custom_id");
  if is_none cid then mret None
  else
    match dict_get input_map (py_str repr cid) with
    | None =>
        print [FStr "Warning: no input record for custom_id="; FVal cid];;
        mret None
    | Some in_rec =>
        if is_none in_rec then
          print [FStr "Warning: no input record for custom_id="; FVal cid];;
          mret None
        else
        content ← lift (message_content in_rec);
        match quoted_after content "La parola '" with
        | None =>
            print [FStr "Warning: couldn't find derived term in input for custom_id=";
                   FVal cid];;
            mret None
        | Some derived0 =>
            match quoted_after content "con il lemma '" with
            | None =>
                print [FStr "Warning: couldn't find root term in input for custom_id=";
                       FVal cid];;
                mret None
            | Some root0 =>
                pair ← lift (fallback in_rec derived0 root0);
                if String.eqb (fst pair) "" || String.eqb (snd pair) "" then
                  print [FStr "Skipping custom_id="; FVal cid;
                         FStr ": couldn't determine derived/root"];;
                  mret None
                else
                  let derived := PyStr.strip (fst pair) in
                  let root := PyStr.strip (snd pair) in
                  answer ← lift (answer_of out);
                  let ans_norm := PyStr.lower (PyStr.strip (py_str repr answer)) in
                  if negb (PyStr.find ans_norm "no" =? -1) then
                    confirm ← (if yes then mret true
                               else prompt_yes_no
                                      ("Model answered NO for derived='" +:+ derived
                                       +:+ "' root='" +:+ root
                                       +:+ "'. Confirm delete relation?") false);
                    if confirm : bool then mret (Some (derived, root)) else mret None
                  else mret None
            end
        end
    end.

(** Lines 107-160: the first loop, which fills [to_delete]. *)
Fixpoint confirm_loop (yes : bool) (input_map : dict pyval) (outputs : list pyval)
  (to_delete : dict string) : M (dict string) :=
  match outputs with
  | [] => mret to_delete
  | out :: rest =>
      r ← examine yes input_map out;
      match r with
      | Some (derived, root) =>
          confirm_loop yes input_map rest (dict_set to_delete derived root)
      | None => confirm_loop yes input_map rest to_delete
      end
  end.


End Workflow.

(** Lines 174-189: the body of the second loop for one item of
    [to_delete]; it returns [deletions] with the rows found appended. *)
Definition match_pair (derived root : string) (deletions : list deletion)
  : M (list deletion) :=
  root_row ← query (select_root_id root);
  match root_row with
  | None =>
      print [FStr "  - No DB row found with lemma='"; FStr root; FStr "' in words"];;
      mret deletions
  | Some root_id =>
      derived_rows ← query (select_derived_rows root_id);
      match derived_rows with
      | [] =>
          print [FStr "  - No DB rows found with derived form='"; FStr derived;
                 FStr "' for root lemma_id="; FVal (VInt root_id)];;
          mret deletions
      | _ =>
          mret (deletions ++ map (fun r => (derived, root, d_id r)) derived_rows)%list
      end
  end.

(** Lines 173-189: the second loop. *)
Fixpoint match_loop (to_delete : dict string) (deletions : list deletion)
  : M (list deletion) :=
  match to_delete with
  | [] => mret deletions
  | (derived, root) :: rest =>
      deletions' ← match_pair derived root deletions;
      match_loop rest deletions'
  end.

(** Lines 197-199: one statement printed and written per entry; the text
    written so far is carried along. *)
Fixpoint write_statements (deletions : list deletion) (written : string)
  : M string :=
  match deletions with
  | [] => mret written
  | d :: rest =>
      print [FStr "  "; FStr (delete_statement d)];;
      write_statements rest (written +:+ delete_statement d +:+ Builder.nl)
  end.

(** [open("deletions.sql", "w")] with the text written before it closes. *)
Definition save_artifact (text : string) : M unit :=
  fun w => (Ok tt, set_files (dict_set (files w) deletions_sql text) w).

(** Lines 162-205 of [main]: the plan for the confirmed pairs, printed and
    saved. *)
Definition report (to_delete : dict string) : M unit :=
  match to_delete return M unit with
  | [] => print [FStr "No confirmed deletions. Exiting."]
  | _ =>
      print [FStr Builder.nl;
             FStr "Dry-run: the following matches were found in DB for the confirmed derived terms:"];;
      deletions ← match_loop to_delete [];
      match deletions return M unit with
      | [] => print [FStr Builder.nl; FStr "No rows to delete (dry-run). Exiting."]
      | _ =>
          print [FStr Builder.nl;
                 FStr "Dry-run summary: the following DELETE statements would be executed:"];;
          text ← write_statements deletions "";
          save_artifact text;;
          print [FStr Builder.nl; FStr "Saved dry-run report and pairs to ";
                 FStr deletions_sql];;
          print [FStr "You can use sqlite3 to execute the DELETE statements following this procedure:";
                 FStr Builder.nl];;
          print [FStr "1) Make a backup copy of your database file."];;
          print [FStr "2) Open sqlite3 shell: sqlite3 relations_italian.db3"];;
          print [FStr "3) Read and execute the SQL file: .read deletions.sql"]
      end
  end.

Section Main.

Variable json_loads : string -> option pyval.
Variable repr : pyval -> string.

(** Lines 94-160 of [main]: the two files are read and the first loop
    fills [to_delete]. *)
Definition collect (a : args) : M (dict string) :=
  print [FStr "Reading input and output JSONL..."];;
  inputs ← read_jsonl json_loads (arg_input a);
  outputs ← read_jsonl json_loads (arg_output a);
  input_map ← lift (build_input_map repr inputs []);
  print [FStr "Found "; FVal (VInt (Z.of_nat (length outputs)));
         FStr " outputs to check"];;
  confirm_loop repr (arg_yes a) input_map outputs [].

(** Lines 94-205 of [main], from the first read on. *)
Definition reconcile (a : args) : M unit :=
  to_delete ← collect a;
  report to_delete.

(** [main()], after the command line is parsed. *)
Definition main (a : args) : M unit :=
  fun w =>
    if negb (dict_has (files w) (arg_input a)) then
      raise (SystemExit ("Input file not found: " +:+ arg_input a)) w
    else if negb (dict_has (files w) (arg_output a)) then
      raise (SystemExit ("Output file not found: " +:+ arg_output a)) w
    else
      match db w with
      | None => raise (SystemExit ("DB file not found: " +:+ arg_db a)) w
      | Some _ => reconcile a w
      end.

End Main.


(** The lines of [deletions.sql] after a run. *)
Definition artifact (w : world) : option string := dict_get (files w) deletions_sql.



Section Plan.

Variable json_loads : string -> option pyval.
Variable repr : pyval -> string.


End Plan.



(** A run that leaves the database as it was and writes no file but the
    artifact. *)
Definition untouched (w w' : world) : Prop :=
  db w' = db w
  /\ forall path, path <> deletions_sql ->
                  dict_get (files w') path = dict_get (files w) path.

Definition quiet {A : Type} (m : M A) : Prop := forall w, untouched w (snd (m w)).

(** The key under which [build_input_map] files a record: the text of its
    [custom_id], when it has one that is not [None]. *)
Definition record_key (repr : pyval -> string) (r : pyval) : option string :=
  match r with
  | VDict d =>
      match dict_get d "custom_id" with
      | Some cid => if is_none cid then None else Some (py_str repr cid)
      | None => None
      end
  | _ => None
  end.

Definition has_key (repr : pyval -> string) (k : string) (r : pyval) : bool :=
  match record_key repr r with
  | Some k' => String.eqb k' k
  | None => false
  end.


(** A computation that keeps a relation between the world before and the
    world after, however it ends. *)
Definition keeps {A : Type} (R : world -> world -> Prop) (m : M A) : Prop :=
  forall w, R w (snd (m w)).

(** Nothing has been read from the standard input. *)
Definition same_stdin (w w' : world) : Prop := stdin w' = stdin w.

(** No file has been written and the database is as it was. *)
Definition same_files (w w' : world) : Prop := files w' = files w /\ db w' = db w.

(** A result that is a value or an ordinary exception: no [SystemExit],
    and no loop of the model cut short. *)
Definition plain {A : Type} (r : result A) : Prop :=
  match r with
  | Ok _ => True
  | Raise e => is_Exception e = true
  | OutOfFuel => False
  end.

(** A computation that never ends in [SystemExit]. *)
Definition no_exit {A : Type} (m : M A) : Prop := forall w, plain (fst (m w)).

(** A reply that confirms: after the white space at its head, it starts
    with the letter y, small or capital. *)
Definition says_yes (line : string) : bool :=
  match PyStr.strip line with
  | String c _ => Ascii.eqb c "y" || Ascii.eqb c "Y"
  | EmptyString => false
  end.

(** The question [main] asks about a pair, as [prompt_yes_no] shows it. *)
Definition confirm_prompt (derived root : string) : string :=
  ("Model answered NO for derived='" +:+ derived +:+ "' root='" +:+ root
   +:+ "'. Confirm delete relation?") +:+ " [y/N]: ".

End Cleanup.

(* ===================================================================== *)
(** * Sample stubs, records and databases *)
(* ===================================================================== *)

(** Concrete inputs on which the theorems below are instantiated. *)
Module Fixtures.
Import Py Sys.

(** A fresh process: no database yet, no files, nothing read or printed. *)
Definition w0 : world := mk_world None [] [] [].

(** A response of the SDK, as an object, with the given content. *)
Definition reply (content : pyval) : pyval :=
  VObj [("choices", VList [VObj [("message", VObj [("content", content)])]])].

(** A service that always does the same. *)
Definition always (o : Mistral.call_outcome) : Mistral.service := fun _ _ => o.

(** A service that does [o1] on its first [k] calls and [o2] afterwards. *)
Definition first_then (k : nat) (o1 o2 : Mistral.call_outcome) : Mistral.service :=
  fun n _ => if (n <? k)%nat then o1 else o2.

Definition req0 : request := Mistral.request_of "p" "text" "0.7".

(** Seven threads about to call [invokeLLM] on the same client. *)
Definition seven_callers : list Mistral.thread := repeat (Mistral.caller 0 5) 7.

(** Seven threads, six on one client and the seventh on another. *)
Definition two_clients : list Mistral.thread :=
  repeat (Mistral.caller 0 5) 6 ++ [Mistral.caller 1 5].

(** A database with the noun casa and one adjective for it. *)
Definition casa_store : store :=
  mk_store [mk_word 1 "casa" "n"] 1
           [mk_derived 1 1 "casalingo" "a" "morphological"] 1.

Definition casa_world : world := mk_world (Some casa_store) [] [] [].

(** A second run brings another adjective for casa. *)
Definition casa_again : dict (dict string) :=
  [("casa", [("a", "casereccio"); ("v", "N/A"); ("r", "N/A")])].

(** A decoder that knows the texts of a table and rejects the rest. *)
Definition decode_table (table : dict pyval) : string -> option pyval :=
  fun text => dict_get table text.

(** An answer for casa: a real adjective, an invented adverb, no verb. *)
Definition casa_reply_text : string :=
  "{" +:+ Builder.q "casa" +:+ ": {" +:+ Builder.q "morpho" +:+ ": {"
  +:+ Builder.q "a" +:+ ": " +:+ Builder.q "casalingo" +:+ ", "
  +:+ Builder.q "r" +:+ ": " +:+ Builder.q "casamente" +:+ ", "
  +:+ Builder.q "v" +:+ ": " +:+ Builder.q "N/A" +:+ "}}}".

Definition casa_morpho : dict pyval :=
  [("a", VStr "casalingo"); ("r", VStr "casamente"); ("v", VStr "N/A")].

Definition casa_reply : pyval :=
  VDict [("casa", VDict [("morpho", VDict casa_morpho)])].

Definition casa_loads : string -> option pyval :=
  decode_table [(casa_reply_text, casa_reply)].

(** A vocabulary that has the adjective and not the adverb. *)
Definition paisa : gset string := {[ "casa"; "casalingo" ]}.

(** An answer for casa with no [morpho] key in it. *)
Definition bare_text : string := "{" +:+ Builder.q "casa" +:+ ": {}}".

Definition bare_loads : string -> option pyval :=
  decode_table [(bare_text, VDict [("casa", VDict [])])].

(** An answer whose second entry has a list where the mapping of the
    forms should be. *)
Definition broken_text : string :=
  "{" +:+ Builder.q "gatto" +:+ ": {" +:+ Builder.q "morpho" +:+ ": {"
  +:+ Builder.q "a" +:+ ": " +:+ Builder.q "felino" +:+ "}}, "
  +:+ Builder.q "casa" +:+ ": {" +:+ Builder.q "morpho" +:+ ": [1]}}".

Definition broken_loads : string -> option pyval :=
  decode_table
    [(broken_text,
      VDict [("gatto", VDict [("morpho", VDict [("a", VStr "felino")])]);
             ("casa", VDict [("morpho", VList [VInt 1])])])].

(** A question of the batch about a derived word and a root, and the
    answer of the model to it. *)
Definition question (cid derived root : string) : pyval :=
  VDict [("custom_id", VStr cid);
         ("body", VDict [("messages",
            VList [VDict [("content",
              VStr ("La parola '" +:+ derived
                    +:+ "' ha una relazione morfologica con il lemma '"
                    +:+ root +:+ "'?"))]])])].

Definition answer (cid text : string) : pyval :=
  VDict [("custom_id", VStr cid);
         ("response", VDict [("body", VDict [("choices",
            VList [VDict [("message", VDict [("content", VStr text)])]])])])].





Definition no_repr : pyval -> string := fun _ => "".

(** A second run that brings the empty text as the adjective of casa. *)
Definition casa_empty : dict (dict string) :=
  [("casa", [("a", ""); ("v", "N/A"); ("r", "N/A")])].

(** An answer for casa whose adjective is the empty text. *)
Definition blank_text : string :=
  "{" +:+ Builder.q "casa" +:+ ": {" +:+ Builder.q "morpho" +:+ ": {"
  +:+ Builder.q "a" +:+ ": " +:+ Builder.q "" +:+ ", "
  +:+ Builder.q "r" +:+ ": " +:+ Builder.q "N/A" +:+ ", "
  +:+ Builder.q "v" +:+ ": " +:+ Builder.q "N/A" +:+ "}}}".

Definition blank_loads : string -> option pyval :=
  decode_table
    [(blank_text,
      VDict [("casa", VDict [("morpho",
               VDict [("a", VStr ""); ("r", VStr "N/A"); ("v", VStr "N/A")])])])].

(** A vocabulary read from a file with a line that starts with a comma:
    the empty text is one of its terms. *)
Definition paisa_with_blank : gset string := {[ ""; "casalingo" ]}.

(** The answer of the end-to-end scenario: no form for gatto, an adjective
    for casa. *)
Definition scenario_text : string :=
  "{" +:+ Builder.q "gatto" +:+ ": {" +:+ Builder.q "morpho" +:+ ": {"
  +:+ Builder.q "a" +:+ ":" +:+ Builder.q "N/A" +:+ ","
  +:+ Builder.q "r" +:+ ":" +:+ Builder.q "N/A" +:+ ","
  +:+ Builder.q "v" +:+ ":" +:+ Builder.q "N/A" +:+ "}}, "
  +:+ Builder.q "casa" +:+ ": {" +:+ Builder.q "morpho" +:+ ": {"
  +:+ Builder.q "a" +:+ ":" +:+ Builder.q "casalingo" +:+ ","
  +:+ Builder.q "r" +:+ ":" +:+ Builder.q "N/A" +:+ ","
  +:+ Builder.q "v" +:+ ":" +:+ Builder.q "N/A" +:+ "}}}".

Definition scenario_loads : string -> option pyval :=
  decode_table
    [(scenario_text,
      VDict [("gatto", VDict [("morpho",
               VDict [("a", VStr "N/A"); ("r", VStr "N/A"); ("v", VStr "N/A")])]);
             ("casa", VDict [("morpho",
               VDict [("a", VStr "casalingo"); ("r", VStr "N/A"); ("v", VStr "N/A")])])])].

(** The files of a batch with one question, about rallegrare and
    allegria, and the answer to it. *)
Definition allegria_loads (reply_text : string) : string -> option pyval :=
  decode_table
    [("I", question "7" "rallegrare" "allegria"); ("O", answer "7" reply_text)].

Definition allegria_store : store :=
  mk_store [mk_word 4 "allegria" "n"] 4
           [mk_derived 9 4 "rallegrare" "v" "morphological"] 9.

(** The database, the two files, and what the user will type. *)
Definition allegria_world (typed : list string) : world :=
  mk_world (Some allegria_store) [("in.jsonl", "I"); ("out.jsonl", "O")] typed [].

Definition allegria_args (yes : bool) : Cleanup.args :=
  Cleanup.mk_args "in.jsonl" "out.jsonl" "relations_italian.db3" yes.



(** A record of the output file whose message has no content. *)
Definition no_answer (cid : string) : pyval :=
  VDict [("custom_id", VStr cid);
         ("response", VDict [("body", VDict [("choices",
            VList [VDict [("message", VDict [("content", VNone)])]])])])].

(** An open database with nothing in it. *)
Definition empty_store : store := mk_store [] 0 [] 0.

Definition empty_world : world := mk_world (Some empty_store) [] [] [].

End Fixtures.

(* ===================================================================== *)
(** * Properties of the invocation client *)
(* ===================================================================== *)

Module MistralProofs.
Import Py Sys Mistral.

Lemma calls_made_after_request req w :
  calls_made (after_request req w) = S (calls_made w).
Proof. reflexivity. Qed.

Lemma calls_made_log_sleep n w : calls_made (log (EvSleep n) w) = calls_made w.
Proof. reflexivity. Qed.

Lemma calls_made_log_print line w : calls_made (log (EvPrint line) w) = calls_made w.
Proof. reflexivity. Qed.

(** One iteration, case by case on what the service does. *)
Lemma attempt_run complete req l w :
  attempt complete req l w =
  match complete (calls_made w) req with
  | Returns res =>
      let content := extract_content res in
      if truthy content then
        match content with
        | VStr text =>
            (Ok (mk_locals (PyStr.strip text) true (retry_counter l), Break),
             after_request req w)
        | _ =>
            (Ok (l, Break),
             log (EvPrint [FStr "Unexpected error occurred: "; FExn (Error AttributeError)])
               (after_request req w))
        end
      else
        (Ok (bump l, Continue),
         log (EvSleep (15 * (retry_counter l + 1))) (after_request req w))
  | Raises SDKError =>
      (Ok (bump l, Continue),
       log (EvSleep (15 * (retry_counter l + 1))) (after_request req w))
  | Raises cls =>
      (Ok (l, Break),
       log (EvPrint [FStr "Unexpected error occurred: "; FExn (Error cls)])
         (after_request req w))
  end.
Proof.
  unfold attempt, try_except, with_llmSemaphore, chat_complete, after_request,
    mbind, M_bind, bind, mret, M_ret, ret, lift, sleep_015, print, emit, raise.
  change (calls_made (log EvAcquire w)) with (calls_made w).
  destruct (complete (calls_made w) req) as [res | cls].
  - cbn zeta. destruct (truthy (extract_content res)) eqn:Ht.
    + destruct (extract_content res); reflexivity.
    + reflexivity.
  - destruct cls; reflexivity.
Qed.

(** A transient outcome: the counter goes up by one, the loop pauses and
    goes on. *)
Lemma attempt_transient complete req l w :
  transient (complete (calls_made w) req) = true ->
  attempt complete req l w =
  (Ok (bump l, Continue),
   log (EvSleep (15 * (retry_counter l + 1))) (after_request req w)).
Proof.
  intros Ht. rewrite attempt_run.
  destruct (complete (calls_made w) req) as [res | cls]; cbn in Ht |- *.
  - apply negb_true_iff in Ht. rewrite Ht. reflexivity.
  - destruct cls; try discriminate. reflexivity.
Qed.

(** Every iteration ends normally, makes one call, and either breaks or
    continues with the counter one higher; a failure keeps the locals. *)
Lemma attempt_shape complete req l w :
  exists l' c w',
    attempt complete req l w = (Ok (l', c), w')
    /\ calls_made w' = S (calls_made w)
    /\ db w' = db w
    /\ (c = Continue -> l' = bump l)
    /\ (c = Break -> l' = l \/ exists text, l' = mk_locals (PyStr.strip text) true (retry_counter l)).
Proof.
  rewrite attempt_run.
  destruct (complete (calls_made w) req) as [res | cls].
  - cbn zeta. destruct (truthy (extract_content res)).
    + destruct (extract_content res);
        eexists _, _, _; (split; [reflexivity |]);
        (split; [reflexivity |]); (split; [reflexivity |]);
        (split; [discriminate |]); intros _; eauto.
    + eexists _, _, _; (split; [reflexivity |]); repeat split; try discriminate; auto.
  - destruct cls;
      eexists _, _, _; (split; [reflexivity |]);
      (split; [reflexivity |]); (split; [reflexivity |]);
      (split; [try discriminate; auto | try discriminate; auto]).
Qed.

(** The step of a thread after its call and the iteration of the
    sequential loop agree on the locals and on where control goes. *)
Lemma attempt_after_call complete req l w :
  match after_call l (complete (calls_made w) req) with
  | AtLoop l' => exists w', attempt complete req l w = (Ok (l', Continue), w')
  | Returned r =>
      exists l' w', attempt complete req l w = (Ok (l', Break), w')
                    /\ r = (response l', success l')
  | InCall _ => False
  end.
Proof.
  rewrite attempt_run. unfold after_call.
  destruct (complete (calls_made w) req) as [res | cls].
  - cbn zeta. destruct (truthy (extract_content res)); [| eauto].
    destruct (extract_content res); simpl; eauto.
  - destruct cls; eauto.
Qed.

Section Loop.

Variable complete : service.
Variable req : request.
Variable attempts : Z.

Lemma retry_loop_exit fuel l w :
  ~ retry_counter l < attempts ->
  retry_loop complete fuel req attempts l w = (Ok l, w).
Proof.
  intros H. destruct fuel; simpl;
    rewrite (proj2 (Z.ltb_ge _ _)) by lia; reflexivity.
Qed.

Lemma retry_loop_S fuel l w l' c w' :
  retry_counter l < attempts ->
  attempt complete req l w = (Ok (l', c), w') ->
  retry_loop complete (S fuel) req attempts l w =
  match c with
  | Break => (Ok l', w')
  | Continue => retry_loop complete fuel req attempts l' w'
  end.
Proof.
  intros H E. simpl. rewrite (proj2 (Z.ltb_lt _ _)) by lia.
  unfold mbind, M_bind, bind. rewrite E. simpl. destruct c; reflexivity.
Qed.

(** With as much fuel as there are attempts left the loop ends, and it
    ends normally: the locals are those of a failure (text and flag as
    they were) or of an answer. *)
Lemma retry_loop_returns fuel : forall l w,
  (Z.to_nat (attempts - retry_counter l) <= fuel)%nat ->
  exists l' w',
    retry_loop complete fuel req attempts l w = (Ok l', w')
    /\ db w' = db w
    /\ ((response l' = response l /\ success l' = success l)
        \/ exists text, response l' = PyStr.strip text /\ success l' = true).
Proof.
  induction fuel as [| fuel IH]; intros l w Hf.
  - exists l, w. rewrite retry_loop_exit by lia. auto.
  - destruct (Z.lt_ge_cases (retry_counter l) attempts) as [Hlt | Hge].
    + destruct (attempt_shape complete req l w)
        as (l' & c & w' & E & _ & Hdb & HC & HB).
      rewrite (retry_loop_S _ _ _ _ _ _ Hlt E). destruct c.
      * exists l', w'. split; [reflexivity |]. split; [exact Hdb |].
        destruct (HB eq_refl) as [-> | [text ->]]; [left; auto | right; eauto].
      * rewrite (HC eq_refl) in *.
        destruct (IH (bump l) w') as (l2 & w2 & E2 & Hdb2 & Hres).
        { unfold bump; simpl. lia. }
        exists l2, w2. split; [exact E2 |]. split; [congruence |]. exact Hres.
    + exists l, w. rewrite retry_loop_exit by lia. auto.
Qed.

(** While the service keeps failing transiently the loop uses every
    attempt that is left and changes nothing but the counter. *)
Lemma retry_loop_exhausted fuel : forall l w,
  (Z.to_nat (attempts - retry_counter l) <= fuel)%nat ->
  (forall n, (n < Z.to_nat (attempts - retry_counter l))%nat ->
             transient (complete (calls_made w + n)%nat req) = true) ->
  exists w',
    retry_loop complete fuel req attempts l w =
      (Ok (mk_locals (response l) (success l) (Z.max (retry_counter l) attempts)), w')
    /\ calls_made w' = (calls_made w + Z.to_nat (attempts - retry_counter l))%nat.
Proof.
  induction fuel as [| fuel IH]; intros l w Hf Ht.
  - exists w. rewrite retry_loop_exit by lia.
    replace (Z.max (retry_counter l) attempts) with (retry_counter l) by lia.
    destruct l; split; [reflexivity | simpl in *; lia].
  - destruct (Z.lt_ge_cases (retry_counter l) attempts) as [Hlt | Hge].
    + assert (E := attempt_transient complete req l w).
      rewrite <- (Nat.add_0_r (calls_made w)) in E at 1.
      specialize (E (Ht O ltac:(lia))).
      rewrite (retry_loop_S _ _ _ _ _ _ Hlt E).
      destruct (IH (bump l) (log (EvSleep (15 * (retry_counter l + 1))) (after_request req w)))
        as (w2 & E2 & Hc2).
      { unfold bump; simpl. lia. }
      { intros n Hn. rewrite calls_made_log_sleep, calls_made_after_request.
        replace (S (calls_made w) + n)%nat with (calls_made w + S n)%nat by lia.
        apply Ht. unfold bump in Hn; simpl in Hn. lia. }
      exists w2. split.
      * rewrite E2. unfold bump; simpl. do 2 f_equal. f_equal. lia.
      * rewrite Hc2, calls_made_log_sleep, calls_made_after_request.
        unfold bump; simpl. lia.
    + exists w. rewrite retry_loop_exit by lia.
      replace (Z.max (retry_counter l) attempts) with (retry_counter l) by lia.
      destruct l; split; [reflexivity | simpl in *; lia].
Qed.

(** [k] transient failures and then an answer: [k + 1] calls, and the
    answer comes back stripped. *)
Lemma retry_loop_answer k : forall fuel l w res text,
  (k < fuel)%nat ->
  retry_counter l + Z.of_nat k < attempts ->
  (forall n, (n < k)%nat -> transient (complete (calls_made w + n)%nat req) = true) ->
  complete (calls_made w + k)%nat req = Returns res ->
  extract_content res = VStr text ->
  text <> "" ->
  exists w',
    retry_loop complete fuel req attempts l w =
      (Ok (mk_locals (PyStr.strip text) true (retry_counter l + Z.of_nat k)), w')
    /\ calls_made w' = (calls_made w + k + 1)%nat.
Proof.
  induction k as [| k IH]; intros fuel l w res text Hf Hlt Ht Hres Hc Hne.
  - destruct fuel as [| fuel]; [lia |].
    assert (E : attempt complete req l w =
                (Ok (mk_locals (PyStr.strip text) true (retry_counter l), Break),
                 after_request req w)).
    { rewrite attempt_run. rewrite Nat.add_0_r in Hres. rewrite Hres. cbn zeta.
      rewrite Hc. simpl. destruct text; [congruence | reflexivity]. }
    assert (Hlt' : retry_counter l < attempts) by lia.
    rewrite (retry_loop_S _ _ _ _ _ _ Hlt' E).
    eexists. split.
    + do 2 f_equal. f_equal. lia.
    + rewrite calls_made_after_request. lia.
  - destruct fuel as [| fuel]; [lia |].
    assert (E := attempt_transient complete req l w).
    rewrite <- (Nat.add_0_r (calls_made w)) in E at 1.
    specialize (E (Ht O ltac:(lia))).
    assert (Hlt' : retry_counter l < attempts) by lia.
    rewrite (retry_loop_S _ _ _ _ _ _ Hlt' E).
    destruct (IH fuel (bump l)
                (log (EvSleep (15 * (retry_counter l + 1))) (after_request req w))
                res text) as (w2 & E2 & Hc2).
    + lia.
    + unfold bump; simpl. lia.
    + intros n Hn. rewrite calls_made_log_sleep, calls_made_after_request.
      replace (S (calls_made w) + n)%nat with (calls_made w + S n)%nat by lia.
      apply Ht. lia.
    + rewrite calls_made_log_sleep, calls_made_after_request.
      replace (S (calls_made w) + k)%nat with (calls_made w + S k)%nat by lia.
      exact Hres.
    + exact Hc.
    + exact Hne.
    + exists w2. split.
      * rewrite E2. unfold bump; simpl. do 2 f_equal. f_equal. lia.
      * rewrite Hc2, calls_made_log_sleep, calls_made_after_request. lia.
Qed.

End Loop.

(** [invokeLLM] returns, and leaves the database alone. *)
Lemma invokeLLM_returns complete _prompt _format _temperature attempts w :
  exists text ok w',
    invokeLLM complete _prompt _format _temperature attempts w = (Ok (text, ok), w')
    /\ db w' = db w.
Proof.
  unfold invokeLLM.
  destruct (retry_loop_returns complete (request_of _prompt _format _temperature)
              attempts (Z.to_nat attempts) (mk_locals "" false 0) w)
    as (l' & w' & E & Hdb & _).
  { simpl. rewrite Z.sub_0_r. lia. }
  exists (response l'), (success l'), w'.
  unfold mbind, M_bind, bind. rewrite E. split; [reflexivity | exact Hdb].
Qed.

(** C2: for every prompt, format, temperature and number of attempts,
    [invokeLLM] ends by returning a pair (text, succeeded) and never with
    an exception on its way to the caller or with a loop still running:
    a transient service error, missing content, an unexpected error and
    the exhaustion of the attempts all end in a returned pair.  A pair
    that reports failure carries the empty text, and when every attempt
    fails transiently the pair is the empty text with [false]. *)
Theorem invokeLLM_never_raises complete _prompt _format _temperature attempts w :
  exists text ok w',
    invokeLLM complete _prompt _format _temperature attempts w = (Ok (text, ok), w')
    /\ (ok = false -> text = "")
    /\ ((forall n, (n < Z.to_nat attempts)%nat ->
            transient (complete (calls_made w + n)%nat
                         (request_of _prompt _format _temperature)) = true) ->
        (text, ok) = ("", false)).
Proof.
  unfold invokeLLM.
  set (req := request_of _prompt _format _temperature).
  set (l0 := mk_locals "" false 0).
  destruct (retry_loop_returns complete req attempts (Z.to_nat attempts) l0 w)
    as (l' & w' & E & _ & Hres).
  { unfold l0; simpl. rewrite Z.sub_0_r. lia. }
  exists (response l'), (success l'), w'.
  split; [| split].
  - unfold mbind, M_bind, bind. rewrite E. reflexivity.
  - intros Hok. destruct Hres as [[Hr _] | (text & _ & Hs)]; [exact Hr | congruence].
  - intros Ht.
    destruct (retry_loop_exhausted complete req attempts (Z.to_nat attempts) l0 w)
      as (w2 & E2 & _).
    { unfold l0; simpl. rewrite Z.sub_0_r. lia. }
    { intros n Hn. apply Ht. unfold l0 in Hn; simpl in Hn.
      rewrite Z.sub_0_r in Hn. exact Hn. }
    rewrite E in E2. injection E2 as -> _. reflexivity.
Qed.

(** C3 (as the code has it): the call counts are exact.  After [k]
    transient failures, [k] below the number of attempts, an answer with
    non-empty text makes [invokeLLM] return that text with the white space
    around it stripped, and [true], after exactly [k + 1] calls; a service
    that always fails transiently makes it return the empty text and
    [false] after exactly [attempts] calls; an unrecognised error on the
    first call makes it return the empty text and [false] after exactly
    one call. *)
Theorem invokeLLM_call_counts complete _prompt _format _temperature attempts w :
  let req := request_of _prompt _format _temperature in
  (forall k res text,
      Z.of_nat k < attempts ->
      (forall n, (n < k)%nat -> transient (complete (calls_made w + n)%nat req) = true) ->
      complete (calls_made w + k)%nat req = Returns res ->
      extract_content res = VStr text ->
      text <> "" ->
      exists w',
        invokeLLM complete _prompt _format _temperature attempts w
          = (Ok (PyStr.strip text, true), w')
        /\ calls_made w' = (calls_made w + (k + 1))%nat)
  /\ ((forall n, transient (complete n req) = true) ->
      exists w',
        invokeLLM complete _prompt _format _temperature attempts w = (Ok ("", false), w')
        /\ calls_made w' = (calls_made w + Z.to_nat attempts)%nat)
  /\ (forall cls,
      1 <= attempts ->
      complete (calls_made w) req = Raises cls ->
      cls <> SDKError ->
      exists w',
        invokeLLM complete _prompt _format _temperature attempts w = (Ok ("", false), w')
        /\ calls_made w' = (calls_made w + 1)%nat).
Proof.
  intros req. unfold invokeLLM.
  fold req. set (l0 := mk_locals "" false 0).
  split; [| split].
  - intros k res text Hk Ht Hres Hc Hne.
    destruct (retry_loop_answer complete req attempts k (Z.to_nat attempts) l0 w res text)
      as (w' & E & Hcalls); try assumption; try (unfold l0; simpl; lia).
    exists w'. unfold mbind, M_bind, bind. rewrite E. simpl.
    split; [reflexivity | lia].
  - intros Ht.
    destruct (retry_loop_exhausted complete req attempts (Z.to_nat attempts) l0 w)
      as (w' & E & Hcalls).
    { unfold l0; simpl. rewrite Z.sub_0_r. lia. }
    { intros n _. apply Ht. }
    exists w'. unfold mbind, M_bind, bind. rewrite E. simpl.
    split; [reflexivity |]. rewrite Hcalls. unfold l0; simpl.
    rewrite Z.sub_0_r. reflexivity.
  - intros cls Ha Hres Hcls.
    assert (E : attempt complete req l0 w =
                (Ok (l0, Break),
                 log (EvPrint [FStr "Unexpected error occurred: "; FExn (Error cls)])
                   (after_request req w))).
    { rewrite attempt_run, Hres. destruct cls; congruence. }
    assert (Hlt : retry_counter l0 < attempts) by (unfold l0; simpl; lia).
    destruct (Z.to_nat attempts) as [| fuel] eqn:Hfuel; [lia |].
    eexists. unfold mbind, M_bind, bind.
    rewrite (retry_loop_S complete req attempts fuel l0 w _ _ _ Hlt E). simpl.
    split; [reflexivity |].
    rewrite calls_made_log_print, calls_made_after_request. lia.
Qed.

(** C3, the claim as stated, fails on an answer with white space around
    it: the service answers [" ok "] on the first call, and the text that
    comes back is ["ok"]. *)
Lemma invokeLLM_strips_the_answer :
  extract_content (Fixtures.reply (VStr " ok ")) = VStr " ok "
  /\ fst (invokeLLM (Fixtures.always (Returns (Fixtures.reply (VStr " ok "))))
            "p" "text" "0.7" 5 Fixtures.w0)
     = Ok ("ok", true)
  /\ calls_made (snd (invokeLLM (Fixtures.always (Returns (Fixtures.reply (VStr " ok "))))
                        "p" "text" "0.7" 5 Fixtures.w0)) = 1%nat.
Proof. vm_compute. auto. Qed.

(** The call counts on a service that fails twice, then answers; on one
    that always fails; and on one that raises [KeyError] at once. *)
Lemma invokeLLM_call_counts_witness :
  (exists w',
      invokeLLM (Fixtures.first_then 2 (Raises SDKError) (Returns (Fixtures.reply (VStr "ciao"))))
        "p" "text" "0.7" 5 Fixtures.w0 = (Ok ("ciao", true), w')
      /\ calls_made w' = 3%nat)
  /\ (exists w',
      invokeLLM (Fixtures.always (Raises SDKError)) "p" "text" "0.7" 5 Fixtures.w0
        = (Ok ("", false), w')
      /\ calls_made w' = 5%nat)
  /\ (exists w',
      invokeLLM (Fixtures.always (Raises KeyError)) "p" "text" "0.7" 5 Fixtures.w0
        = (Ok ("", false), w')
      /\ calls_made w' = 1%nat).
Proof.
  split; [| split].
  - destruct (invokeLLM_call_counts
                (Fixtures.first_then 2 (Raises SDKError) (Returns (Fixtures.reply (VStr "ciao"))))
                "p" "text" "0.7" 5 Fixtures.w0) as [H _].
    apply (H 2%nat (Fixtures.reply (VStr "ciao")) "ciao").
    + lia.
    + intros n Hn. destruct n as [| [| n]]; [reflexivity | reflexivity | lia].
    + reflexivity.
    + reflexivity.
    + discriminate.
  - destruct (invokeLLM_call_counts (Fixtures.always (Raises SDKError))
                "p" "text" "0.7" 5 Fixtures.w0) as (_ & H & _).
    apply H. intros n. reflexivity.
  - destruct (invokeLLM_call_counts (Fixtures.always (Raises KeyError))
                "p" "text" "0.7" 5 Fixtures.w0) as (_ & _ & H).
    apply (H KeyError); [lia | reflexivity | discriminate].
Defined.

(** The pauses between the attempts grow linearly: 0.15 s, 0.30 s, ... *)
Example linear_backoff :
  sleeps_in (trace (snd (invokeLLM (Fixtures.always (Raises SDKError))
                           "p" "text" "0.7" 5 Fixtures.w0)))
  = [15; 30; 45; 60; 75].
Proof. vm_compute. reflexivity. Qed.

(** C8 (as the code has it): the loop tests the extracted content for
    truth, so content that is missing and content that is the empty string
    are treated alike, as a transient failure: the counter goes up by one
    and the loop pauses 0.15 s times the counter before the next attempt.
    Non-empty text ends the loop at once: it is returned stripped, with
    [true]. *)
Theorem empty_content_is_transient complete req attempts l w :
  (forall res,
      complete (calls_made w) req = Returns res ->
      extract_content res = VNone \/ extract_content res = VStr "" ->
      attempt complete req l w =
        (Ok (bump l, Continue),
         log (EvSleep (15 * (retry_counter l + 1))) (after_request req w)))
  /\ (forall res text fuel,
      complete (calls_made w) req = Returns res ->
      extract_content res = VStr text ->
      text <> "" ->
      retry_counter l < attempts ->
      retry_loop complete (S fuel) req attempts l w =
        (Ok (mk_locals (PyStr.strip text) true (retry_counter l)), after_request req w)).
Proof.
  split.
  - intros res Hres Hc. apply attempt_transient. rewrite Hres. simpl.
    destruct Hc as [-> | ->]; reflexivity.
  - intros res text fuel Hres Hc Hne Hlt.
    assert (E : attempt complete req l w =
                (Ok (mk_locals (PyStr.strip text) true (retry_counter l), Break),
                 after_request req w)).
    { rewrite attempt_run, Hres. cbn zeta. rewrite Hc. simpl.
      destruct text; [congruence | reflexivity]. }
    rewrite (retry_loop_S complete req attempts fuel l w _ _ _ Hlt E). reflexivity.
Qed.

(** C8, the claim as stated, fails on a response whose content is the
    empty string: the attempt goes exactly as on a response with no
    content, with the counter raised and a pause of 0.15 s. *)
Lemma empty_string_content_is_retried :
  extract_content (Fixtures.reply (VStr "")) = VStr ""
  /\ extract_content (Fixtures.reply VNone) = VNone
  /\ attempt (Fixtures.always (Returns (Fixtures.reply (VStr ""))))
       Fixtures.req0 (mk_locals "" false 0) Fixtures.w0
     = (Ok (mk_locals "" false 1, Continue),
        log (EvSleep 15) (after_request Fixtures.req0 Fixtures.w0))
  /\ attempt (Fixtures.always (Returns (Fixtures.reply VNone)))
       Fixtures.req0 (mk_locals "" false 0) Fixtures.w0
     = (Ok (mk_locals "" false 1, Continue),
        log (EvSleep 15) (after_request Fixtures.req0 Fixtures.w0)).
Proof. vm_compute. auto. Qed.

(** The two cases of C8 on a service that first sends the empty string
    and then a word. *)
Lemma empty_content_is_transient_witness :
  attempt (Fixtures.first_then 1 (Returns (Fixtures.reply (VStr "")))
             (Returns (Fixtures.reply (VStr "ciao"))))
    Fixtures.req0 (mk_locals "" false 0) Fixtures.w0
  = (Ok (mk_locals "" false 1, Continue),
     log (EvSleep 15) (after_request Fixtures.req0 Fixtures.w0))
  /\ retry_loop (Fixtures.always (Returns (Fixtures.reply (VStr " ciao "))))
       1 Fixtures.req0 5 (mk_locals "" false 0) Fixtures.w0
     = (Ok (mk_locals "ciao" true 0), after_request Fixtures.req0 Fixtures.w0).
Proof.
  split.
  - apply (proj1 (empty_content_is_transient
                    (Fixtures.first_then 1 (Returns (Fixtures.reply (VStr "")))
                       (Returns (Fixtures.reply (VStr "ciao"))))
                    Fixtures.req0 5 (mk_locals "" false 0) Fixtures.w0)
             (Fixtures.reply (VStr ""))).
    + reflexivity.
    + right. reflexivity.
  - apply (proj2 (empty_content_is_transient
                    (Fixtures.always (Returns (Fixtures.reply (VStr " ciao "))))
                    Fixtures.req0 5 (mk_locals "" false 0) Fixtures.w0)
             (Fixtures.reply (VStr " ciao ")) " ciao " 0%nat).
    + reflexivity.
    + reflexivity.
    + discriminate.
    + simpl. lia.
Defined.

(** ** The semaphore under concurrent callers *)

Lemma count_app_cons (f : thread -> bool) ts1 t ts2 :
  length (List.filter f (ts1 ++ t :: ts2)) =
  (length (List.filter f ts1) + (if f t then 1 else 0) + length (List.filter f ts2))%nat.
Proof.
  rewrite List.filter_app, List.length_app. simpl.
  destruct (f t); simpl; lia.
Qed.

Lemma after_call_not_in_call l o : forall l', after_call l o <> InCall l'.
Proof.
  intros l'. unfold after_call. destruct o as [res | cls].
  - destruct (truthy (extract_content res)); [| discriminate].
    destruct (as_str (extract_content res)); discriminate.
  - destruct cls; discriminate.
Qed.

Lemma in_call_after_call c c' a l o :
  in_call c (mk_thread c' a (after_call l o)) = false.
Proof.
  unfold in_call. simpl.
  destruct (after_call l o) eqn:E; try apply andb_false_r.
  exfalso. exact (after_call_not_in_call l o _ E).
Qed.

Lemma in_call_other c c' a st : c <> c' -> in_call c (mk_thread c' a st) = false.
Proof.
  intros H. unfold in_call. simpl.
  rewrite (proj2 (Nat.eqb_neq c' c)) by congruence. reflexivity.
Qed.

Lemma balanced_initial ts : Forall is_caller ts -> balanced ts (initial ts).
Proof.
  intros H. split; [| reflexivity].
  intros c. unfold in_flight, initial. simpl.
  replace (List.filter (in_call c) ts) with (@nil thread); [reflexivity |].
  induction H as [| t ts' (c' & a & ->) _ IH]; [reflexivity |].
  simpl. unfold in_call at 1. simpl. rewrite andb_false_r. exact IH.
Qed.

Lemma balanced_step ts s s' : balanced ts s -> step s s' -> balanced ts s'.
Proof.
  intros [Hb Hc] Hs.
  destruct Hs as [p ts1 ts2 c a l Hlt Hp | p ts1 ts2 c a l o | p ts1 ts2 c a l Hge];
    (split; [| simpl in *; rewrite <- Hc, !map_app; reflexivity]);
    intros c0; specialize (Hb c0);
    unfold in_flight, set_permits in *; simpl in *;
    rewrite count_app_cons in *.
  - destruct (Nat.eqb_spec c0 c) as [-> | Hne].
    + unfold in_call at 2. unfold in_call at 2 in Hb. simpl in *.
      rewrite Nat.eqb_refl in *. simpl in *. lia.
    + rewrite in_call_other in * by exact Hne. exact Hb.
  - rewrite in_call_after_call.
    destruct (Nat.eqb_spec c0 c) as [-> | Hne].
    + unfold in_call at 2 in Hb. simpl in Hb.
      rewrite Nat.eqb_refl in Hb. simpl in Hb. lia.
    + rewrite in_call_other in Hb by exact Hne. exact Hb.
  - unfold in_call at 2. unfold in_call at 2 in Hb. simpl in *.
    rewrite andb_false_r in *. exact Hb.
Qed.

Lemma balanced_reachable ts s :
  Forall is_caller ts -> reachable (initial ts) s -> balanced ts s.
Proof.
  intros H Hr. induction Hr as [| s s' _ IH Hs].
  - apply balanced_initial, H.
  - exact (balanced_step ts s s' IH Hs).
Qed.

Lemma total_of_one_client c ts :
  (forall t, In t ts -> th_client t = c) ->
  List.filter any_in_call ts = List.filter (in_call c) ts.
Proof.
  induction ts as [| t ts IH]; intros H; [reflexivity |].
  simpl. unfold in_call at 1. rewrite (H t (or_introl eq_refl)), Nat.eqb_refl.
  simpl. unfold any_in_call at 1.
  rewrite IH by (intros t' Ht'; apply H; right; exact Ht'). reflexivity.
Qed.

Lemma reachable_first s0 s1 s : step s0 s1 -> reachable s1 s -> reachable s0 s.
Proof.
  intros Hs Hr. induction Hr as [| s s' _ IH Hs'].
  - eapply reach_step; [apply reach_refl | exact Hs].
  - eapply reach_step; [exact IH | exact Hs'].
Qed.

(** The bound of one client: the semaphore belongs to the
    [MistralInterface] object.  However the threads interleave, the
    requests in flight of one client and the permits left in its semaphore
    add up to 6, so a client never has more than 6 requests in flight; and
    when every caller of the process goes through the same client, as in
    the pipeline, no more than 6 requests are in flight in the process. *)
Theorem in_flight_never_exceeds_six ts s :
  Forall is_caller ts ->
  reachable (initial ts) s ->
  (forall c, (in_flight c s + permits s c = 6)%nat)
  /\ (forall c, (in_flight c s <= 6)%nat)
  /\ (forall c, (forall t, In t ts -> th_client t = c) -> (in_flight_total s <= 6)%nat).
Proof.
  intros H Hr. destruct (balanced_reachable ts s H Hr) as [Hb Hc].
  split; [exact Hb |]. split.
  - intros c. specialize (Hb c). unfold llmSemaphore_permits in Hb. lia.
  - intros c Hall. unfold in_flight_total.
    rewrite (total_of_one_client c).
    + specialize (Hb c). unfold in_flight, llmSemaphore_permits in Hb. lia.
    + intros t Ht.
      apply (in_map th_client) in Ht. rewrite Hc in Ht.
      apply in_map_iff in Ht. destruct Ht as (t' & <- & Ht'). apply Hall, Ht'.
Qed.

(** A thread at the loop test, with attempts left and a permit free,
    enters the [with] block. *)
Lemma reachable_acquire p ts1 ts2 c a l s :
  retry_counter l < a ->
  (0 < p c)%nat ->
  reachable (mk_system (set_permits p c (p c - 1)%nat)
               (ts1 ++ mk_thread c a (InCall l) :: ts2)) s ->
  reachable (mk_system p (ts1 ++ mk_thread c a (AtLoop l) :: ts2)) s.
Proof.
  intros Hlt Hp Hr. eapply reachable_first; [| exact Hr].
  apply step_acquire; assumption.
Qed.

(** C9: the bound of 6 requests in flight in the process, which the
    comment of lines 21-22 gives as the limit of the API key, is not kept
    by the code.  The key is the one the module imports, and each
    [MistralInterface] object makes a semaphore of its own: with two
    clients in the process, six threads on one and a seventh on the other
    have seven requests in flight at once. *)
Lemma two_clients_seven_in_flight :
  exists s,
    reachable (initial Fixtures.two_clients) s /\ in_flight_total s = 7%nat.
Proof.
  set (c0 := caller 0 5). set (i0 := mk_thread 0 5 (InCall (mk_locals "" false 0))).
  eexists. split.
  - unfold Fixtures.two_clients, initial. simpl repeat. fold c0.
    apply (reachable_acquire _ (@nil thread) [c0; c0; c0; c0; c0; caller 1 5] 0%nat 5 (mk_locals "" false 0));
        [simpl; lia | vm_compute; lia |].
    apply (reachable_acquire _ [i0] [c0; c0; c0; c0; caller 1 5] 0%nat 5 (mk_locals "" false 0));
        [simpl; lia | vm_compute; lia |].
    apply (reachable_acquire _ [i0; i0] [c0; c0; c0; caller 1 5] 0%nat 5 (mk_locals "" false 0));
        [simpl; lia | vm_compute; lia |].
    apply (reachable_acquire _ [i0; i0; i0] [c0; c0; caller 1 5] 0%nat 5 (mk_locals "" false 0));
        [simpl; lia | vm_compute; lia |].
    apply (reachable_acquire _ [i0; i0; i0; i0] [c0; caller 1 5] 0%nat 5 (mk_locals "" false 0));
        [simpl; lia | vm_compute; lia |].
    apply (reachable_acquire _ [i0; i0; i0; i0; i0] [caller 1 5] 0%nat 5 (mk_locals "" false 0));
        [simpl; lia | vm_compute; lia |].
    apply (reachable_acquire _ [i0; i0; i0; i0; i0; i0] (@nil thread) 1%nat 5 (mk_locals "" false 0));
        [simpl; lia | vm_compute; lia |].
    apply reach_refl.
  - reflexivity.
Qed.

(** Seven callers on one client: once six requests are in flight no
    permit is left, and the bound holds. *)
Lemma in_flight_never_exceeds_six_witness :
  exists s,
    reachable (initial Fixtures.seven_callers) s
    /\ in_flight 0 s = 6%nat
    /\ permits s 0%nat = 0%nat
    /\ (in_flight_total s <= 6)%nat.
Proof.
  set (c0 := caller 0 5). set (i0 := mk_thread 0 5 (InCall (mk_locals "" false 0))).
  assert (Hr : exists s, reachable (initial Fixtures.seven_callers) s
                         /\ in_flight 0 s = 6%nat /\ permits s 0%nat = 0%nat).
  { eexists. split.
    - unfold Fixtures.seven_callers, initial. simpl repeat. fold c0.
      apply (reachable_acquire _ (@nil thread) [c0; c0; c0; c0; c0; c0] 0%nat 5 (mk_locals "" false 0));
        [simpl; lia | vm_compute; lia |].
      apply (reachable_acquire _ [i0] [c0; c0; c0; c0; c0] 0%nat 5 (mk_locals "" false 0));
        [simpl; lia | vm_compute; lia |].
      apply (reachable_acquire _ [i0; i0] [c0; c0; c0; c0] 0%nat 5 (mk_locals "" false 0));
        [simpl; lia | vm_compute; lia |].
      apply (reachable_acquire _ [i0; i0; i0] [c0; c0; c0] 0%nat 5 (mk_locals "" false 0));
        [simpl; lia | vm_compute; lia |].
      apply (reachable_acquire _ [i0; i0; i0; i0] [c0; c0] 0%nat 5 (mk_locals "" false 0));
        [simpl; lia | vm_compute; lia |].
      apply (reachable_acquire _ [i0; i0; i0; i0; i0] [c0] 0%nat 5 (mk_locals "" false 0));
        [simpl; lia | vm_compute; lia |].
      apply reach_refl.
    - split; reflexivity. }
  destruct Hr as (s & Hr & Hf & Hp).
  exists s. split; [exact Hr |]. split; [exact Hf |]. split; [exact Hp |].
  apply (proj2 (proj2 (in_flight_never_exceeds_six Fixtures.seven_callers s
                         ltac:(repeat constructor; exists 0%nat, 5; reflexivity) Hr))
           0%nat).
  intros t Ht. unfold Fixtures.seven_callers in Ht. apply repeat_spec in Ht.
  rewrite Ht. reflexivity.
Defined.

End MistralProofs.

(* ===================================================================== *)
(** * Properties of the generation pipeline *)
(* ===================================================================== *)

Module BuilderProofs.
Import Py Sys Builder.

(** ** The tables *)

Lemma max_id_ge {R : Type} (id : R -> Z) (rows : list R) (r : R) :
  In r rows -> id r <= max_id id rows.
Proof.
  induction rows as [| r0 rows IH]; simpl; [tauto |].
  intros [-> | H]; [lia | specialize (IH H); lia].
Qed.

Lemma filter_all {A : Type} (f : A -> bool) (l : list A) :
  (forall x, In x l -> f x = true) -> List.filter f l = l.
Proof.
  induction l as [| x l IH]; intros H; [reflexivity |].
  simpl. rewrite (H x (or_introl eq_refl)).
  rewrite IH by (intros y Hy; apply H; right; exact Hy). reflexivity.
Qed.

(** The id of a new row is fresh, so [INSERT OR REPLACE] replaces nothing:
    the table is the old table with one row more. *)
Lemma insert_or_replace_appends lemma_id form pos rel s :
  derived_forms (insert_or_replace_derived lemma_id form pos rel s)
  = (derived_forms s
     ++ [mk_derived (next_id (derived_seq s) d_id (derived_forms s)) lemma_id form pos rel])%list
  /\ words (insert_or_replace_derived lemma_id form pos rel s) = words s.
Proof.
  unfold insert_or_replace_derived. simpl. split; [| reflexivity].
  rewrite filter_all; [reflexivity |].
  intros r Hr. apply negb_true_iff, Z.eqb_neq.
  pose proof (max_id_ge d_id _ _ Hr). unfold next_id. lia.
Qed.

Lemma find_app_some {A : Type} (f : A -> bool) (l1 l2 : list A) (x : A) :
  List.find f l1 = Some x -> List.find f (l1 ++ l2) = Some x.
Proof.
  induction l1 as [| y l1 IH]; simpl; [discriminate |].
  destruct (f y); [auto | exact IH].
Qed.

(** A lemma keeps its id when rows are added after it. *)
Lemma select_word_id_stable lemma s s' ws i :
  words s' = (words s ++ ws)%list ->
  select_word_id lemma s = Some i ->
  select_word_id lemma s' = Some i.
Proof.
  unfold select_word_id. intros -> H.
  destruct (List.find _ (words s)) as [r |] eqn:E; [| discriminate].
  rewrite (find_app_some _ _ ws _ E). exact H.
Qed.

Lemma find_existsb {A : Type} (f : A -> bool) (l : list A) :
  existsb f l = true -> exists x, List.find f l = Some x.
Proof.
  induction l as [| y l IH]; simpl; [discriminate |].
  destruct (f y); [eauto | exact IH].
Qed.

Lemma find_app_none {A : Type} (f : A -> bool) (l1 l2 : list A) :
  List.find f l1 = None -> List.find f (l1 ++ l2) = List.find f l2.
Proof.
  induction l1 as [| y l1 IH]; simpl; [reflexivity |].
  destruct (f y); [discriminate | exact IH].
Qed.

Lemma find_not_existsb {A : Type} (f : A -> bool) (l : list A) :
  existsb f l = false -> List.find f l = None.
Proof.
  induction l as [| y l IH]; simpl; [reflexivity |].
  destruct (f y); [discriminate | exact IH].
Qed.

(** After [INSERT OR IGNORE] the lemma has a row; the rows that were there
    are there still, and [derived_forms] is as it was. *)
Lemma insert_or_ignore_word_spec lemma pos s :
  let s' := insert_or_ignore_word lemma pos s in
  (exists ws, words s' = (words s ++ ws)%list)
  /\ derived_forms s' = derived_forms s
  /\ derived_seq s' = derived_seq s
  /\ exists i, select_word_id lemma s' = Some i.
Proof.
  unfold insert_or_ignore_word, select_word_id. cbv zeta.
  destruct (existsb _ (words s)) eqn:E.
  - simpl. split; [exists []; rewrite app_nil_r; reflexivity |].
    split; [reflexivity |]. split; [reflexivity |].
    destruct (find_existsb _ _ E) as [r ->]. simpl. eauto.
  - simpl. split; [eexists; reflexivity |].
    split; [reflexivity |]. split; [reflexivity |].
    rewrite (find_app_none _ _ _ (find_not_existsb _ _ E)). simpl.
    rewrite String.eqb_refl. simpl. eauto.
Qed.

Lemma execute_run f w s : db w = Some s -> execute f w = (Ok tt, set_db (f s) w).
Proof. intros H. unfold execute. rewrite H. reflexivity. Qed.

Lemma query_run {A : Type} (qf : store -> A) w s :
  db w = Some s -> query qf w = (Ok (qf s), w).
Proof. intros H. unfold query. rewrite H. reflexivity. Qed.

(** The forms of one lemma: one row more for each stored form, in order,
    and nothing else changes. *)
Lemma insert_forms_run lemma_id : forall forms w s,
  db w = Some s ->
  exists w' s' added,
    insert_forms lemma_id forms w = (Ok tt, w')
    /\ db w' = Some s'
    /\ words s' = words s
    /\ derived_forms s' = (derived_forms s ++ added)%list
    /\ map payload added = forms_payload lemma_id forms
    /\ (forall r r0, In r added -> In r0 (derived_forms s) -> d_id r0 < d_id r).
Proof.
  induction forms as [| [pos form] rest IH]; intros w s Hdb.
  - exists w, s, []. rewrite app_nil_r. simpl. repeat split; auto. tauto.
  - simpl. unfold forms_payload. simpl. destruct (is_form form) eqn:Hf.
    + unfold mbind, M_bind, bind. rewrite (execute_run _ _ _ Hdb).
      destruct (insert_or_replace_appends lemma_id form pos "morphological" s)
        as [Hd Hw].
      destruct (IH (set_db (insert_or_replace_derived lemma_id form pos "morphological" s) w)
                  _ eq_refl) as (w' & s' & added & E & Hdb' & Hw' & Hd' & Hp & Hfresh).
      exists w', s', (mk_derived (next_id (derived_seq s) d_id (derived_forms s))
                        lemma_id form pos "morphological" :: added).
      split; [exact E |]. split; [exact Hdb' |].
      split; [congruence |]. split; [| split].
      * rewrite Hd', Hd, <- app_assoc. reflexivity.
      * simpl. unfold payload at 1. simpl. rewrite Hp. reflexivity.
      * intros r r0 [<- | Hr] Hr0.
        -- simpl. pose proof (max_id_ge d_id _ _ Hr0). unfold next_id. lia.
        -- apply (Hfresh r r0 Hr). rewrite Hd. apply in_or_app. left. exact Hr0.
    + unfold mbind, M_bind, bind. simpl.
      destruct (IH w s Hdb) as (w' & s' & added & E & Hdb' & Hw' & Hd' & Hp & Hfresh).
      exists w', s', added. auto 10.
Qed.

(** [insert_terms] never fails on an open database; it only adds rows,
    and the rows it adds to [derived_forms] are those of the stored forms
    of [terms], each under the id of its lemma. *)
Lemma insert_terms_run : forall terms w s,
  db w = Some s ->
  exists w' s' ws added,
    insert_terms terms w = (Ok tt, w')
    /\ db w' = Some s'
    /\ words s' = (words s ++ ws)%list
    /\ derived_forms s' = (derived_forms s ++ added)%list
    /\ map payload added = terms_payload s' terms
    /\ (forall r r0, In r added -> In r0 (derived_forms s) -> d_id r0 < d_id r)
    /\ (forall lemma forms, In (lemma, forms) terms ->
                            exists i, select_word_id lemma s' = Some i).
Proof.
  induction terms as [| [lemma forms] rest IH]; intros w s Hdb.
  - exists w, s, [], []. rewrite !app_nil_r. simpl. repeat split; auto; tauto.
  - simpl. unfold mbind, M_bind, bind.
    rewrite (execute_run _ _ _ Hdb).
    set (s1 := insert_or_ignore_word lemma "n" s).
    destruct (insert_or_ignore_word_spec lemma "n" s)
      as ((ws1 & Hw1) & Hd1 & _ & (i & Hi)). fold s1 in Hw1, Hd1, Hi.
    rewrite (query_run _ (set_db s1 w) s1 eq_refl), Hi.
    destruct (insert_forms_run i forms (set_db s1 w) s1 eq_refl)
      as (w2 & s2 & added1 & E2 & Hdb2 & Hw2 & Hd2 & Hp2 & Hfresh2).
    rewrite E2.
    destruct (IH w2 s2 Hdb2)
      as (w3 & s3 & ws3 & added3 & E3 & Hdb3 & Hw3 & Hd3 & Hp3 & Hfresh3 & Hids3).
    assert (Hi3 : select_word_id lemma s3 = Some i).
    { apply (select_word_id_stable lemma s1 s3 ws3 i); [| exact Hi].
      rewrite Hw3, Hw2. reflexivity. }
    exists w3, s3, (ws1 ++ ws3)%list, (added1 ++ added3)%list.
    split; [exact E3 |]. split; [exact Hdb3 |]. split; [| split; [| split; [| split]]].
    + rewrite Hw3, Hw2, Hw1, <- app_assoc. reflexivity.
    + rewrite Hd3, Hd2, Hd1, <- app_assoc. reflexivity.
    + rewrite map_app, Hp2, Hp3. unfold terms_payload at 2. simpl.
      rewrite Hi3. reflexivity.
    + intros r r0 Hr Hr0. apply in_app_or in Hr. destruct Hr as [Hr | Hr].
      * apply (Hfresh2 r r0 Hr). rewrite Hd1. exact Hr0.
      * apply (Hfresh3 r r0 Hr). rewrite Hd2, Hd1. apply in_or_app. left. exact Hr0.
    + intros lemma' forms' [Heq | Hin].
      * injection Heq as <- _. exists i. exact Hi3.
      * exact (Hids3 lemma' forms' Hin).
Qed.

Lemma slot_rows_app lemma_id pos s s' added :
  derived_forms s' = (derived_forms s ++ added)%list ->
  slot_rows lemma_id pos s' =
  (slot_rows lemma_id pos s
   ++ List.filter (fun r => (d_lemma_id r =? lemma_id) && String.eqb (d_pos r) pos) added)%list.
Proof. intros H. unfold slot_rows. rewrite H, List.filter_app. reflexivity. Qed.

Lemma payload_in_terms s terms lemma forms pos form lemma_id :
  In (lemma, forms) terms ->
  In (pos, form) forms ->
  is_form form = true ->
  select_word_id lemma s = Some lemma_id ->
  In (lemma_id, form, pos, "morphological") (terms_payload s terms).
Proof.
  intros Ht Hf Hi Hs. unfold terms_payload. apply in_flat_map.
  exists (lemma, forms). split; [exact Ht |]. simpl. rewrite Hs.
  unfold forms_payload. apply in_map_iff. exists (pos, form).
  split; [reflexivity |]. apply filter_In. split; [exact Hf | exact Hi].
Qed.

(** C5 (as the code has it): [insert_terms] stores a form under a fresh
    surrogate id and looks at nothing else.  For every database and every
    word that has a row of [derived_forms] in some slot, running
    [insert_terms] with a form for the same word and slot, a text that is
    neither empty nor the sentinel, whether or not it differs from the one
    stored, adds a row: the rows that were there are there still, the old
    row among them, the new row has a larger id, and the number of rows of
    that word and slot goes up. *)
Theorem insert_terms_adds_a_row terms lemma forms pos form w s lemma_id old_row :
  db w = Some s ->
  select_word_id lemma s = Some lemma_id ->
  In old_row (slot_rows lemma_id pos s) ->
  In (lemma, forms) terms ->
  In (pos, form) forms ->
  is_form form = true ->
  exists w' s' added new_row,
    insert_terms terms w = (Ok tt, w')
    /\ db w' = Some s'
    /\ derived_forms s' = (derived_forms s ++ added)%list
    /\ In new_row added
    /\ payload new_row = (lemma_id, form, pos, "morphological")
    /\ d_id old_row < d_id new_row
    /\ In old_row (slot_rows lemma_id pos s')
    /\ (length (slot_rows lemma_id pos s) < length (slot_rows lemma_id pos s'))%nat.
Proof.
  intros Hdb Hid Hold Ht Hf Hform.
  destruct (insert_terms_run terms w s Hdb)
    as (w' & s' & ws & added & E & Hdb' & Hw & Hd & Hp & Hfresh & _).
  assert (Hid' : select_word_id lemma s' = Some lemma_id)
    by exact (select_word_id_stable lemma s s' ws lemma_id Hw Hid).
  pose proof (payload_in_terms s' terms lemma forms pos form lemma_id Ht Hf Hform Hid')
    as Hin.
  rewrite <- Hp in Hin. apply in_map_iff in Hin. destruct Hin as (new_row & Hpay & Hnew).
  exists w', s', added, new_row.
  split; [exact E |]. split; [exact Hdb' |]. split; [exact Hd |].
  split; [exact Hnew |]. split; [exact Hpay |].
  split; [apply (Hfresh new_row old_row Hnew); apply filter_In in Hold; tauto |].
  rewrite (slot_rows_app lemma_id pos s s' added Hd). split.
  - apply in_or_app. left. exact Hold.
  - rewrite List.length_app.
    assert (Hn : In new_row
                   (List.filter (fun r => (d_lemma_id r =? lemma_id) && String.eqb (d_pos r) pos)
                      added)).
    { apply filter_In. split; [exact Hnew |].
      unfold payload in Hpay. injection Hpay as H1 _ H3 _.
      rewrite H1, H3, Z.eqb_refl, String.eqb_refl. reflexivity. }
    destruct (List.filter _ added); [destruct Hn | simpl; lia].
Qed.

(** C5, the claim as stated, fails on the empty text: it differs from the
    adjective stored for casa and is not the sentinel, and the guard of
    line 179 passes it over, so no row is added. *)
Lemma empty_form_adds_no_row :
  fst (insert_terms Fixtures.casa_empty Fixtures.casa_world) = Ok tt
  /\ derived_of (snd (insert_terms Fixtures.casa_empty Fixtures.casa_world))
     = [mk_derived 1 1 "casalingo" "a" "morphological"]
  /\ derived_of Fixtures.casa_world = [mk_derived 1 1 "casalingo" "a" "morphological"]
  /\ select_word_id "casa" Fixtures.casa_store = Some 1.
Proof. vm_compute. auto. Qed.

(** A second run over casa with another adjective: two rows for the
    adjective slot of casa afterwards. *)
Lemma insert_terms_adds_a_row_witness :
  exists w' s' added new_row,
    insert_terms Fixtures.casa_again Fixtures.casa_world = (Ok tt, w')
    /\ db w' = Some s'
    /\ derived_forms s' = (derived_forms Fixtures.casa_store ++ added)%list
    /\ In new_row added
    /\ payload new_row = (1, "casereccio", "a", "morphological")
    /\ 1 < d_id new_row
    /\ In (mk_derived 1 1 "casalingo" "a" "morphological") (slot_rows 1 "a" s')
    /\ (length (slot_rows 1 "a" Fixtures.casa_store) < length (slot_rows 1 "a" s'))%nat.
Proof.
  apply (insert_terms_adds_a_row Fixtures.casa_again "casa"
           [("a", "casereccio"); ("v", "N/A"); ("r", "N/A")] "a" "casereccio"
           Fixtures.casa_world Fixtures.casa_store 1
           (mk_derived 1 1 "casalingo" "a" "morphological")).
  - reflexivity.
  - reflexivity.
  - simpl. left. reflexivity.
  - simpl. left. reflexivity.
  - simpl. left. reflexivity.
  - reflexivity.
Defined.

(** ** Validation *)

Lemma vetted_NA paisa_set : vetted paisa_set NA.
Proof. left. reflexivity. Qed.

Lemma validate_str paisa_set x :
  validate paisa_set (VStr x) =
  Ok (if negb (String.eqb x NA) && negb (bool_decide (x ∈ paisa_set)) then NA else x).
Proof. reflexivity. Qed.

Lemma validate_vetted paisa_set x y :
  validate paisa_set x = Ok y -> vetted paisa_set y.
Proof.
  destruct x; simpl; intros H; try discriminate;
    try (injection H as <-; apply vetted_NA).
  injection H as <-.
  destruct (String.eqb_spec s NA) as [-> | Hne]; simpl; [apply vetted_NA |].
  destruct (bool_decide_reflect (s ∈ paisa_set)) as [Hin | Hout]; simpl.
  - right. exact Hin.
  - apply vetted_NA.
Qed.

(** What [entry_forms] returns for an entry with a mapping under
    [morpho]. *)
Lemma entry_forms_morpho paisa_set d m forms :
  dict_get d "morpho" = Some (VDict m) ->
  m <> [] ->
  entry_forms paisa_set (VDict d) = Ok forms ->
  exists a v r,
    validate paisa_set (match dict_get m "a" with Some x => x | None => VStr NA end) = Ok a
    /\ validate paisa_set (match dict_get m "v" with Some x => x | None => VStr NA end) = Ok v
    /\ validate paisa_set (match dict_get m "r" with Some x => x | None => VStr NA end) = Ok r
    /\ forms = [("a", a); ("v", v); ("r", r)].
Proof.
  intros Hm Hne. unfold entry_forms, dict_has, py_get, py_get_default.
  rewrite Hm. destruct m as [| b m']; [congruence |].
  unfold py_or, mbind, result_bind, rbind.
  change (truthy (VDict (b :: m'))) with true. cbv beta iota zeta.
  set (m0 := b :: m').
  destruct (validate paisa_set (match dict_get m0 "v" with Some x => x | None => VStr NA end))
    as [v | |] eqn:Ev; try discriminate.
  destruct (validate paisa_set (match dict_get m0 "a" with Some x => x | None => VStr NA end))
    as [a | |] eqn:Ea; try discriminate.
  destruct (validate paisa_set (match dict_get m0 "r" with Some x => x | None => VStr NA end))
    as [r | |] eqn:Er; try discriminate.
  intros H. injection H as <-. exists a, v, r. auto.
Qed.

Lemma entry_forms_vetted paisa_set entry forms :
  entry_forms paisa_set entry = Ok forms ->
  Forall (fun pf => vetted paisa_set (snd pf)) forms.
Proof.
  assert (Hna : Forall (fun pf : string * string => vetted paisa_set (snd pf))
                  [("a", NA); ("v", NA); ("r", NA)])
    by (repeat (apply List.Forall_cons; [apply vetted_NA |]); apply List.Forall_nil).
  destruct entry; simpl; try (intros H; injection H as <-; exact Hna).
  destruct (dict_has d "morpho"); [| intros H; injection H as <-; exact Hna].
  unfold py_get, py_get_default, mbind, result_bind, rbind.
  destruct (py_or _ _); try discriminate.
  destruct (validate _ _) as [v | |] eqn:Ev; try discriminate.
  destruct (validate paisa_set (match dict_get d0 "a" with Some x => x | None => VStr NA end))
    as [a | |] eqn:Ea; try discriminate.
  destruct (validate paisa_set (match dict_get d0 "r" with Some x => x | None => VStr NA end))
    as [r | |] eqn:Er; try discriminate.
  intros H. injection H as <-.
  apply List.Forall_cons; [exact (validate_vetted _ _ _ Ea) |].
  apply List.Forall_cons; [exact (validate_vetted _ _ _ Ev) |].
  apply List.Forall_cons; [exact (validate_vetted _ _ _ Er) |].
  apply List.Forall_nil.
Qed.

Lemma dict_set_in {V : Type} (d : dict V) k v k' v' :
  In (k', v') (dict_set d k v) -> (k', v') = (k, v) \/ In (k', v') d.
Proof.
  induction d as [| [k0 v0] d IH]; simpl.
  - intros [H | []]. left. congruence.
  - destruct (String.eqb_spec k0 k) as [-> | Hne]; simpl.
    + intros [H | H]; [left; congruence | right; right; exact H].
    + intros [H | H]; [right; left; exact H |].
      destruct (IH H) as [H' | H']; [left; exact H' | right; right; exact H'].
Qed.

Lemma dict_set_has {V : Type} (d : dict V) k v : In (k, v) (dict_set d k v).
Proof.
  induction d as [| [k0 v0] d IH]; simpl; [left; reflexivity |].
  destruct (String.eqb_spec k0 k) as [-> | Hne]; simpl; [left; reflexivity | right; exact IH].
Qed.

Lemma dict_set_keeps {V : Type} (d : dict V) k v k' v' :
  In (k', v') d -> k' <> k -> In (k', v') (dict_set d k v).
Proof.
  induction d as [| [k0 v0] d IH]; simpl; [tauto |].
  intros [H | H] Hne.
  - injection H as -> ->. destruct (String.eqb_spec k' k); [congruence | left; reflexivity].
  - destruct (String.eqb_spec k0 k); simpl; [right; exact H | right; exact (IH H Hne)].
Qed.

(** Whatever the loop leaves in [terms], also when it is cut short, has
    been through the validation. *)
Lemma fill_terms_vetted paisa_set : forall items acc terms r,
  (forall n f, In (n, f) acc -> Forall (fun pf => vetted paisa_set (snd pf)) f) ->
  fill_terms paisa_set items acc = (terms, r) ->
  forall n f, In (n, f) terms -> Forall (fun pf => vetted paisa_set (snd pf)) f.
Proof.
  induction items as [| [noun entry] rest IH]; intros acc terms r Hacc; simpl.
  - intros H. injection H as <- _. exact Hacc.
  - destruct (entry_forms paisa_set entry) as [forms | e |] eqn:E.
    + apply IH. intros n f Hin. destruct (dict_set_in _ _ _ _ _ Hin) as [Heq | Hin'].
      * injection Heq as -> ->. exact (entry_forms_vetted _ _ _ E).
      * exact (Hacc n f Hin').
    + intros H. injection H as <- _. exact Hacc.
    + intros H. injection H as <- _. exact Hacc.
Qed.

Lemma fill_terms_keeps paisa_set : forall items acc terms r k v,
  fill_terms paisa_set items acc = (terms, r) ->
  In (k, v) acc ->
  ~ In k (map fst items) ->
  In (k, v) terms.
Proof.
  induction items as [| [noun entry] rest IH]; intros acc terms r k v; simpl.
  - intros H. injection H as <- _. auto.
  - intros H Hin Hk.
    destruct (entry_forms paisa_set entry) as [forms | e |].
    + apply (IH _ _ _ _ _ H); [| intros H'; apply Hk; right; exact H'].
      apply dict_set_keeps; [exact Hin | intros Heq; apply Hk; left; congruence].
    + injection H as <- _. exact Hin.
    + injection H as <- _. exact Hin.
Qed.

(** When the loop runs to its end over a response with distinct keys,
    every entry of the response has its forms in [terms]. *)
Lemma fill_terms_complete paisa_set : forall items acc terms noun entry,
  fill_terms paisa_set items acc = (terms, Ok tt) ->
  List.NoDup (map fst items) ->
  In (noun, entry) items ->
  exists forms, entry_forms paisa_set entry = Ok forms /\ In (noun, forms) terms.
Proof.
  induction items as [| [n0 e0] rest IH]; intros acc terms noun entry; simpl; [tauto |].
  intros H Hnd Hin. inversion Hnd as [| ? ? Hnotin Hnd']; subst.
  destruct (entry_forms paisa_set e0) as [forms0 | e |] eqn:E; try discriminate.
  destruct Hin as [Heq | Hin].
  - injection Heq as -> ->. exists forms0. split; [exact E |].
    apply (fill_terms_keeps _ _ _ _ _ _ _ H); [apply dict_set_has | exact Hnotin].
  - exact (IH _ _ _ _ H Hnd' Hin).
Qed.

Lemma parse_response_vetted json_loads paisa_set text terms r :
  parse_response json_loads paisa_set text = (terms, r) ->
  forall n f, In (n, f) terms -> Forall (fun pf => vetted paisa_set (snd pf)) f.
Proof.
  unfold parse_response. destruct (json_loads text) as [[| | | | | items |] |];
    try (intros H; injection H as <- _; intros n f []).
  apply fill_terms_vetted. intros n f [].
Qed.

Lemma payload_in_terms_inv s terms p :
  In p (terms_payload s terms) ->
  exists lemma forms pos form lemma_id,
    In (lemma, forms) terms /\ In (pos, form) forms /\ is_form form = true
    /\ select_word_id lemma s = Some lemma_id
    /\ p = (lemma_id, form, pos, "morphological").
Proof.
  unfold terms_payload. intros H. apply in_flat_map in H.
  destruct H as ([lemma forms] & Ht & Hp). simpl in Hp.
  destruct (select_word_id lemma s) as [lemma_id |] eqn:Hs; [| destruct Hp].
  unfold forms_payload in Hp. apply in_map_iff in Hp.
  destruct Hp as ([pos form] & <- & Hf). apply filter_In in Hf. simpl in Hf.
  exists lemma, forms, pos, form, lemma_id. tauto.
Qed.

Lemma fill_terms_app paisa_set before : forall rest acc,
  snd (fill_terms paisa_set before acc) = Ok tt ->
  fill_terms paisa_set (before ++ rest) acc
  = fill_terms paisa_set rest (fst (fill_terms paisa_set before acc)).
Proof.
  induction before as [| [noun entry] before IH]; intros rest acc H; [reflexivity |].
  simpl in H |- *.
  destruct (entry_forms paisa_set entry) as [forms | e |]; try discriminate.
  apply IH, H.
Qed.

Lemma fill_terms_all_ok paisa_set before : forall acc,
  Forall (fun it => exists forms, entry_forms paisa_set (snd it) = Ok forms) before ->
  snd (fill_terms paisa_set before acc) = Ok tt.
Proof.
  induction before as [| [noun entry] before IH]; intros acc H; [reflexivity |].
  inversion H as [| ? ? (forms & Hf) Hrest]; subst. simpl in Hf |- *.
  rewrite Hf. apply IH, Hrest.
Qed.

(** An entry the loop reads stays in [terms], however the loop goes on
    after it. *)
Lemma fill_terms_reads paisa_set before noun entry after forms terms r :
  List.NoDup (map fst (before ++ (noun, entry) :: after)) ->
  Forall (fun it => exists f, entry_forms paisa_set (snd it) = Ok f) before ->
  entry_forms paisa_set entry = Ok forms ->
  fill_terms paisa_set (before ++ (noun, entry) :: after) [] = (terms, r) ->
  In (noun, forms) terms.
Proof.
  intros Hnd Hok Hentry Hfill.
  rewrite (fill_terms_app paisa_set before _ [] (fill_terms_all_ok _ _ _ Hok)) in Hfill.
  simpl in Hfill. rewrite Hentry in Hfill.
  apply (fill_terms_keeps _ _ _ _ _ _ _ Hfill); [apply dict_set_has |].
  rewrite map_app in Hnd. apply List.NoDup_app_remove_l in Hnd.
  simpl in Hnd. inversion Hnd; assumption.
Qed.

(** The rows [insert_terms] adds for terms that have been through the
    validation: their forms are words of the vocabulary, none is the empty
    text and none is the sentinel. *)
Lemma added_rows_vetted paisa_set terms s' added :
  (forall n f, In (n, f) terms -> Forall (fun pf => vetted paisa_set (snd pf)) f) ->
  map payload added = terms_payload s' terms ->
  forall row, In row added ->
    d_form row ∈ paisa_set /\ d_form row <> "" /\ d_form row <> NA.
Proof.
  intros Hvet Hp row Hrow. apply (in_map payload) in Hrow. rewrite Hp in Hrow.
  destruct (payload_in_terms_inv s' terms _ Hrow)
    as (lemma & fs & pos & form & i & Ht & Hf & Hform & _ & Hpay).
  unfold payload in Hpay. injection Hpay as _ -> _ _.
  unfold is_form in Hform. apply andb_true_iff in Hform as [H1 H2].
  apply negb_true_iff, String.eqb_neq in H1, H2.
  pose proof (Hvet lemma fs Ht) as Hall.
  rewrite List.Forall_forall in Hall. destruct (Hall (pos, form) Hf) as [Heq | Hmem].
  - simpl in Heq. congruence.
  - simpl in Hmem. auto.
Qed.

(** C6 (as the code has it): for a response decoded to a mapping, for an
    entry that the loop reads (every entry before it and the entry itself
    are read without an exception), and for every candidate form [x] other
    than the sentinel that the entry carries as a string in one of the
    slots [a], [v], [r]: the entry is in [terms], however the loop ends
    after it; the form kept for the slot is [x] when [x] is in the
    vocabulary and the sentinel when it is not; every row [insert_terms]
    then adds to [derived_forms] has a form that is in the vocabulary and
    is not the empty text, so an [x] outside the vocabulary is never
    stored, and neither is the empty text, also when the vocabulary has
    it; and an [x] in the vocabulary that is not the empty text is stored
    verbatim in a row of the noun and the slot. *)
Theorem vocabulary_filter
  json_loads paisa_set text before noun d after forms terms r m slot x w s :
  json_loads text = Some (VDict (before ++ (noun, VDict d) :: after)) ->
  List.NoDup (map fst (before ++ (noun, VDict d) :: after)) ->
  Forall (fun it => exists f, entry_forms paisa_set (snd it) = Ok f) before ->
  entry_forms paisa_set (VDict d) = Ok forms ->
  parse_response json_loads paisa_set text = (terms, r) ->
  dict_get d "morpho" = Some (VDict m) ->
  In slot ["a"; "v"; "r"] ->
  dict_get m slot = Some (VStr x) ->
  x <> NA ->
  db w = Some s ->
  exists w' s' added lemma_id,
    In (noun, forms) terms
    /\ In (slot, if bool_decide (x ∈ paisa_set) then x else NA) forms
    /\ insert_terms terms w = (Ok tt, w')
    /\ db w' = Some s'
    /\ derived_forms s' = (derived_forms s ++ added)%list
    /\ select_word_id noun s' = Some lemma_id
    /\ (forall row, In row added -> d_form row ∈ paisa_set /\ d_form row <> "")
    /\ (x ∉ paisa_set -> forall row, In row added -> d_form row <> x)
    /\ (x = "" -> forall row, In row added -> d_form row <> x)
    /\ (x ∈ paisa_set -> x <> "" ->
        exists row, In row added /\ payload row = (lemma_id, x, slot, "morphological")).
Proof.
  intros Hload Hnd Hok Hforms Hparse Hmorpho Hslot Hx Hna Hdb.
  assert (Hfill : fill_terms paisa_set (before ++ (noun, VDict d) :: after) []
                  = (terms, r)).
  { unfold parse_response in Hparse. rewrite Hload in Hparse. exact Hparse. }
  pose proof (fill_terms_reads _ _ _ _ _ _ _ _ Hnd Hok Hforms Hfill) as Hin.
  assert (Hm : m <> []) by (intros ->; discriminate Hx).
  destruct (entry_forms_morpho paisa_set d m forms Hmorpho Hm Hforms)
    as (a & v & r0 & Ha & Hv & Hr & ->).
  assert (Hkept : In (slot, if bool_decide (x ∈ paisa_set) then x else NA)
                    [("a", a); ("v", v); ("r", r0)]).
  { assert (Hval : validate paisa_set (VStr x)
                   = Ok (if bool_decide (x ∈ paisa_set) then x else NA)).
    { rewrite validate_str. destruct (String.eqb_spec x NA); [congruence |].
      simpl. destruct (bool_decide (x ∈ paisa_set)); reflexivity. }
    simpl in Hslot. destruct Hslot as [<- | [<- | [<- | []]]].
    - rewrite Hx, Hval in Ha. injection Ha as <-. left. reflexivity.
    - rewrite Hx, Hval in Hv. injection Hv as <-. right. left. reflexivity.
    - rewrite Hx, Hval in Hr. injection Hr as <-. right. right. left. reflexivity. }
  destruct (insert_terms_run terms w s Hdb)
    as (w' & s' & ws & added & E & Hdb' & Hw & Hd & Hp & _ & Hids).
  destruct (Hids noun _ Hin) as (lemma_id & Hid).
  pose proof (added_rows_vetted paisa_set terms s' added
                (parse_response_vetted json_loads paisa_set text terms _ Hparse) Hp)
    as Hall.
  exists w', s', added, lemma_id.
  split; [exact Hin |]. split; [exact Hkept |]. split; [exact E |].
  split; [exact Hdb' |]. split; [exact Hd |]. split; [exact Hid |].
  split; [intros row Hrow; destruct (Hall row Hrow) as (H1 & H2 & _); auto |].
  split; [| split].
  - intros Hout row Hrow Heq. apply Hout. rewrite <- Heq.
    exact (proj1 (Hall row Hrow)).
  - intros -> row Hrow. exact (proj1 (proj2 (Hall row Hrow))).
  - intros Hmem Hne.
    rewrite (bool_decide_eq_true_2 _ Hmem) in Hkept.
    assert (Hform : is_form x = true).
    { unfold is_form. destruct (String.eqb_spec x ""); [congruence |].
      destruct (String.eqb_spec x NA); [congruence | reflexivity]. }
    pose proof (payload_in_terms s' terms noun _ slot x lemma_id Hin Hkept Hform Hid)
      as Hpay.
    rewrite <- Hp in Hpay. apply in_map_iff in Hpay.
    destruct Hpay as (row & Hrow & Hinrow). exists row. split; assumption.
Qed.

(** C6, the claim as stated, fails on the empty text: the vocabulary has
    it, so the validation keeps it as the adjective of casa, and
    [insert_terms] stores no row for it. *)
Lemma empty_form_is_kept_and_not_stored :
  let run := main (Fixtures.always (Mistral.Returns (Fixtures.reply (VStr Fixtures.blank_text))))
               Fixtures.blank_loads Fixtures.paisa_with_blank ["casa"] 0 5 Fixtures.w0 in
  bool_decide ("" ∈ Fixtures.paisa_with_blank) = true
  /\ parse_response Fixtures.blank_loads Fixtures.paisa_with_blank Fixtures.blank_text
     = ([("casa", [("a", ""); ("v", "N/A"); ("r", "N/A")])], Ok tt)
  /\ fst run = Ok tt
  /\ words_of (snd run) = [mk_word 1 "casa" "n"]
  /\ derived_of (snd run) = [].
Proof. vm_compute. auto. Qed.

(** The answer for casa on an empty database: the adjective, which the
    vocabulary has, is stored as it is. *)
Lemma vocabulary_filter_witness :
  exists w' s' added lemma_id,
    In ("casa", [("a", "casalingo"); ("v", "N/A"); ("r", "N/A")])
      [("casa", [("a", "casalingo"); ("v", "N/A"); ("r", "N/A")])]
    /\ In ("a", if bool_decide ("casalingo" ∈ Fixtures.paisa) then "casalingo" else NA)
         [("a", "casalingo"); ("v", "N/A"); ("r", "N/A")]
    /\ insert_terms [("casa", [("a", "casalingo"); ("v", "N/A"); ("r", "N/A")])]
         Fixtures.empty_world = (Ok tt, w')
    /\ db w' = Some s'
    /\ derived_forms s' = (derived_forms Fixtures.empty_store ++ added)%list
    /\ select_word_id "casa" s' = Some lemma_id
    /\ (forall row, In row added -> d_form row ∈ Fixtures.paisa /\ d_form row <> "")
    /\ ("casalingo" ∉ Fixtures.paisa ->
        forall row, In row added -> d_form row <> "casalingo")
    /\ ("casalingo" = "" -> forall row, In row added -> d_form row <> "casalingo")
    /\ ("casalingo" ∈ Fixtures.paisa -> "casalingo" <> "" ->
        exists row, In row added
                    /\ payload row = (lemma_id, "casalingo", "a", "morphological")).
Proof.
  apply (vocabulary_filter Fixtures.casa_loads Fixtures.paisa Fixtures.casa_reply_text
           [] "casa" [("morpho", VDict Fixtures.casa_morpho)] []
           [("a", "casalingo"); ("v", "N/A"); ("r", "N/A")]
           [("casa", [("a", "casalingo"); ("v", "N/A"); ("r", "N/A")])]
           (Ok tt) Fixtures.casa_morpho
           "a" "casalingo" Fixtures.empty_world Fixtures.empty_store).
  - reflexivity.
  - constructor; [simpl; tauto | constructor].
  - apply List.Forall_nil.
  - vm_compute. reflexivity.
  - vm_compute. reflexivity.
  - reflexivity.
  - simpl. left. reflexivity.
  - reflexivity.
  - discriminate.
  - reflexivity.
Defined.

(** A form that is a list raises at the membership test of line 156, so
    the entry is not read: its adjective, a word of the vocabulary, is in
    no row, and the diagnostic is printed. *)
Lemma raising_slot_loses_the_entry :
  let loads := Fixtures.decode_table
                 [("R", VDict [("casa", VDict [("morpho",
                          VDict [("a", VStr "casalingo"); ("v", VList [VStr "x"])])])])] in
  let run := main (Fixtures.always (Mistral.Returns (Fixtures.reply (VStr "R"))))
               loads Fixtures.paisa ["casa"] 0 5 Fixtures.w0 in
  bool_decide ("casalingo" ∈ Fixtures.paisa) = true
  /\ parse_response loads Fixtures.paisa "R" = ([], Raise (Error TypeError))
  /\ fst run = Ok tt
  /\ derived_of (snd run) = []
  /\ printed (snd run)
       [FStr "Failed to parse JSON response for chunk:"; FStr " ";
        FVal (VList [VStr "casa"])].
Proof. vm_compute. repeat (split; [reflexivity |]). left. reflexivity. Qed.

(** The end-to-end scenario of section 8 of the specification: the words
    gatto and casa in one chunk, no form for gatto, the adjective casalingo
    for casa, which the vocabulary has.  The store ends with the two words
    and one derived row. *)
Example end_to_end_scenario :
  let run := main (Fixtures.always (Mistral.Returns (Fixtures.reply (VStr Fixtures.scenario_text))))
               Fixtures.scenario_loads Fixtures.paisa ["gatto"; "casa"] 0 2 Fixtures.w0 in
  fst run = Ok tt
  /\ words_of (snd run) = [mk_word 1 "gatto" "n"; mk_word 2 "casa" "n"]
  /\ derived_of (snd run) = [mk_derived 1 2 "casalingo" "a" "morphological"]
  /\ calls_made (snd run) = 1%nat.
Proof. vm_compute. auto. Qed.

(** ** Malformed responses *)

(** C4, the claim as stated, fails on a response that lacks the expected
    keys: the entry for casa has no [morpho], no diagnostic is printed,
    the chunk is not skipped and the word is inserted. *)
Lemma missing_keys_are_not_skipped :
  let run := main (Fixtures.always (Mistral.Returns (Fixtures.reply (VStr Fixtures.bare_text))))
               Fixtures.bare_loads Fixtures.paisa ["casa"] 0 5 Fixtures.w0 in
  fst run = Ok tt
  /\ console (snd run)
     = [ [FStr "Loading paisa set and building word list..."];
         [FStr "Number of nouns: "; FVal (VInt 1)];
         [FStr "Processing chunk "; FVal (VInt 0); FStr ": "; FVal (VList [VStr "casa"])] ]
  /\ words_of (snd run) = [mk_word 1 "casa" "n"].
Proof. vm_compute. auto. Qed.

(** What the run does when an entry breaks the loop half way: the
    diagnostic is printed, and the entry before it is inserted. *)
Lemma broken_entry_leaves_earlier_terms :
  let run := main (Fixtures.always (Mistral.Returns (Fixtures.reply (VStr Fixtures.broken_text))))
               Fixtures.broken_loads {[ "felino" ]} ["gatto"; "casa"] 0 5 Fixtures.w0 in
  fst run = Ok tt
  /\ printed (snd run)
       [FStr "Failed to parse JSON response for chunk:"; FStr " ";
        FVal (VList [VStr "gatto"; VStr "casa"])]
  /\ words_of (snd run) = [mk_word 1 "gatto" "n"]
  /\ derived_of (snd run) = [mk_derived 1 1 "felino" "a" "morphological"].
Proof. vm_compute. auto. Qed.

End BuilderProofs.

(* ===================================================================== *)
(** * Properties of the reconciliation workflow *)
(* ===================================================================== *)

Module CleanupProofs.
Import Py Sys Cleanup.

(** ** The run reads the database and writes one file *)

Lemma untouched_refl w : untouched w w.
Proof. split; [reflexivity | intros; reflexivity]. Qed.

Lemma untouched_trans w1 w2 w3 : untouched w1 w2 -> untouched w2 w3 -> untouched w1 w3.
Proof.
  intros [D1 F1] [D2 F2]. split; [congruence |].
  intros path Hp. rewrite (F2 path Hp). exact (F1 path Hp).
Qed.

Lemma quiet_ret {A : Type} (a : A) : quiet (mret a : M A).
Proof. intros w. apply untouched_refl. Qed.

Lemma quiet_raise {A : Type} (e : exn) : quiet (raise e : M A).
Proof. intros w. apply untouched_refl. Qed.

Lemma quiet_lift {A : Type} (r : result A) : quiet (lift r).
Proof. intros w. apply untouched_refl. Qed.

Lemma quiet_print line : quiet (print line).
Proof. intros w. split; [reflexivity | intros; reflexivity]. Qed.

Lemma quiet_query {A : Type} (qf : store -> A) : quiet (query qf).
Proof. intros w. unfold query. destruct (db w); apply untouched_refl. Qed.

Lemma quiet_input prompt : quiet (input prompt).
Proof.
  intros w. unfold input. simpl. destruct (stdin w);
    split; (reflexivity || (intros; reflexivity)).
Qed.

Lemma quiet_mbind {A B : Type} (m : M A) (k : A -> M B) :
  quiet m -> (forall a, quiet (k a)) -> quiet (m ≫= k).
Proof.
  intros Hm Hk w. unfold mbind, M_bind, bind.
  specialize (Hm w). destruct (m w) as [[a | e |] w1]; simpl in Hm |- *.
  - exact (untouched_trans _ _ _ Hm (Hk a w1)).
  - exact Hm.
  - exact Hm.
Qed.

Lemma dict_get_set_other {V : Type} (d : dict V) k v k' :
  k' <> k -> dict_get (dict_set d k v) k' = dict_get d k'.
Proof.
  intros Hne. induction d as [| [k0 v0] d IH]; simpl.
  - destruct (String.eqb_spec k k'); [congruence | reflexivity].
  - destruct (String.eqb_spec k0 k) as [-> | Hk]; simpl.
    + destruct (String.eqb_spec k k'); [congruence | reflexivity].
    + destruct (String.eqb_spec k0 k'); [reflexivity | exact IH].
Qed.

Lemma dict_get_set_same {V : Type} (d : dict V) k v :
  dict_get (dict_set d k v) k = Some v.
Proof.
  induction d as [| [k0 v0] d IH]; simpl.
  - rewrite String.eqb_refl. reflexivity.
  - destruct (String.eqb_spec k0 k) as [-> | Hk]; simpl.
    + rewrite String.eqb_refl. reflexivity.
    + destruct (String.eqb_spec k0 k); [congruence | exact IH].
Qed.

Lemma quiet_save_artifact text : quiet (save_artifact text).
Proof.
  intros w. split; [reflexivity |].
  intros path Hp. simpl. apply dict_get_set_other. exact Hp.
Qed.

Ltac quiet_step :=
  first
    [ apply quiet_ret | apply quiet_raise | apply quiet_lift | apply quiet_print
    | apply quiet_query | apply quiet_input | apply quiet_save_artifact
    | assumption
    | apply quiet_mbind; [| intros ?]
    | match goal with
      | |- quiet (if ?b then _ else _) => destruct b
      | |- quiet (match ?x with _ => _ end) => destruct x
      end
    | progress cbv zeta ].

Ltac quiet_all := repeat quiet_step.

Section Quiet.

Variable json_loads : string -> option pyval.
Variable repr : pyval -> string.

Lemma quiet_prompt_yes_no prompt default : quiet (prompt_yes_no prompt default).
Proof. unfold prompt_yes_no. quiet_all. Qed.

Lemma quiet_examine yes input_map out : quiet (examine repr yes input_map out).
Proof.
  unfold examine.
  pose proof quiet_prompt_yes_no as Hp.
  quiet_all; apply Hp.
Qed.

Lemma quiet_confirm_loop yes input_map outputs :
  forall to_delete, quiet (confirm_loop repr yes input_map outputs to_delete).
Proof.
  induction outputs as [| out rest IH]; intros to_delete; simpl.
  - apply quiet_ret.
  - apply quiet_mbind; [apply quiet_examine |].
    intros [[derived root] |]; apply IH.
Qed.

Lemma quiet_read_jsonl path : quiet (read_jsonl json_loads path).
Proof.
  intros w. unfold read_jsonl. destruct (dict_get (files w) path); apply untouched_refl.
Qed.

Lemma quiet_match_pair derived root deletions : quiet (match_pair derived root deletions).
Proof. unfold match_pair. quiet_all. Qed.

Lemma quiet_match_loop to_delete : forall deletions, quiet (match_loop to_delete deletions).
Proof.
  induction to_delete as [| [derived root] rest IH]; intros deletions; simpl.
  - apply quiet_ret.
  - apply quiet_mbind; [apply quiet_match_pair | intros; apply IH].
Qed.

Lemma quiet_write_statements deletions : forall written,
  quiet (write_statements deletions written).
Proof.
  induction deletions as [| d rest IH]; intros written; simpl.
  - apply quiet_ret.
  - apply quiet_mbind; [apply quiet_print | intros; apply IH].
Qed.

Lemma quiet_report to_delete : quiet (report to_delete).
Proof.
  unfold report.
  pose proof (quiet_match_loop) as H3.
  pose proof (quiet_write_statements) as H4.
  quiet_all; first [apply H3 | apply H4].
Qed.

Lemma quiet_reconcile a : quiet (reconcile json_loads repr a).
Proof.
  unfold reconcile, collect.
  pose proof (quiet_read_jsonl) as H1.
  pose proof (quiet_confirm_loop) as H2.
  pose proof (quiet_report) as H3.
  quiet_all; first [apply H1 | apply H2 | apply H3].
Qed.

Lemma quiet_main a : quiet (main json_loads repr a).
Proof.
  intros w. unfold main.
  destruct (negb (dict_has (files w) (arg_input a))); [apply untouched_refl |].
  destruct (negb (dict_has (files w) (arg_output a))); [apply untouched_refl |].
  destruct (db w) eqn:E; [| apply untouched_refl].
  apply quiet_reconcile.
Qed.

End Quiet.

(** C1: a run of the workflow deletes nothing.  Whatever the records, the
    [--yes] flag, the answers typed and the number of candidates, and also
    when the run ends in an exception, the database after the run is the
    database before it, so [derived_forms] has the same rows and the same
    number of rows; and the only file written is [deletions.sql]. *)
Theorem reconcile_never_deletes json_loads repr a w :
  db (snd (main json_loads repr a w)) = db w
  /\ Builder.derived_of (snd (main json_loads repr a w)) = Builder.derived_of w
  /\ length (Builder.derived_of (snd (main json_loads repr a w)))
     = length (Builder.derived_of w)
  /\ forall path, path <> deletions_sql ->
       dict_get (files (snd (main json_loads repr a w))) path = dict_get (files w) path.
Proof.
  destruct (quiet_main json_loads repr a w) as [Hdb Hfiles].
  unfold Builder.derived_of. rewrite Hdb. auto.
Qed.

(** ** The plan *)






(** ** The confirmed pairs *)

Section Pairs.

Variable repr : pyval -> string.


End Pairs.

Lemma dict_keys_set_in {V : Type} (d : dict V) k v x :
  In x (dict_keys (dict_set d k v)) -> x = k \/ In x (dict_keys d).
Proof.
  unfold dict_keys. intros H. apply in_map_iff in H. destruct H as ([k' v'] & <- & Hin).
  destruct (BuilderProofs.dict_set_in _ _ _ _ _ Hin) as [Heq | Hin'].
  - left. injection Heq as -> _. reflexivity.
  - right. apply (in_map fst) in Hin'. exact Hin'.
Qed.

Lemma dict_set_nodup {V : Type} (d : dict V) k v :
  List.NoDup (dict_keys d) -> List.NoDup (dict_keys (dict_set d k v)).
Proof.
  induction d as [| [k0 v0] d IH]; simpl; intros H.
  - constructor; [simpl; tauto | constructor].
  - inversion H as [| ? ? Hnotin Hnd]; subst.
    destruct (String.eqb_spec k0 k) as [-> | Hne]; simpl.
    + constructor; assumption.
    + constructor; [| exact (IH Hnd)].
      intros Hin. destruct (dict_keys_set_in _ _ _ _ Hin) as [Heq | Hin']; [congruence |].
      exact (Hnotin Hin').
Qed.


Lemma dict_get_in {V : Type} (d : dict V) k v : dict_get d k = Some v -> In (k, v) d.
Proof.
  induction d as [| [k0 v0] d IH]; simpl; [discriminate |].
  destruct (String.eqb_spec k0 k) as [-> | Hne].
  - intros H. injection H as ->. left. reflexivity.
  - intros H. right. exact (IH H).
Qed.






(** The scenario of section 8 of the specification, from the files on:
    one question, the answer No, [--yes], a matching word with one derived
    row.  The artifact has one [DELETE] line, for that row, and the
    database is as before. *)
Example reconciliation_scenario :
  let inputs := "I" in
  let outputs := "O" in
  let loads := Fixtures.decode_table
                 [("I", Fixtures.question "7" "rallegrare" "allegria");
                  ("O", Fixtures.answer "7" "No, non esiste alcuna relazione")] in
  let s := mk_store [mk_word 4 "allegria" "n"] 4
                    [mk_derived 9 4 "rallegrare" "v" "morphological"] 9 in
  let w := mk_world (Some s) [("in.jsonl", inputs); ("out.jsonl", outputs)] [] [] in
  let run := main loads Fixtures.no_repr (mk_args "in.jsonl" "out.jsonl" "db" true) w in
  fst run = Ok tt
  /\ artifact (snd run)
     = Some ("DELETE FROM derived_forms WHERE id = 9;  -- form='rallegrare' expected_root='allegria'"
             +:+ Builder.nl)
  /\ db (snd run) = Some s.
Proof. vm_compute. auto. Qed.

End CleanupProofs.

(* ===================================================================== *)
(** * More on the invocation client *)
(* ===================================================================== *)

Module MistralExtra.
Import Py Sys Mistral MistralProofs.

(** [extract_content] never fails and reads objects and mappings alike:
    it is the content of the message of the first element of the list of
    choices, and [None] when there are no choices, the list is empty,
    [choices] is no list, or the message is missing. *)
Theorem extract_content_is_first_choice_content res :
  extract_content res = first_choice_content res.
Proof.
  unfold extract_content, first_choice_content, field.
  destruct res as [| b | z | s | l | d | attrs]; try reflexivity.
  - (* a mapping *)
    cbn [getattr_or_none truthy negb andb is_dict py_get py_get_default].
    unfold mbind, result_bind, rbind.
    destruct (dict_get d "choices") as [choices |]; [| reflexivity].
    destruct choices as [| b | z | s | l | d' | attrs']; try reflexivity.
    + destruct b; reflexivity.
    + cbn [truthy]. destruct (z =? 0); reflexivity.
    + cbn [truthy]. destruct s as [| c s']; [reflexivity |].
      cbn. destruct (0 <? _); reflexivity.
    + destruct l as [| first rest]; [reflexivity |].
      cbn [truthy py_len getitem_0].
      replace (0 <? Z.of_nat (length (first :: rest))) with true
        by (symmetry; apply Z.ltb_lt; simpl length; lia).
      destruct first as [| b | z | s | l' | d' | attrs']; try reflexivity.
      * cbn [is_dict negb py_get py_get_default].
        destruct (match dict_get d' "message" with Some x => x | None => VNone end)
          as [| b | z | s | l' | d'' | attrs'']; try reflexivity;
          cbn [truthy is_dict negb getattr_or_none py_get py_get_default];
          match goal with |- context [if ?c then _ else _] => destruct c; reflexivity end.
      * cbn [is_dict negb getattr_or_none].
        destruct (match dict_get attrs' "message" with Some x => x | None => VNone end)
          as [| b | z | s | l' | d'' | attrs'']; try reflexivity;
          cbn [truthy is_dict negb getattr_or_none py_get py_get_default];
          match goal with |- context [if ?c then _ else _] => destruct c; reflexivity end.
    + destruct d' as [| kv rest]; reflexivity.
  - (* an object *)
    cbn [getattr_or_none is_dict andb].
    rewrite andb_false_r.
    unfold mbind, result_bind, rbind.
    destruct (match dict_get attrs "choices" with Some x => x | None => VNone end)
      as [| b | z | s | l | d' | attrs']; try reflexivity.
    + destruct b; reflexivity.
    + cbn [truthy]. destruct (z =? 0); reflexivity.
    + cbn [truthy]. destruct s as [| c s']; [reflexivity |].
      cbn. destruct (0 <? _); reflexivity.
    + destruct l as [| first rest]; [reflexivity |].
      cbn [truthy py_len getitem_0].
      replace (0 <? Z.of_nat (length (first :: rest))) with true
        by (symmetry; apply Z.ltb_lt; simpl length; lia).
      destruct first as [| b | z | s | l' | d' | attrs']; try reflexivity.
      * cbn [is_dict negb py_get py_get_default].
        destruct (match dict_get d' "message" with Some x => x | None => VNone end)
          as [| b | z | s | l' | d'' | attrs'']; try reflexivity;
          cbn [truthy is_dict negb getattr_or_none py_get py_get_default];
          match goal with |- context [if ?c then _ else _] => destruct c; reflexivity end.
      * cbn [is_dict negb getattr_or_none].
        destruct (match dict_get attrs' "message" with Some x => x | None => VNone end)
          as [| b | z | s | l' | d'' | attrs'']; try reflexivity;
          cbn [truthy is_dict negb getattr_or_none py_get py_get_default];
          match goal with |- context [if ?c then _ else _] => destruct c; reflexivity end.
    + destruct d' as [| kv rest]; reflexivity.
Qed.

(** ** What a run leaves in the trace *)

Lemma permit_free_app t1 t2 :
  permit_free t1 = true -> permit_free (t1 ++ t2) = permit_free t2.
Proof.
  assert (H : forall n t, (length t <= n)%nat -> permit_free t = true ->
                          permit_free (t ++ t2) = permit_free t2).
  { induction n as [| n IH]; intros t Hn Hp.
    - destruct t; [reflexivity | simpl in Hn; lia].
    - destruct t as [| e t]; [reflexivity |].
      destruct e; simpl in Hp; try discriminate.
      + destruct t as [| e1 t]; [discriminate |].
        destruct e1; try discriminate.
        destruct t as [| e2 t]; [discriminate |].
        destruct e2; try discriminate.
        simpl. apply IH; [simpl in Hn; lia | exact Hp].
      + simpl. apply IH; [simpl in Hn; lia | exact Hp].
      + simpl. apply IH; [simpl in Hn; lia | exact Hp]. }
  apply (H (length t1)). lia.
Qed.

Lemma requests_in_app t1 t2 :
  requests_in (t1 ++ t2) = (requests_in t1 ++ requests_in t2)%list.
Proof.
  induction t1 as [| e t1 IH]; [reflexivity |].
  destruct e; simpl; rewrite IH; reflexivity.
Qed.

Lemma calls_in_app t1 t2 : calls_in (t1 ++ t2) = (calls_in t1 + calls_in t2)%nat.
Proof.
  induction t1 as [| e t1 IH]; [reflexivity |].
  destruct e; simpl; rewrite IH; reflexivity.
Qed.

Lemma sleeps_in_app t1 t2 :
  sleeps_in (t1 ++ t2) = (sleeps_in t2 ++ sleeps_in t1)%list.
Proof.
  induction t1 as [| e t1 IH]; [simpl; rewrite app_nil_r; reflexivity |].
  destruct e; simpl; rewrite IH; try reflexivity.
  rewrite app_assoc. reflexivity.
Qed.

(** One iteration touches nothing but the trace, where it leaves the
    taking of a permit, the request, the giving back of the permit, and
    then at most a pause or a diagnostic. *)
Lemma attempt_frame complete req l w :
  exists l' c e,
    attempt complete req l w =
      (Ok (l', c),
       mk_world (db w) (files w) (stdin w)
         (e ++ EvRelease :: EvCall req :: EvAcquire :: trace w))
    /\ tail_of_attempt e = true
    /\ (c = Continue -> l' = bump l).
Proof.
  rewrite attempt_run. unfold after_request, log. simpl.
  destruct (complete (calls_made w) req) as [res | cls].
  - cbn zeta. destruct (truthy (extract_content res)).
    + destruct (extract_content res);
        first [ exists (mk_locals (PyStr.strip s) true (retry_counter l)), Break, (@nil event);
                split; [reflexivity | split; [reflexivity | discriminate]]
              | eexists l, Break, [_]; split; [reflexivity | split; [reflexivity | discriminate]] ].
    + eexists (bump l), Continue, [_]. split; [reflexivity | split; [reflexivity | reflexivity]].
  - destruct cls;
      first [ eexists (bump l), Continue, [_]; split; [reflexivity | split; reflexivity]
            | eexists l, Break, [_]; split; [reflexivity | split; [reflexivity | discriminate]] ].
Qed.

Section Frame.

Variable complete : service.
Variable req : request.
Variable attempts : Z.

(** The loop touches nothing but the trace; every request in it is [req]
    and holds a permit that is given back before anything else happens;
    there are no more requests than attempts left. *)
Lemma retry_loop_frame fuel : forall l w,
  (Z.to_nat (attempts - retry_counter l) <= fuel)%nat ->
  exists l' t,
    retry_loop complete fuel req attempts l w =
      (Ok l', mk_world (db w) (files w) (stdin w) (t ++ trace w))
    /\ permit_free t = true
    /\ requests_in t = repeat req (calls_in t)
    /\ (calls_in t <= Z.to_nat (attempts - retry_counter l))%nat.
Proof.
  induction fuel as [| fuel IH]; intros l w Hf.
  - exists l, []. rewrite retry_loop_exit by lia. destruct w; simpl.
    repeat split; lia.
  - destruct (Z.lt_ge_cases (retry_counter l) attempts) as [Hlt | Hge].
    + destruct (attempt_frame complete req l w) as (l1 & c & e & E & He & HC).
      rewrite (retry_loop_S _ _ _ _ _ _ _ _ _ Hlt E).
      assert (He' : permit_free (e ++ [EvRelease; EvCall req; EvAcquire]) = true
                    /\ requests_in (e ++ [EvRelease; EvCall req; EvAcquire]) = [req]
                    /\ calls_in (e ++ [EvRelease; EvCall req; EvAcquire]) = 1%nat).
      { destruct e as [| [] [| ? ?]]; try discriminate; repeat split. }
      destruct He' as (Hp & Hr & Hc).
      destruct c.
      * exists l1, (e ++ [EvRelease; EvCall req; EvAcquire])%list.
        rewrite <- app_assoc. simpl.
        split; [reflexivity |]. split; [exact Hp |].
        rewrite Hr, Hc. split; [reflexivity | lia].
      * rewrite (HC eq_refl) in *.
        match type of E with _ = (_, ?x) => set (w1 := x) in * end.
        destruct (IH (bump l) w1) as (l2 & t & E2 & Hp2 & Hr2 & Hc2).
        { unfold bump; simpl. lia. }
        exists l2, (t ++ e ++ [EvRelease; EvCall req; EvAcquire])%list.
        rewrite E2. unfold w1; simpl. rewrite <- !app_assoc. simpl.
        split; [reflexivity |]. split.
        { rewrite permit_free_app by exact Hp2. exact Hp. }
        rewrite requests_in_app, calls_in_app, Hr, Hc, Hr2.
        split.
        { rewrite repeat_app. reflexivity. }
        unfold bump in Hc2; simpl in Hc2. lia.
    + exists l, []. rewrite retry_loop_exit by lia. destruct w; simpl.
      repeat split; lia.
Qed.

End Frame.

(** ** The course of a run *)

Lemma backoff_S rc n : backoff rc (S n) = 15 * (rc + 1) :: backoff (rc + 1) n.
Proof.
  unfold backoff. cbn [seq map]. rewrite <- seq_shift, List.map_map.
  f_equal. apply map_ext. intros i. lia.
Qed.

Lemma after_call_bump l o r :
  after_call (bump l) o = Returned r -> after_call l o = Returned r.
Proof.
  unfold after_call. destruct o as [res | cls].
  - destruct (truthy (extract_content res)); [| discriminate].
    destruct (as_str (extract_content res)); auto.
  - destruct cls; auto; discriminate.
Qed.

(** An outcome that is not transient ends the loop: with the answer, or
    with the locals as they were. *)
Lemma attempt_final complete req l w :
  transient (complete (calls_made w) req) = false ->
  exists l' w',
    attempt complete req l w = (Ok (l', Break), w')
    /\ after_call l (complete (calls_made w) req) = Returned (response l', success l')
    /\ calls_made w' = S (calls_made w)
    /\ sleeps_in (trace w') = sleeps_in (trace w).
Proof.
  intros Ht. rewrite attempt_run. unfold after_call.
  destruct (complete (calls_made w) req) as [res | cls]; simpl in Ht.
  - apply negb_false_iff in Ht. cbn zeta. rewrite Ht.
    destruct (extract_content res); simpl;
      eexists _, _; (split; [reflexivity |]); repeat split.
  - destruct cls; try discriminate;
      eexists _, _; (split; [reflexivity |]); repeat split.
Qed.

Section Shape.

Variable complete : service.
Variable req : request.
Variable attempts : Z.

(** The loop runs through some number [n] of transient failures, pausing
    after each, and then either the attempts are used up or the next
    outcome, which is not transient, decides the result. *)
Lemma retry_loop_shape fuel : forall l w,
  (Z.to_nat (attempts - retry_counter l) <= fuel)%nat ->
  exists n l' w',
    retry_loop complete fuel req attempts l w = (Ok l', w')
    /\ (forall i, (i < n)%nat ->
           transient (complete (calls_made w + i)%nat req) = true)
    /\ sleeps_in (trace w') = (sleeps_in (trace w) ++ backoff (retry_counter l) n)%list
    /\ ((n = Z.to_nat (attempts - retry_counter l)
         /\ response l' = response l /\ success l' = success l
         /\ calls_made w' = (calls_made w + n)%nat)
        \/ ((n < Z.to_nat (attempts - retry_counter l))%nat
            /\ transient (complete (calls_made w + n)%nat req) = false
            /\ after_call l (complete (calls_made w + n)%nat req)
               = Returned (response l', success l')
            /\ calls_made w' = (calls_made w + n + 1)%nat)).
Proof.
  induction fuel as [| fuel IH]; intros l w Hf.
  - exists O, l, w. rewrite retry_loop_exit by lia.
    split; [reflexivity |]. split; [intros i Hi; lia |].
    split; [simpl; rewrite app_nil_r; reflexivity |].
    left. repeat split; lia.
  - destruct (Z.lt_ge_cases (retry_counter l) attempts) as [Hlt | Hge].
    + destruct (transient (complete (calls_made w) req)) eqn:Ht.
      * assert (E := attempt_transient complete req l w Ht).
        rewrite (retry_loop_S _ _ _ _ _ _ _ _ _ Hlt E).
        match type of E with _ = (_, ?x) => set (w1 := x) in * end.
        destruct (IH (bump l) w1) as (n & l' & w' & E2 & Hall & Hs & Hend).
        { unfold bump; simpl. lia. }
        assert (Hc1 : calls_made w1 = S (calls_made w)) by reflexivity.
        assert (Hs1 : sleeps_in (trace w1)
                      = (sleeps_in (trace w) ++ [15 * (retry_counter l + 1)])%list)
          by reflexivity.
        exists (S n), l', w'. split; [exact E2 |]. split; [| split].
        { intros i Hi. destruct i as [| i].
          - rewrite Nat.add_0_r. exact Ht.
          - replace (calls_made w + S i)%nat with (calls_made w1 + i)%nat
              by (rewrite Hc1; lia).
            apply Hall. lia. }
        { rewrite Hs, Hs1, backoff_S, <- app_assoc. reflexivity. }
        unfold bump in Hend; cbn [retry_counter response success] in Hend.
        rewrite Hc1 in Hend.
        destruct Hend as [(Hn & Hr & Hsu & Hc) | (Hn & Hnt & Hac & Hc)].
        { left. repeat split; try assumption; lia. }
        right.
        replace (calls_made w + S n)%nat with (S (calls_made w) + n)%nat by lia.
        split; [lia |]. split; [exact Hnt |]. split; [| lia].
        apply after_call_bump. exact Hac.
      * destruct (attempt_final complete req l w Ht) as (l' & w' & E & Hac & Hc & Hs).
        rewrite (retry_loop_S _ _ _ _ _ _ _ _ _ Hlt E).
        exists O, l', w'. split; [reflexivity |].
        split; [intros i Hi; lia |].
        split; [rewrite Hs; simpl; rewrite app_nil_r; reflexivity |].
        right. rewrite Nat.add_0_r. split; [lia |].
        split; [exact Ht |]. split; [exact Hac | lia].
    + exists O, l, w. rewrite retry_loop_exit by lia.
      split; [reflexivity |]. split; [intros i Hi; lia |].
      split; [simpl; rewrite app_nil_r; reflexivity |].
      left. repeat split; lia.
Qed.

End Shape.

(** [invokeLLM] touches nothing but the trace: the database, the files
    and the standard input are as they were.  In what it adds to the trace
    every request stands between the taking and the giving back of a
    permit, the pauses and the diagnostics come with no permit held, and
    no permit is held when it returns, whatever the service did. *)
Theorem invokeLLM_gives_every_permit_back
  complete _prompt _format _temperature attempts w :
  exists r t,
    invokeLLM complete _prompt _format _temperature attempts w =
      (Ok r, mk_world (db w) (files w) (stdin w) (t ++ trace w))
    /\ permit_free t = true.
Proof.
  unfold invokeLLM.
  destruct (retry_loop_frame complete (request_of _prompt _format _temperature)
              attempts (Z.to_nat attempts) (mk_locals "" false 0) w)
    as (l' & t & E & Hp & _).
  { simpl. rewrite Z.sub_0_r. lia. }
  exists (response l', success l'), t.
  unfold mbind, M_bind, bind. rewrite E. split; [reflexivity | exact Hp].
Qed.

(** [invokeLLM] sends no more requests than [attempts], each of them the
    same: the model [mistral-large-latest], the given temperature, the
    prompt and the format.  With [attempts] zero or negative it sends none
    and returns the empty text and [False] at once. *)
Theorem invokeLLM_call_budget complete _prompt _format _temperature attempts w :
  exists r w',
    invokeLLM complete _prompt _format _temperature attempts w = (Ok r, w')
    /\ (calls_made w' <= calls_made w + Z.to_nat attempts)%nat
    /\ requests_in (trace w')
       = (repeat (request_of _prompt _format _temperature)
            (calls_made w' - calls_made w) ++ requests_in (trace w))%list
    /\ (attempts <= 0 -> r = ("", false) /\ w' = w).
Proof.
  unfold invokeLLM.
  set (req := request_of _prompt _format _temperature).
  destruct (retry_loop_frame complete req attempts (Z.to_nat attempts)
              (mk_locals "" false 0) w)
    as (l' & t & E & _ & Hr & Hc).
  { simpl. rewrite Z.sub_0_r. lia. }
  simpl in Hc. rewrite Z.sub_0_r in Hc.
  eexists _, _. unfold mbind, M_bind, bind. rewrite E.
  split; [reflexivity |].
  unfold calls_made. cbn [trace]. rewrite calls_in_app, requests_in_app, Hr.
  split; [lia |]. split.
  - replace (calls_in t + calls_in (trace w) - calls_in (trace w))%nat
      with (calls_in t) by lia.
    reflexivity.
  - intros Ha.
    rewrite retry_loop_exit in E by (simpl; lia).
    injection E as <- Hw. split; [reflexivity |].
    destruct w; simpl in *. rewrite Hw. reflexivity.
Qed.

(** [invokeLLM] reports success only for an answer: when it returns
    [True], some call returned a response whose content is a non-empty
    string, every call before it failed transiently, there was no call
    after it, and the text returned is that content with the white space
    around it stripped. *)
Theorem invokeLLM_success_is_an_answer
  complete _prompt _format _temperature attempts w text w' :
  invokeLLM complete _prompt _format _temperature attempts w = (Ok (text, true), w') ->
  exists k res s,
    Z.of_nat k < attempts
    /\ (forall i, (i < k)%nat ->
          transient (complete (calls_made w + i)%nat
                       (request_of _prompt _format _temperature)) = true)
    /\ complete (calls_made w + k)%nat (request_of _prompt _format _temperature)
       = Returns res
    /\ extract_content res = VStr s
    /\ s <> ""
    /\ text = PyStr.strip s
    /\ calls_made w' = (calls_made w + k + 1)%nat.
Proof.
  unfold invokeLLM.
  set (req := request_of _prompt _format _temperature).
  destruct (retry_loop_shape complete req attempts (Z.to_nat attempts)
              (mk_locals "" false 0) w)
    as (n & l' & w1 & E & Hall & _ & Hend).
  { simpl. rewrite Z.sub_0_r. lia. }
  unfold mbind, M_bind, bind. rewrite E. intros H. injection H as Hr Hs <-.
  cbn [retry_counter response success] in Hend. rewrite Z.sub_0_r in Hend.
  destruct Hend as [(_ & _ & Hf & _) | (Hn & _ & Hac & Hc)]; [congruence |].
  unfold after_call in Hac.
  destruct (complete (calls_made w + n)%nat req) as [res | cls] eqn:Ho.
  - destruct (truthy (extract_content res)) eqn:Ht; [| discriminate].
    destruct (extract_content res) as [| b | z | s | l | d | attrs] eqn:Hx;
      simpl in Hac; try (injection Hac as _ Hac; congruence).
    exists n, res, s. split; [lia |]. split; [exact Hall |].
    split; [exact Ho |]. split; [exact Hx |].
    split; [intros ->; discriminate |].
    split; [| exact Hc]. injection Hac as Hac _. congruence.
  - destruct cls; try discriminate; injection Hac as _ Hac; congruence.
Qed.

(** A service that fails twice and then answers: the third call is the
    answer. *)
Lemma invokeLLM_success_is_an_answer_witness :
  exists k res s,
    Z.of_nat k < 5
    /\ (forall i, (i < k)%nat ->
          transient (Fixtures.first_then 2 (Raises SDKError)
                       (Returns (Fixtures.reply (VStr " ciao ")))
                       (calls_made Fixtures.w0 + i)%nat Fixtures.req0) = true)
    /\ Fixtures.first_then 2 (Raises SDKError) (Returns (Fixtures.reply (VStr " ciao ")))
         (calls_made Fixtures.w0 + k)%nat Fixtures.req0 = Returns res
    /\ extract_content res = VStr s
    /\ s <> ""
    /\ "ciao" = PyStr.strip s
    /\ calls_made
         (snd (invokeLLM (Fixtures.first_then 2 (Raises SDKError)
                            (Returns (Fixtures.reply (VStr " ciao "))))
                 "p" "text" "0.7" 5 Fixtures.w0))
       = (calls_made Fixtures.w0 + k + 1)%nat.
Proof.
  apply (invokeLLM_success_is_an_answer
           (Fixtures.first_then 2 (Raises SDKError)
              (Returns (Fixtures.reply (VStr " ciao "))))
           "p" "text" "0.7" 5 Fixtures.w0 "ciao").
  vm_compute. reflexivity.
Defined.

(** The pauses of a run: [invokeLLM] pauses once after each transient
    failure and at no other time, the i-th pause lasting 0.15 s times i.
    With [n] transient failures in a row, either [n] is the number of
    attempts, there were [n] calls and the result is the empty text with
    [False] (so the last failed attempt is followed by a pause too), or
    the call after them is not transient and is the last one. *)
Theorem invokeLLM_pauses complete _prompt _format _temperature attempts w :
  exists r w' n,
    invokeLLM complete _prompt _format _temperature attempts w = (Ok r, w')
    /\ sleeps_in (trace w')
       = (sleeps_in (trace w) ++ map (fun i => 15 * Z.of_nat i) (seq 1 n))%list
    /\ (forall i, (i < n)%nat ->
          transient (complete (calls_made w + i)%nat
                       (request_of _prompt _format _temperature)) = true)
    /\ ((n = Z.to_nat attempts
         /\ r = ("", false)
         /\ calls_made w' = (calls_made w + n)%nat)
        \/ ((n < Z.to_nat attempts)%nat
            /\ transient (complete (calls_made w + n)%nat
                            (request_of _prompt _format _temperature)) = false
            /\ calls_made w' = (calls_made w + n + 1)%nat)).
Proof.
  unfold invokeLLM.
  set (req := request_of _prompt _format _temperature).
  destruct (retry_loop_shape complete req attempts (Z.to_nat attempts)
              (mk_locals "" false 0) w)
    as (n & l' & w' & E & Hall & Hs & Hend).
  { simpl. rewrite Z.sub_0_r. lia. }
  cbn [retry_counter response success] in Hs, Hend. rewrite Z.sub_0_r in Hend.
  exists (response l', success l'), w', n.
  unfold mbind, M_bind, bind. rewrite E.
  split; [reflexivity |]. split; [exact Hs |]. split; [exact Hall |].
  destruct Hend as [(Hn & Hr & Hsu & Hc) | (Hn & Hnt & _ & Hc)].
  - left. rewrite Hr, Hsu. auto.
  - right. auto.
Qed.

(** Content that is true and is no string (a list of chunks, a number, a
    mapping) has no [strip]: the [AttributeError] is caught as an
    unexpected error, so the run ends after that call with a diagnostic,
    the empty text and [False], without a retry. *)
Theorem non_text_content_is_a_failure
  complete _prompt _format _temperature attempts w res :
  1 <= attempts ->
  complete (calls_made w) (request_of _prompt _format _temperature) = Returns res ->
  truthy (extract_content res) = true ->
  (forall s, extract_content res <> VStr s) ->
  invokeLLM complete _prompt _format _temperature attempts w =
    (Ok ("", false),
     log (EvPrint [FStr "Unexpected error occurred: "; FExn (Error AttributeError)])
       (after_request (request_of _prompt _format _temperature) w)).
Proof.
  intros Ha Hres Ht Hns. unfold invokeLLM.
  set (req := request_of _prompt _format _temperature) in *.
  set (l0 := mk_locals "" false 0).
  assert (E : attempt complete req l0 w =
              (Ok (l0, Break),
               log (EvPrint [FStr "Unexpected error occurred: "; FExn (Error AttributeError)])
                 (after_request req w))).
  { rewrite attempt_run, Hres. cbn zeta. rewrite Ht.
    destruct (extract_content res); try reflexivity.
    exfalso. exact (Hns _ eq_refl). }
  assert (Hlt : retry_counter l0 < attempts) by (unfold l0; simpl; lia).
  destruct (Z.to_nat attempts) as [| fuel] eqn:Hfuel; [lia |].
  unfold mbind, M_bind, bind.
  rewrite (retry_loop_S complete req attempts fuel l0 w _ _ _ Hlt E). reflexivity.
Qed.

(** A response whose content is a list of chunks. *)
Lemma non_text_content_is_a_failure_witness :
  invokeLLM (Fixtures.always (Returns (Fixtures.reply (VList [VStr "ciao"]))))
    "p" "text" "0.7" 5 Fixtures.w0 =
    (Ok ("", false),
     log (EvPrint [FStr "Unexpected error occurred: "; FExn (Error AttributeError)])
       (after_request (request_of "p" "text" "0.7") Fixtures.w0)).
Proof.
  apply (non_text_content_is_a_failure
           (Fixtures.always (Returns (Fixtures.reply (VList [VStr "ciao"]))))
           "p" "text" "0.7" 5 Fixtures.w0 (Fixtures.reply (VList [VStr "ciao"]))).
  - lia.
  - reflexivity.
  - reflexivity.
  - intros s. vm_compute. discriminate.
Defined.

(** ** Threads: no deadlock, no endless retrying *)

Lemma none_in_call c ts :
  existsb any_in_call ts = false -> List.filter (in_call c) ts = [].
Proof.
  induction ts as [| t ts IH]; [reflexivity |].
  simpl. intros H. apply orb_false_iff in H as [Ht Hts].
  unfold in_call at 1. unfold any_in_call in Ht. rewrite Ht, andb_false_r.
  apply IH, Hts.
Qed.

Lemma balanced_can_step ts s t :
  balanced ts s -> In t (threads s) -> running t = true -> exists s', step s s'.
Proof.
  intros [Hb _] Hin Hrun. destruct s as [p ths]. simpl in Hin.
  destruct (existsb any_in_call ths) eqn:E.
  - apply existsb_exists in E as (t' & Hin' & Hany).
    apply in_split in Hin' as (ts1 & ts2 & ->).
    destruct t' as [c a st]. unfold any_in_call in Hany. simpl in Hany.
    destruct st as [l | l | r]; try discriminate.
    eexists. apply (step_release p ts1 ts2 c a l (Raises SDKError)).
  - assert (Hany : any_in_call t = false).
    { destruct (any_in_call t) eqn:Ht; [| reflexivity].
      assert (existsb any_in_call ths = true)
        by (apply existsb_exists; exists t; auto).
      congruence. }
    destruct t as [c a st]. unfold any_in_call in Hany. unfold running in Hrun.
    simpl in Hany, Hrun. destruct st as [l | l | r]; try discriminate.
    specialize (Hb c). unfold in_flight in Hb. simpl in Hb.
    rewrite (none_in_call c ths E) in Hb. simpl in Hb.
    unfold llmSemaphore_permits in Hb.
    apply in_split in Hin as (ts1 & ts2 & ->).
    destruct (Z_lt_dec (retry_counter l) a) as [Hlt | Hge].
    + eexists. apply (step_acquire p ts1 ts2 c a l Hlt). lia.
    + eexists. apply (step_exit p ts1 ts2 c a l Hge).
Qed.

(** No deadlock: however the callers have interleaved so far, as long as
    some thread has not returned from [invokeLLM] some thread can take a
    step (a request in flight can end, or a thread at the loop test finds
    a permit free or leaves the loop). *)
Theorem running_thread_can_step ts s t :
  Forall is_caller ts ->
  reachable (initial ts) s ->
  In t (threads s) ->
  running t = true ->
  exists s', step s s'.
Proof.
  intros H Hr Hin Hrun.
  exact (balanced_can_step ts s t (balanced_reachable ts s H Hr) Hin Hrun).
Qed.

(** Seven callers on one client, none of which has started. *)
Lemma running_thread_can_step_witness :
  exists s', step (initial Fixtures.seven_callers) s'.
Proof.
  apply (running_thread_can_step Fixtures.seven_callers
           (initial Fixtures.seven_callers) (caller 0 5)).
  - repeat constructor; exists 0%nat, 5; reflexivity.
  - apply reach_refl.
  - simpl. left. reflexivity.
  - reflexivity.
Defined.

Lemma work_left_total_split p ts1 t ts2 :
  work_left_total (mk_system p (ts1 ++ t :: ts2)) =
  (list_sum (map work_left ts1) + work_left t + list_sum (map work_left ts2))%nat.
Proof.
  unfold work_left_total. simpl. rewrite map_app, list_sum_app. simpl. lia.
Qed.

Lemma entered_replace ts1 t t' ts2 :
  Forall entered (ts1 ++ t :: ts2) -> entered t' -> Forall entered (ts1 ++ t' :: ts2).
Proof.
  intros H Ht'. apply Forall_app in H as [H1 H2].
  apply Forall_app. split; [exact H1 |].
  apply Forall_cons_iff in H2 as [_ H2]. apply Forall_cons_iff. auto.
Qed.

(** Every step uses up some of the work that is left. *)
Lemma work_left_step s s' :
  Forall entered (threads s) -> step s s' ->
  Forall entered (threads s') /\ (work_left_total s' < work_left_total s)%nat.
Proof.
  intros He Hs.
  destruct Hs as [p ts1 ts2 c a l Hlt Hp | p ts1 ts2 c a l o | p ts1 ts2 c a l Hge];
    simpl in He; rewrite !work_left_total_split; cbn [threads].
  - split; [apply (entered_replace _ _ _ _ He); exact Hlt |].
    unfold work_left; simpl. lia.
  - assert (Hl : retry_counter l < a).
    { apply Forall_app in He as [_ He]. apply Forall_cons_iff in He as [He _].
      exact He. }
    assert (Hw : (work_left (mk_thread c a (after_call l o))
                  < work_left (mk_thread c a (InCall l)))%nat).
    { unfold work_left; simpl. destruct (after_call l o) as [l' | l' | r] eqn:E.
      - assert (l' = bump l).
        { unfold after_call in E. destruct o as [res | cls].
          - destruct (truthy (extract_content res)); [| congruence].
            destruct (as_str (extract_content res)); discriminate.
          - destruct cls; try discriminate; congruence. }
        subst l'. unfold bump; simpl. lia.
      - exfalso. exact (after_call_not_in_call l o _ E).
      - lia. }
    split; [| lia].
    apply (entered_replace _ _ _ _ He). unfold entered; simpl.
    destruct (after_call l o) eqn:E; try exact I.
    exfalso. exact (after_call_not_in_call l o _ E).
  - split; [apply (entered_replace _ _ _ _ He); exact I |].
    unfold work_left; simpl. lia.
Qed.

Lemma steps_use_work n s0 s :
  Forall entered (threads s0) -> steps n s0 s ->
  Forall entered (threads s) /\ (n + work_left_total s <= work_left_total s0)%nat.
Proof.
  intros He Hs. induction Hs as [s | n s s' s'' _ IH Hstep].
  - split; [exact He | lia].
  - destruct (IH He) as [He' Hle].
    destruct (work_left_step s' s'' He' Hstep) as [He'' Hlt].
    split; [exact He'' | lia].
Qed.

Lemma callers_entered ts : Forall is_caller ts -> Forall entered ts.
Proof.
  intros H. induction H as [| t ts (c & a & ->) _ IH]; constructor; [exact I | exact IH].
Qed.

Lemma callers_work_left ts :
  Forall is_caller ts ->
  list_sum (map work_left ts)
  = list_sum (map (fun t => (2 * Z.to_nat (th_attempts t) + 1)%nat) ts).
Proof.
  intros H. induction H as [| t ts (c & a & ->) _ IH]; [reflexivity |].
  change (work_left (caller c a) + list_sum (map work_left ts)
          = 2 * Z.to_nat a + 1
            + list_sum (map (fun t => 2 * Z.to_nat (th_attempts t) + 1) ts))%nat.
  rewrite IH. unfold work_left, caller. cbn [th_pc th_attempts retry_counter].
  rewrite Z.sub_0_r. reflexivity.
Qed.

(** No thread retries for ever: when each request to the service ends, a
    run of any number of concurrent callers, however they interleave, has
    no more steps than two for each attempt of each caller (taking the
    permit, ending the request) and one more for each caller (leaving the
    loop). *)
Theorem every_run_is_bounded ts n s :
  Forall is_caller ts ->
  steps n (initial ts) s ->
  (n <= list_sum (map (fun t => (2 * Z.to_nat (th_attempts t) + 1)%nat) ts))%nat.
Proof.
  intros H Hs.
  destruct (steps_use_work n (initial ts) s (callers_entered ts H) Hs) as [_ Hle].
  unfold work_left_total at 2 in Hle. simpl in Hle.
  rewrite (callers_work_left ts H) in Hle. lia.
Qed.

(** Seven callers with five attempts each: a run of one step, and the
    bound of 77 steps. *)
Lemma every_run_is_bounded_witness :
  (1 <= list_sum (map (fun t => (2 * Z.to_nat (th_attempts t) + 1)%nat)
                    Fixtures.seven_callers))%nat.
Proof.
  apply (every_run_is_bounded Fixtures.seven_callers 1
           (mk_system (set_permits (fun _ => llmSemaphore_permits) 0
                         (llmSemaphore_permits - 1)%nat)
              ([] ++ mk_thread 0 5 (InCall (mk_locals "" false 0))
                  :: repeat (caller 0 5) 6))).
  - repeat constructor; exists 0%nat, 5; reflexivity.
  - eapply steps_S; [apply steps_O |].
    apply (step_acquire (fun _ => llmSemaphore_permits) [] (repeat (caller 0 5) 6)
             0%nat 5 (mk_locals "" false 0)).
    + simpl. lia.
    + unfold llmSemaphore_permits. lia.
Defined.

(** A call of [invokeLLM] as its callers see it: a pair comes back, the
    trace has grown, and with five attempts there were one to five
    requests. *)
Lemma invokeLLM_frame_calls complete _prompt _format _temperature attempts w :
  exists r t,
    invokeLLM complete _prompt _format _temperature attempts w =
      (Ok r, mk_world (db w) (files w) (stdin w) (t ++ trace w))
    /\ (calls_in t <= Z.to_nat attempts)%nat
    /\ (1 <= attempts -> (1 <= calls_in t)%nat).
Proof.
  unfold invokeLLM.
  set (req := request_of _prompt _format _temperature).
  destruct (retry_loop_frame complete req attempts (Z.to_nat attempts)
              (mk_locals "" false 0) w)
    as (l' & t & E & _ & _ & Hc).
  { simpl. rewrite Z.sub_0_r. lia. }
  destruct (retry_loop_shape complete req attempts (Z.to_nat attempts)
              (mk_locals "" false 0) w)
    as (n & l2 & w2 & E2 & _ & _ & Hend).
  { simpl. rewrite Z.sub_0_r. lia. }
  simpl in Hc, Hend. rewrite Z.sub_0_r in Hc, Hend.
  rewrite E in E2. injection E2 as _ Hw.
  exists (response l', success l'), t.
  unfold mbind, M_bind, bind. rewrite E.
  split; [reflexivity |]. split; [exact Hc |].
  intros Ha. subst w2. unfold calls_made in Hend. cbn [trace] in Hend.
  rewrite calls_in_app in Hend.
  destruct Hend as [(Hn & _ & _ & Hcalls) | (_ & _ & _ & Hcalls)]; lia.
Qed.

End MistralExtra.

(* ===================================================================== *)
(** * More on the generation pipeline *)
(* ===================================================================== *)

Module BuilderExtra.
Import Py Sys Builder BuilderProofs.

(** ** Invariants of the tables *)

Lemma select_word_id_has s lemma i :
  select_word_id lemma s = Some i -> has_word_id s i.
Proof.
  unfold select_word_id. destruct (List.find _ (words s)) as [r |] eqn:E; [| discriminate].
  intros H. injection H as <-. apply find_some in E. exists r. tauto.
Qed.

Section Invariant.

(** A property of the tables that the two statements of [insert_terms]
    keep. *)
Variable P : store -> Prop.
Hypothesis P_word : forall s lemma, P s -> P (insert_or_ignore_word lemma "n" s).
Hypothesis P_form : forall s i form pos,
  P s -> has_word_id s i -> P (insert_or_replace_derived i form pos "morphological" s).

Lemma insert_forms_preserves i : forall forms w s,
  db w = Some s -> P s -> has_word_id s i ->
  exists s',
    insert_forms i forms w = (Ok tt, set_db s' w) /\ P s' /\ has_word_id s' i.
Proof.
  induction forms as [| [pos form] rest IH]; intros w s Hdb HP Hi.
  - exists s. simpl. unfold mret, M_ret, ret. destruct w; simpl in *. subst. auto.
  - simpl. unfold mbind, M_bind, bind. destruct (is_form form).
    + rewrite (execute_run _ _ _ Hdb).
      set (s1 := insert_or_replace_derived i form pos "morphological" s).
      destruct (IH (set_db s1 w) s1 eq_refl) as (s' & E & HP' & Hi').
      { apply P_form; assumption. }
      { destruct Hi as (r & Hr & Hid). exists r. split; [exact Hr | exact Hid]. }
      exists s'. rewrite E. auto.
    + simpl. apply (IH w s); assumption.
Qed.

Lemma insert_terms_preserves : forall terms w s,
  db w = Some s -> P s ->
  exists s', insert_terms terms w = (Ok tt, set_db s' w) /\ P s'.
Proof.
  induction terms as [| [lemma forms] rest IH]; intros w s Hdb HP.
  - exists s. simpl. unfold mret, M_ret, ret. destruct w; simpl in *. subst. auto.
  - simpl. unfold mbind, M_bind, bind.
    rewrite (execute_run _ _ _ Hdb).
    set (s1 := insert_or_ignore_word lemma "n" s).
    destruct (insert_or_ignore_word_spec lemma "n" s) as (_ & _ & _ & (i & Hi)).
    fold s1 in Hi.
    rewrite (query_run _ (set_db s1 w) s1 eq_refl), Hi.
    destruct (insert_forms_preserves i forms (set_db s1 w) s1 eq_refl)
      as (s2 & E2 & HP2 & _).
    { apply P_word, HP. }
    { exact (select_word_id_has _ _ _ Hi). }
    rewrite E2.
    destruct (IH (set_db s2 (set_db s1 w)) s2 eq_refl HP2) as (s3 & E3 & HP3).
    exists s3. rewrite E3. auto.
Qed.

End Invariant.

Lemma NoDup_snoc {A : Type} (l : list A) (x : A) :
  List.NoDup l -> ~ In x l -> List.NoDup (l ++ [x]).
Proof.
  intros Hl Hx. apply List.NoDup_app; [exact Hl | |].
  - apply List.NoDup_cons; [intros [] | apply List.NoDup_nil].
  - intros a Ha [<- | []]. exact (Hx Ha).
Qed.

Lemma next_id_fresh {R : Type} (seq : Z) (id : R -> Z) (rows : list R) :
  ~ In (next_id seq id rows) (map id rows).
Proof.
  intros H. apply in_map_iff in H as (r & Hr & Hin).
  pose proof (max_id_ge id rows r Hin). unfold next_id in Hr. lia.
Qed.

Lemma has_word_id_app s s' ws i :
  words s' = (words s ++ ws)%list -> has_word_id s i -> has_word_id s' i.
Proof.
  intros Hw (r & Hr & Hi). exists r. split; [| exact Hi].
  rewrite Hw. apply in_or_app. left. exact Hr.
Qed.

Lemma sound_insert_or_ignore_word s lemma pos :
  sound s -> sound (insert_or_ignore_word lemma pos s).
Proof.
  intros (Hl & Hi & Hd & Hf). unfold insert_or_ignore_word.
  destruct (existsb _ (words s)) eqn:E; [repeat split; assumption |].
  unfold sound. simpl. rewrite !map_app. simpl.
  split; [| split; [| split]].
  - apply NoDup_snoc; [exact Hl |].
    intros Hin. apply in_map_iff in Hin as (r & Hr & Hin).
    assert (existsb (fun r => String.eqb (w_lemma r) lemma) (words s) = true).
    { apply existsb_exists. exists r. split; [exact Hin |].
      rewrite Hr. apply String.eqb_refl. }
    congruence.
  - apply NoDup_snoc; [exact Hi | apply next_id_fresh].
  - exact Hd.
  - intros r Hr. destruct (Hf r Hr) as (wr & Hwr & Hid).
    exists wr. split; [apply in_or_app; left; exact Hwr | exact Hid].
Qed.

Lemma sound_insert_or_replace_derived s i form pos rel :
  sound s -> has_word_id s i -> sound (insert_or_replace_derived i form pos rel s).
Proof.
  intros (Hl & Hi & Hd & Hf) Hhas.
  destruct (insert_or_replace_appends i form pos rel s) as [Ed Ew].
  unfold sound, has_word_id. rewrite Ed, Ew, map_app. simpl.
  split; [exact Hl |]. split; [exact Hi |]. split.
  - apply NoDup_snoc; [exact Hd | apply next_id_fresh].
  - intros r Hr. apply in_app_or in Hr. destruct Hr as [Hr | [<- | []]].
    + exact (Hf r Hr).
    + exact Hhas.
Qed.

Lemma extends_refl s : extends s s.
Proof. split; exists []; rewrite app_nil_r; reflexivity. Qed.

Lemma extends_insert_or_ignore_word s0 s lemma pos :
  extends s0 s -> extends s0 (insert_or_ignore_word lemma pos s).
Proof.
  intros [(ws & Hw) (added & Hd)].
  destruct (insert_or_ignore_word_spec lemma pos s) as ((ws1 & Hw1) & Hd1 & _).
  split.
  - exists (ws ++ ws1)%list. rewrite Hw1, Hw, app_assoc. reflexivity.
  - exists added. rewrite Hd1. exact Hd.
Qed.

Lemma extends_insert_or_replace_derived s0 s i form pos rel :
  extends s0 s -> extends s0 (insert_or_replace_derived i form pos rel s).
Proof.
  intros [(ws & Hw) (added & Hd)].
  destruct (insert_or_replace_appends i form pos rel s) as [Ed Ew].
  split.
  - exists ws. rewrite Ew. exact Hw.
  - eexists. rewrite Ed, Hd, <- app_assoc. reflexivity.
Qed.

(** [insert_terms] keeps the tables as the schema asks them to be: if no
    lemma and no id occurs twice and every row of [derived_forms] refers
    to a row of [words], the same holds afterwards.  In particular it
    stores no derived form under an id that [words] does not have, though
    SQLite would let it. *)
Theorem insert_terms_keeps_the_tables_sound terms w s :
  db w = Some s ->
  sound s ->
  exists s', insert_terms terms w = (Ok tt, set_db s' w) /\ sound s'.
Proof.
  intros Hdb Hs.
  apply (insert_terms_preserves sound) with (s := s); try assumption.
  - intros s1 lemma. apply sound_insert_or_ignore_word.
  - intros s1 i form pos. apply sound_insert_or_replace_derived.
Qed.

(** The terms of a second run on the database with casa. *)
Lemma insert_terms_keeps_the_tables_sound_witness :
  exists s',
    insert_terms Fixtures.casa_again Fixtures.casa_world
      = (Ok tt, set_db s' Fixtures.casa_world)
    /\ sound s'.
Proof.
  apply (insert_terms_keeps_the_tables_sound Fixtures.casa_again Fixtures.casa_world
           Fixtures.casa_store).
  - reflexivity.
  - unfold sound, Fixtures.casa_store. simpl.
    split; [| split; [| split]].
    + apply List.NoDup_cons; [intros [] | apply List.NoDup_nil].
    + apply List.NoDup_cons; [intros [] | apply List.NoDup_nil].
    + apply List.NoDup_cons; [intros [] | apply List.NoDup_nil].
    + intros r [<- | []]. exists (mk_word 1 "casa" "n"). simpl. auto.
Defined.

(** ** process_chunk and main *)

Lemma entry_forms_shape paisa_set entry :
  match entry_forms paisa_set entry with
  | Ok forms => map fst forms = ["a"; "v"; "r"]
  | Raise e => is_Exception e = true
  | OutOfFuel => False
  end.
Proof.
  destruct entry; try reflexivity. simpl.
  destruct (dict_has d "morpho"); [| reflexivity].
  unfold py_get, py_get_default, mbind, result_bind, rbind.
  destruct (py_or _ _); try reflexivity.
  destruct (validate paisa_set (match dict_get d0 "v" with Some x => x | None => VStr NA end))
    as [v | e |] eqn:Ev.
  - destruct (validate paisa_set (match dict_get d0 "a" with Some x => x | None => VStr NA end))
      as [a | e |] eqn:Ea.
    + destruct (validate paisa_set (match dict_get d0 "r" with Some x => x | None => VStr NA end))
        as [r | e |] eqn:Er; [reflexivity | |].
      * destruct (match dict_get d0 "r" with Some x => x | None => VStr NA end);
          simpl in Er; try discriminate; injection Er as <-; reflexivity.
      * destruct (match dict_get d0 "r" with Some x => x | None => VStr NA end);
          simpl in Er; discriminate.
    + destruct (match dict_get d0 "a" with Some x => x | None => VStr NA end);
        simpl in Ea; try discriminate; injection Ea as <-; reflexivity.
    + destruct (match dict_get d0 "a" with Some x => x | None => VStr NA end);
        simpl in Ea; discriminate.
  - destruct (match dict_get d0 "v" with Some x => x | None => VStr NA end);
      simpl in Ev; try discriminate; injection Ev as <-; reflexivity.
  - destruct (match dict_get d0 "v" with Some x => x | None => VStr NA end);
      simpl in Ev; discriminate.
Qed.

Lemma fill_terms_shape paisa_set : forall items acc,
  shaped acc ->
  shaped (fst (fill_terms paisa_set items acc))
  /\ match snd (fill_terms paisa_set items acc) with
     | Ok _ => True
     | Raise e => is_Exception e = true
     | OutOfFuel => False
     end.
Proof.
  induction items as [| [noun entry] rest IH]; intros acc Hacc; simpl.
  - split; [exact Hacc | exact I].
  - pose proof (entry_forms_shape paisa_set entry) as He.
    destruct (entry_forms paisa_set entry) as [forms | e |]; simpl.
    + apply IH. destruct Hacc as [Hnd Hsh]. split.
      * apply CleanupProofs.dict_set_nodup, Hnd.
      * intros n f Hin. destruct (dict_set_in _ _ _ _ _ Hin) as [Heq | Hin'].
        -- injection Heq as -> ->. exact He.
        -- exact (Hsh n f Hin').
    + split; [exact Hacc | exact He].
    + destruct He.
Qed.

Lemma shaped_nil : shaped [].
Proof. split; [apply List.NoDup_nil | intros n f []]. Qed.

Section Run.

Variable complete : Mistral.service.
Variable json_loads : string -> option pyval.

Lemma parse_response_shape paisa_set text :
  shaped (fst (parse_response json_loads paisa_set text))
  /\ match snd (parse_response json_loads paisa_set text) with
     | Ok _ => True
     | Raise e => is_Exception e = true
     | OutOfFuel => False
     end.
Proof.
  unfold parse_response.
  destruct (json_loads text) as [[| | | | | items |] |];
    try (split; [apply shaped_nil | reflexivity]).
  apply fill_terms_shape, shaped_nil.
Qed.

(** [process_chunk] always returns: a mapping with one entry for each
    noun it kept, after one to five requests, with nothing but the trace
    changed. *)
Lemma process_chunk_run chunk i paisa_set w :
  exists terms t,
    process_chunk complete json_loads chunk i paisa_set w =
      (Ok terms, mk_world (db w) (files w) (stdin w) (t ++ trace w))
    /\ (1 <= calls_in t <= 5)%nat
    /\ shaped terms.
Proof.
  unfold process_chunk, print, emit, mbind, M_bind, bind.
  destruct (MistralExtra.invokeLLM_frame_calls complete
              (format_prompt (PyStr.join nl chunk)) "json_object" "0.7" 5
              (log (EvPrint [FStr "Processing chunk "; FVal (VInt i); FStr ": ";
                             FVal (VList (map VStr chunk))]) w))
    as (r & t & E & Hle & Hge).
  rewrite E. specialize (Hge ltac:(lia)).
  destruct (parse_response_shape paisa_set (fst r)) as [Hsh Hres].
  destruct (snd (parse_response json_loads paisa_set (fst r))) as [u | e |].
  - eexists _, (t ++ [_])%list. unfold mret, M_ret, ret. cbn [log db files stdin trace].
    rewrite <- app_assoc. split; [reflexivity |].
    rewrite MistralExtra.calls_in_app. simpl. split; [lia | exact Hsh].
  - rewrite Hres. eexists _, (_ :: t ++ [_])%list.
    unfold mret, M_ret, ret. cbn [log db files stdin trace].
    rewrite <- app_comm_cons, <- app_assoc. split; [reflexivity |].
    cbn [calls_in]. rewrite MistralExtra.calls_in_app. simpl. split; [lia | exact Hsh].
  - destruct Hres.
Qed.

Section Loop.

Variable P : store -> Prop.
Hypothesis P_word : forall s lemma, P s -> P (insert_or_ignore_word lemma "n" s).
Hypothesis P_form : forall s i form pos,
  P s -> has_word_id s i -> P (insert_or_replace_derived i form pos "morphological" s).

Lemma chunks_loop_preserves word_list paisa_set chunk_size : forall indices w s,
  db w = Some s -> P s ->
  exists w' s',
    chunks_loop complete json_loads word_list paisa_set chunk_size indices w = (Ok tt, w')
    /\ db w' = Some s' /\ P s'
    /\ files w' = files w /\ stdin w' = stdin w
    /\ (calls_made w + length indices <= calls_made w'
        <= calls_made w + 5 * length indices)%nat.
Proof.
  induction indices as [| i rest IH]; intros w s Hdb HP.
  - exists w, s. simpl. repeat split; auto; lia.
  - cbn [chunks_loop]. unfold mbind, M_bind, bind.
    destruct (process_chunk_run (list_slice word_list i (i + chunk_size)) i paisa_set w)
      as (terms & t & E & Hcalls & _).
    rewrite E.
    match type of E with _ = (_, ?x) => set (w1 := x) in * end.
    assert (Hdb1 : db w1 = Some s) by exact Hdb.
    assert (Hins : exists s2,
               (match terms with [] => mret tt | _ => insert_terms terms end) w1
               = (Ok tt, set_db s2 w1) /\ P s2).
    { destruct terms as [| lf terms'].
      - exists s. split; [| exact HP].
        unfold mret, M_ret, ret, set_db, w1. simpl. rewrite Hdb. reflexivity.
      - apply (insert_terms_preserves P P_word P_form) with (s := s); assumption. }
    destruct Hins as (s2 & E2 & HP2). rewrite E2.
    destruct (IH (set_db s2 w1) s2 eq_refl HP2)
      as (w' & s' & E3 & Hdb' & HP' & Hf & Hi & Hc).
    exists w', s'. split; [exact E3 |]. split; [exact Hdb' |]. split; [exact HP' |].
    split; [exact Hf |]. split; [exact Hi |].
    assert (Hc1 : calls_made (set_db s2 w1) = (calls_in t + calls_made w)%nat).
    { unfold calls_made, w1. simpl. apply MistralExtra.calls_in_app. }
    rewrite Hc1 in Hc. simpl length. lia.
Qed.

End Loop.

(** [process_chunk] never raises and never touches the database, the
    files or the standard input, whatever the service answers and whatever
    the decoder makes of it: it returns a mapping (empty when the response
    could not be read) after at least one and at most five requests.  The
    mapping has each noun once, each with exactly the slots [a], [v] and
    [r], in this order. *)
Theorem process_chunk_never_raises chunk i paisa_set w :
  exists terms w',
    process_chunk complete json_loads chunk i paisa_set w = (Ok terms, w')
    /\ db w' = db w /\ files w' = files w /\ stdin w' = stdin w
    /\ (calls_made w + 1 <= calls_made w' <= calls_made w + 5)%nat
    /\ List.NoDup (dict_keys terms)
    /\ (forall noun forms, In (noun, forms) terms -> map fst forms = ["a"; "v"; "r"]).
Proof.
  destruct (process_chunk_run chunk i paisa_set w) as (terms & t & E & Hc & Hnd & Hsh).
  eexists terms, _. split; [exact E |].
  unfold calls_made. cbn [db files stdin trace].
  rewrite MistralExtra.calls_in_app.
  repeat split; auto; lia.
Qed.

(** [main], from the vocabulary and the nouns on, runs to its end
    whatever the service answers, unless the chunk size is zero.  The
    texts of an answer are those of this model, strings of characters
    that SQLite stores as they are; a decoded answer with a noun that has
    a lone surrogate in it, which the [INSERT] of line 171 refuses with
    [UnicodeEncodeError], is not among them and is not covered.
    With a chunk size other than zero it returns normally:
    the database exists, the rows it had are still there, row for row, at
    the head of the two tables; tables that were sound are sound; the
    files and the standard input are untouched; and each chunk took one to
    five requests.  With a chunk size of zero [range] raises [ValueError]:
    the tables have been created and no request has been sent. *)
Theorem main_runs_to_the_end paisa_set word_list start chunk_size w :
  (chunk_size <> 0 ->
   exists w' s' indices,
     py_range start (Z.of_nat (length word_list)) chunk_size = Ok indices
     /\ main complete json_loads paisa_set word_list start chunk_size w = (Ok tt, w')
     /\ db w' = Some s'
     /\ extends (store_of w) s'
     /\ (sound (store_of w) -> sound s')
     /\ files w' = files w /\ stdin w' = stdin w
     /\ (calls_made w + length indices <= calls_made w'
         <= calls_made w + 5 * length indices)%nat)
  /\ (chunk_size = 0 ->
      exists w',
        main complete json_loads paisa_set word_list start chunk_size w
          = (Raise (Error ValueError), w')
        /\ db w' = Some (store_of w)
        /\ calls_made w' = calls_made w).
Proof.
  set (w1 := log (EvPrint [FStr "Number of nouns: ";
                           FVal (VInt (Z.of_nat (length word_list)))])
               (log (EvPrint [FStr "Loading paisa set and building word list..."])
                  (set_db (store_of w) w))).
  assert (Hpre : forall k : list Z -> M unit,
             (ensure_db;; print [FStr "Loading paisa set and building word list..."];;
              print [FStr "Number of nouns: "; FVal (VInt (Z.of_nat (length word_list)))];;
              indices ← lift (py_range start (Z.of_nat (length word_list)) chunk_size);
              k indices) w
             = match py_range start (Z.of_nat (length word_list)) chunk_size with
               | Ok indices => k indices w1
               | Raise e => (Raise e, w1)
               | OutOfFuel => (OutOfFuel, w1)
               end).
  { intros k. unfold mbind, M_bind, bind, ensure_db, print, emit, lift, w1, store_of.
    destruct w as [[s |] f i t]; simpl;
      destruct (py_range start (Z.of_nat (length word_list)) chunk_size); reflexivity. }
  split.
  - intros Hne. unfold main. rewrite Hpre.
    assert (Hr : exists indices,
               py_range start (Z.of_nat (length word_list)) chunk_size = Ok indices).
    { unfold py_range. rewrite (proj2 (Z.eqb_neq _ _) Hne).
      destruct (0 <? chunk_size); eauto. }
    destruct Hr as (indices & Hr). rewrite Hr.
    destruct (chunks_loop_preserves
                (fun s => extends (store_of w) s /\ (sound (store_of w) -> sound s)))
      with (word_list := word_list) (paisa_set := paisa_set) (chunk_size := chunk_size)
           (indices := indices) (w := w1) (s := store_of w)
      as (w' & s' & E & Hdb & [Hext Hsound] & Hf & Hi & Hc).
    + intros s0 lemma [He Hs]. split.
      * apply extends_insert_or_ignore_word, He.
      * intros H0. apply sound_insert_or_ignore_word, Hs, H0.
    + intros s0 i form pos [He Hs] Hhas. split.
      * apply extends_insert_or_replace_derived, He.
      * intros H0. apply sound_insert_or_replace_derived; [exact (Hs H0) | exact Hhas].
    + reflexivity.
    + split; [apply extends_refl | auto].
    + exists w', s', indices. split; [reflexivity |]. split; [exact E |].
      split; [exact Hdb |]. split; [exact Hext |]. split; [exact Hsound |].
      split; [exact Hf |]. split; [exact Hi |]. exact Hc.
  - intros ->. unfold main. rewrite Hpre. unfold py_range. simpl.
    exists w1. repeat split.
Qed.

End Run.

(** ** Responses that cannot be read, in whole or in part *)

(** A slot that the mapping under [morpho] does not have is the sentinel. *)
Lemma entry_forms_missing_slot paisa_set d m slot forms :
  dict_get d "morpho" = Some (VDict m) ->
  In slot ["a"; "v"; "r"] ->
  dict_get m slot = None ->
  entry_forms paisa_set (VDict d) = Ok forms ->
  In (slot, NA) forms.
Proof.
  intros Hmorpho Hslot Hnone Hforms. destruct m as [| b m'].
  - unfold entry_forms, dict_has in Hforms. rewrite Hmorpho in Hforms.
    cbn in Hforms. rewrite Hmorpho in Hforms. cbn in Hforms.
    injection Hforms as <-.
    simpl in Hslot. destruct Hslot as [<- | [<- | [<- | []]]]; simpl; auto.
  - assert (Hm : b :: m' <> []) by discriminate.
    destruct (entry_forms_morpho paisa_set d (b :: m') forms Hmorpho Hm Hforms)
      as (a & v & r & Ha & Hv & Hr & ->).
    simpl in Hslot. destruct Hslot as [<- | [<- | [<- | []]]].
    + rewrite Hnone in Ha. injection Ha as <-. left. reflexivity.
    + rewrite Hnone in Hv. injection Hv as <-. right. left. reflexivity.
    + rewrite Hnone in Hr. injection Hr as <-. right. right. left. reflexivity.
Qed.

Lemma entry_forms_bare paisa_set entry :
  bare entry -> entry_forms paisa_set entry = Ok [("a", NA); ("v", NA); ("r", NA)].
Proof.
  destruct entry; try reflexivity. simpl. intros ->. reflexivity.
Qed.

(** What the loop leaves in [terms] comes from the entries it went over. *)
Lemma fill_terms_from paisa_set k forms : forall items acc,
  In (k, forms) (fst (fill_terms paisa_set items acc)) ->
  In k (map fst items) \/ In (k, forms) acc.
Proof.
  induction items as [| [n0 e0] items IH]; intros acc H; [right; exact H |].
  simpl in H |- *. destruct (entry_forms paisa_set e0) as [f0 | e1 |].
  - destruct (IH _ H) as [H1 | H1]; [left; right; exact H1 |].
    destruct (dict_set_in _ _ _ _ _ H1) as [Heq | H2].
    + left. left. congruence.
    + right. exact H2.
  - right. exact H.
  - right. exact H.
Qed.

(** The rows [insert_terms] adds to [words] are rows of the lemmas of
    [terms]. *)
Lemma insert_terms_new_words : forall terms w s,
  db w = Some s ->
  exists s',
    insert_terms terms w = (Ok tt, set_db s' w)
    /\ forall r, In r (words s') -> In r (words s) \/ In (w_lemma r) (dict_keys terms).
Proof.
  induction terms as [| [lemma forms] rest IH]; intros w s Hdb.
  - exists s. simpl. unfold mret, M_ret, ret. destruct w; simpl in *. subst. auto.
  - simpl. unfold mbind, M_bind, bind.
    rewrite (execute_run _ _ _ Hdb).
    set (s1 := insert_or_ignore_word lemma "n" s).
    assert (H1 : forall r, In r (words s1) -> In r (words s) \/ w_lemma r = lemma).
    { intros r. unfold s1, insert_or_ignore_word. cbv zeta.
      destruct (existsb _ (words s)); simpl; [auto |].
      intros Hr. apply in_app_or in Hr as [Hr | [<- | []]]; auto. }
    destruct (insert_or_ignore_word_spec lemma "n" s) as (_ & _ & _ & (i & Hi)).
    fold s1 in Hi.
    rewrite (query_run _ (set_db s1 w) s1 eq_refl), Hi.
    destruct (insert_forms_preserves (fun s' => words s' = words s1))
      with (i := i) (forms := forms) (w := set_db s1 w) (s := s1)
      as (s2 & E2 & Hw2 & _).
    + intros s0 i0 form pos H0 _. exact H0.
    + reflexivity.
    + reflexivity.
    + exact (select_word_id_has _ _ _ Hi).
    + rewrite E2.
      destruct (IH (set_db s2 (set_db s1 w)) s2 eq_refl) as (s3 & E3 & H3).
      exists s3. rewrite E3. split; [reflexivity |].
      intros r Hr. destruct (H3 r Hr) as [Hr2 | Hr2]; [| right; right; exact Hr2].
      rewrite Hw2 in Hr2. destruct (H1 r Hr2) as [Hr1 | Hr1]; [left; exact Hr1 |].
      right. left. symmetry. exact Hr1.
Qed.

Section Malformed.

Variable complete : Mistral.service.
Variable json_loads : string -> option pyval.

(** [process_chunk] once the call has returned: the terms the loop
    gathered, and the diagnostic when the reading ended in an exception. *)
Lemma process_chunk_after_call chunk i paisa_set w text ok w1 :
  Mistral.invokeLLM complete (format_prompt (PyStr.join nl chunk)) "json_object" "0.7" 5
    (log (EvPrint [FStr "Processing chunk "; FVal (VInt i); FStr ": ";
                   FVal (VList (map VStr chunk))]) w)
  = (Ok (text, ok), w1) ->
  process_chunk complete json_loads chunk i paisa_set w =
  match snd (parse_response json_loads paisa_set text) with
  | Ok _ => (Ok (fst (parse_response json_loads paisa_set text)), w1)
  | Raise e =>
      if is_Exception e then
        (Ok (fst (parse_response json_loads paisa_set text)),
         log (EvPrint [FStr "Failed to parse JSON response for chunk:"; FStr " ";
                       FVal (VList (map VStr chunk))]) w1)
      else (Raise e, w1)
  | OutOfFuel => (OutOfFuel, w1)
  end.
Proof.
  intros E. unfold process_chunk, print, emit, mbind, M_bind, bind.
  rewrite E. cbn [fst snd].
  destruct (snd (parse_response json_loads paisa_set text)) as [u | e |];
    try reflexivity.
  destruct (is_Exception e); reflexivity.
Qed.

(** What the loop of [main] does with the terms of a chunk: it inserts
    them and goes on with the next chunk.  Every lemma of the terms has a
    row of [words] then, no other row has been added, and nothing has been
    printed. *)
Lemma chunks_loop_after_chunk word_list paisa_set chunk_size i rest w terms w1 s :
  process_chunk complete json_loads (list_slice word_list i (i + chunk_size)) i paisa_set w
  = (Ok terms, w1) ->
  db w1 = Some s ->
  exists s2,
    chunks_loop complete json_loads word_list paisa_set chunk_size (i :: rest) w
    = chunks_loop complete json_loads word_list paisa_set chunk_size rest (set_db s2 w1)
    /\ extends s s2
    /\ (forall r, In r (words s2) -> In r (words s) \/ In (w_lemma r) (dict_keys terms))
    /\ (forall lemma forms, In (lemma, forms) terms ->
                            exists lemma_id, select_word_id lemma s2 = Some lemma_id).
Proof.
  intros E Hdb. cbn [chunks_loop]. unfold mbind, M_bind, bind at 1. rewrite E.
  destruct terms as [| lf terms'].
  - exists s. split; [| split; [apply extends_refl | split]].
    + unfold mbind, M_bind, bind, mret, M_ret, ret.
      replace (set_db s w1) with w1 by (destruct w1; simpl in *; subst; reflexivity).
      reflexivity.
    + auto.
    + intros lemma forms [].
  - destruct (insert_terms_new_words (lf :: terms') w1 s Hdb) as (s2 & E2 & Hnew).
    destruct (insert_terms_run (lf :: terms') w1 s Hdb)
      as (w' & s' & ws & added & E' & Hdb' & Hw & Hd & _ & _ & Hids).
    assert (s' = s2).
    { rewrite E' in E2. injection E2 as ->. simpl in Hdb'. congruence. }
    subst s'. exists s2. split; [| split; [| split]].
    + unfold mbind, M_bind, bind. rewrite E2. reflexivity.
    + split; eauto.
    + exact Hnew.
    + exact Hids.
Qed.

(** C4 (as the code has it): when the text that comes back is no JSON, or
    decodes to something that is no mapping, [process_chunk] prints its
    diagnostic and returns no terms; the loop of [main] then inserts
    nothing for the chunk, the database is as it was, and the loop goes on
    with the next chunk.  Missing keys are no such failure.  When the text
    decodes to a mapping all of whose entries can be read, no diagnostic
    is printed ([process_chunk] leaves the world as the call left it), an
    entry without [morpho] has the sentinel in its three slots, a slot
    missing under [morpho] has the sentinel, and the loop of [main] gives
    the word of every entry a row of [words], prints nothing, and goes on
    with the next chunk. *)
Theorem undecodable_response_skips_chunk
  paisa_set word_list chunk_size i rest w :
  let chunk := list_slice word_list i (i + chunk_size) in
  let announced :=
    log (EvPrint [FStr "Processing chunk "; FVal (VInt i); FStr ": ";
                  FVal (VList (map VStr chunk))]) w in
  exists text ok w1,
    Mistral.invokeLLM complete (format_prompt (PyStr.join nl chunk))
      "json_object" "0.7" 5 announced = (Ok (text, ok), w1)
    /\ ((json_loads text = None
         \/ exists v, json_loads text = Some v /\ is_dict v = false) ->
        let skipped :=
          log (EvPrint [FStr "Failed to parse JSON response for chunk:"; FStr " ";
                        FVal (VList (map VStr chunk))]) w1 in
        process_chunk complete json_loads chunk i paisa_set w = (Ok [], skipped)
        /\ db skipped = db w
        /\ chunks_loop complete json_loads word_list paisa_set chunk_size (i :: rest) w
           = chunks_loop complete json_loads word_list paisa_set chunk_size rest skipped)
    /\ (forall items,
          json_loads text = Some (VDict items) ->
          List.NoDup (map fst items) ->
          Forall (fun it => exists forms, entry_forms paisa_set (snd it) = Ok forms) items ->
          exists terms,
            process_chunk complete json_loads chunk i paisa_set w = (Ok terms, w1)
            /\ (forall noun entry,
                  In (noun, entry) items -> bare entry ->
                  In (noun, [("a", NA); ("v", NA); ("r", NA)]) terms)
            /\ (forall noun d m slot,
                  In (noun, VDict d) items ->
                  dict_get d "morpho" = Some (VDict m) ->
                  In slot ["a"; "v"; "r"] ->
                  dict_get m slot = None ->
                  exists forms, In (noun, forms) terms /\ In (slot, NA) forms)
            /\ (forall s,
                  db w = Some s ->
                  exists s2,
                    chunks_loop complete json_loads word_list paisa_set chunk_size
                      (i :: rest) w
                    = chunks_loop complete json_loads word_list paisa_set chunk_size
                        rest (set_db s2 w1)
                    /\ forall noun entry,
                         In (noun, entry) items ->
                         exists lemma_id, select_word_id noun s2 = Some lemma_id)).
Proof.
  intros chunk announced.
  destruct (MistralProofs.invokeLLM_returns complete
              (format_prompt (PyStr.join nl chunk)) "json_object" "0.7" 5 announced)
    as (text & ok & w1 & E & Hdb).
  exists text, ok, w1. split; [exact E |].
  pose proof (process_chunk_after_call chunk i paisa_set w text ok w1 E) as Hrun.
  split.
  - intros Hbad skipped.
    assert (Hparse : parse_response json_loads paisa_set text
                     = ([], Raise (Error JSONDecodeError))
                     \/ parse_response json_loads paisa_set text
                        = ([], Raise (Error AttributeError))).
    { unfold parse_response. destruct Hbad as [-> | (v & -> & Hv)]; [left; reflexivity |].
      right. destruct v; try reflexivity. discriminate Hv. }
    assert (Hrun' : process_chunk complete json_loads chunk i paisa_set w
                    = (Ok [], skipped)).
    { rewrite Hrun. destruct Hparse as [-> | ->]; reflexivity. }
    split; [exact Hrun' |]. split; [exact Hdb |].
    cbn [chunks_loop]. fold chunk. unfold mbind, M_bind, bind at 1.
    rewrite Hrun'. reflexivity.
  - intros items Hj Hnd Hok.
    assert (Hparse : parse_response json_loads paisa_set text
                     = fill_terms paisa_set items []).
    { unfold parse_response. rewrite Hj. reflexivity. }
    assert (Hsnd : snd (fill_terms paisa_set items []) = Ok tt)
      by (apply fill_terms_all_ok, Hok).
    destruct (fill_terms paisa_set items []) as [terms r] eqn:Hfill.
    simpl in Hsnd. subst r.
    rewrite Hparse in Hrun. cbn [fst snd] in Hrun.
    exists terms. split; [exact Hrun |].
    assert (Hall : forall noun entry, In (noun, entry) items ->
               exists forms, entry_forms paisa_set entry = Ok forms
                             /\ In (noun, forms) terms).
    { intros noun entry Hin.
      exact (fill_terms_complete paisa_set items [] terms noun entry Hfill Hnd Hin). }
    split; [| split].
    + intros noun entry Hin Hbare.
      destruct (Hall noun entry Hin) as (forms & Hf & Ht).
      rewrite (entry_forms_bare paisa_set entry Hbare) in Hf. injection Hf as <-.
      exact Ht.
    + intros noun d m slot Hin Hmorpho Hslot Hnone.
      destruct (Hall noun (VDict d) Hin) as (forms & Hf & Ht).
      exists forms. split; [exact Ht |].
      exact (entry_forms_missing_slot paisa_set d m slot forms Hmorpho Hslot Hnone Hf).
    + intros s Hs.
      assert (Hdb1 : db w1 = Some s) by (rewrite Hdb; exact Hs).
      destruct (chunks_loop_after_chunk word_list paisa_set chunk_size i rest w terms w1 s
                  Hrun Hdb1) as (s2 & Eloop & _ & _ & Hids).
      exists s2. split; [exact Eloop |].
      intros noun entry Hin. destruct (Hall noun entry Hin) as (forms & _ & Ht).
      exact (Hids noun forms Ht).
Qed.

(** A response is read entry by entry, and the first entry that raises
    (a [morpho] that is no mapping, a form that is a list or a mapping)
    ends the reading.  [process_chunk] then prints its diagnostic and
    returns the terms of the entries before that one, and the loop of
    [main] inserts them: every word before the failing entry has its row
    of [words], and a row that was not there before belongs to one of
    those words, so the failing entry and the entries after it leave
    nothing. *)
Theorem first_bad_entry_cuts_the_terms paisa_set word_list chunk_size i rest w :
  let chunk := list_slice word_list i (i + chunk_size) in
  let announced :=
    log (EvPrint [FStr "Processing chunk "; FVal (VInt i); FStr ": ";
                  FVal (VList (map VStr chunk))]) w in
  exists text ok w1,
    Mistral.invokeLLM complete (format_prompt (PyStr.join nl chunk))
      "json_object" "0.7" 5 announced = (Ok (text, ok), w1)
    /\ forall before noun entry after e,
         json_loads text = Some (VDict (before ++ (noun, entry) :: after)) ->
         List.NoDup (map fst before) ->
         Forall (fun it => exists forms, entry_forms paisa_set (snd it) = Ok forms) before ->
         entry_forms paisa_set entry = Raise e ->
         let failed :=
           log (EvPrint [FStr "Failed to parse JSON response for chunk:"; FStr " ";
                         FVal (VList (map VStr chunk))]) w1 in
         process_chunk complete json_loads chunk i paisa_set w
         = (Ok (fst (fill_terms paisa_set before [])), failed)
         /\ forall s,
              db w = Some s ->
              exists s2,
                chunks_loop complete json_loads word_list paisa_set chunk_size
                  (i :: rest) w
                = chunks_loop complete json_loads word_list paisa_set chunk_size
                    rest (set_db s2 failed)
                /\ (forall k entry0,
                      In (k, entry0) before ->
                      exists lemma_id, select_word_id k s2 = Some lemma_id)
                /\ (forall r,
                      In r (words s2) ->
                      In r (words s) \/ In (w_lemma r) (map fst before)).
Proof.
  intros chunk announced.
  destruct (MistralProofs.invokeLLM_returns complete
              (format_prompt (PyStr.join nl chunk)) "json_object" "0.7" 5 announced)
    as (text & ok & w1 & E & Hdb).
  exists text, ok, w1. split; [exact E |].
  intros before noun entry after e Hj Hnd Hok Hbad failed.
  pose proof (process_chunk_after_call chunk i paisa_set w text ok w1 E) as Hrun.
  assert (Hparse : parse_response json_loads paisa_set text
                   = (fst (fill_terms paisa_set before []), Raise e)).
  { unfold parse_response. rewrite Hj.
    rewrite (fill_terms_app paisa_set before _ [] (fill_terms_all_ok _ _ _ Hok)).
    simpl. rewrite Hbad. reflexivity. }
  assert (He : is_Exception e = true).
  { pose proof (entry_forms_shape paisa_set entry) as H. rewrite Hbad in H. exact H. }
  rewrite Hparse in Hrun. cbn [fst snd] in Hrun. rewrite He in Hrun.
  split; [exact Hrun |].
  intros s Hs.
  assert (Hdb1 : db failed = Some s) by (unfold failed; simpl; rewrite Hdb; exact Hs).
  destruct (chunks_loop_after_chunk word_list paisa_set chunk_size i rest w _ failed s
              Hrun Hdb1) as (s2 & Eloop & _ & Hnew & Hids).
  exists s2. split; [exact Eloop |]. split.
  - intros k entry0 Hin.
    pose proof (fill_terms_all_ok paisa_set before [] Hok) as Hsnd.
    destruct (fill_terms paisa_set before []) as [terms r] eqn:Hfill.
    simpl in Hsnd. subst r.
    destruct (fill_terms_complete paisa_set before [] terms k entry0 Hfill Hnd Hin)
      as (forms & _ & Ht).
    exact (Hids k forms Ht).
  - intros r Hr. destruct (Hnew r Hr) as [H | H]; [left; exact H |].
    right. unfold dict_keys in H. apply in_map_iff in H as ([k forms] & <- & Hin).
    destruct (fill_terms_from paisa_set k forms before [] Hin) as [Hk | []].
    exact Hk.
Qed.

End Malformed.

(** The service answers with a text that is no JSON, and the chunk is
    passed over with the database still empty; it answers with an entry
    for casa that has no [morpho], and casa gets its row with no
    diagnostic. *)
Lemma undecodable_response_skips_chunk_witness :
  (exists w1,
      process_chunk (Fixtures.always (Mistral.Returns (Fixtures.reply (VStr "boh"))))
        Fixtures.bare_loads ["casa"] 0 Fixtures.paisa Fixtures.empty_world
      = (Ok [],
         log (EvPrint [FStr "Failed to parse JSON response for chunk:"; FStr " ";
                       FVal (VList [VStr "casa"])]) w1)
      /\ db w1 = Some Fixtures.empty_store)
  /\ (exists terms w1 s2,
        process_chunk
          (Fixtures.always (Mistral.Returns (Fixtures.reply (VStr Fixtures.bare_text))))
          Fixtures.bare_loads ["casa"] 0 Fixtures.paisa Fixtures.empty_world
        = (Ok terms, w1)
        /\ In ("casa", [("a", NA); ("v", NA); ("r", NA)]) terms
        /\ console w1
           = [[FStr "Processing chunk "; FVal (VInt 0); FStr ": ";
               FVal (VList [VStr "casa"])]]
        /\ chunks_loop
             (Fixtures.always (Mistral.Returns (Fixtures.reply (VStr Fixtures.bare_text))))
             Fixtures.bare_loads ["casa"] Fixtures.paisa 5 [0] Fixtures.empty_world
           = (Ok tt, set_db s2 w1)
        /\ exists lemma_id, select_word_id "casa" s2 = Some lemma_id).
Proof.
  split.
  - destruct (undecodable_response_skips_chunk
                (Fixtures.always (Mistral.Returns (Fixtures.reply (VStr "boh"))))
                Fixtures.bare_loads Fixtures.paisa ["casa"] 5 0 [] Fixtures.empty_world)
      as (text & ok & w1 & E & H & _).
    assert (Htext : text = "boh").
    { vm_compute in E. injection E as <- _ _. reflexivity. }
    subst text. destruct (H (or_introl eq_refl)) as (Hrun & Hdb & _).
    exists w1. split; [exact Hrun | exact Hdb].
  - destruct (undecodable_response_skips_chunk
                (Fixtures.always (Mistral.Returns (Fixtures.reply (VStr Fixtures.bare_text))))
                Fixtures.bare_loads Fixtures.paisa ["casa"] 5 0 [] Fixtures.empty_world)
      as (text & ok & w1 & E & _ & H).
    assert (Hw : text = Fixtures.bare_text
                 /\ console w1
                    = [[FStr "Processing chunk "; FVal (VInt 0); FStr ": ";
                        FVal (VList [VStr "casa"])]]).
    { vm_compute in E. injection E as <- _ <-. split; reflexivity. }
    destruct Hw as [-> Hconsole].
    destruct (H [("casa", VDict [])]) as (terms & Hrun & Hbare & _ & Hloop).
    + reflexivity.
    + constructor; [simpl; tauto | constructor].
    + apply List.Forall_cons; [| apply List.Forall_nil]. eexists. reflexivity.
    + destruct (Hloop Fixtures.empty_store eq_refl) as (s2 & Eloop & Hids).
      exists terms, w1, s2. split; [exact Hrun |].
      split; [apply (Hbare "casa" (VDict [])); [left; reflexivity | reflexivity] |].
      split; [exact Hconsole |]. split; [exact Eloop |].
      apply (Hids "casa" (VDict [])). left. reflexivity.
Defined.

(** The answer whose second entry has a list under [morpho]: the terms of
    gatto are returned and inserted, casa is lost. *)
Lemma first_bad_entry_cuts_the_terms_witness :
  exists w1 s2,
    process_chunk
      (Fixtures.always (Mistral.Returns (Fixtures.reply (VStr Fixtures.broken_text))))
      Fixtures.broken_loads ["gatto"; "casa"] 0 {[ "felino" ]} Fixtures.empty_world
    = (Ok [("gatto", [("a", "felino"); ("v", "N/A"); ("r", "N/A")])],
       log (EvPrint [FStr "Failed to parse JSON response for chunk:"; FStr " ";
                     FVal (VList [VStr "gatto"; VStr "casa"])]) w1)
    /\ chunks_loop
         (Fixtures.always (Mistral.Returns (Fixtures.reply (VStr Fixtures.broken_text))))
         Fixtures.broken_loads ["gatto"; "casa"] {[ "felino" ]} 5 [0] Fixtures.empty_world
       = (Ok tt,
          set_db s2
            (log (EvPrint [FStr "Failed to parse JSON response for chunk:"; FStr " ";
                           FVal (VList [VStr "gatto"; VStr "casa"])]) w1))
    /\ (exists lemma_id, select_word_id "gatto" s2 = Some lemma_id)
    /\ (forall r, In r (words s2) -> w_lemma r = "gatto").
Proof.
  destruct (first_bad_entry_cuts_the_terms
              (Fixtures.always (Mistral.Returns (Fixtures.reply (VStr Fixtures.broken_text))))
              Fixtures.broken_loads {[ "felino" ]} ["gatto"; "casa"] 5 0 []
              Fixtures.empty_world)
    as (text & ok & w1 & E & H).
  assert (Htext : text = Fixtures.broken_text).
  { vm_compute in E. injection E as <- _ _. reflexivity. }
  subst text.
  destruct (H [("gatto", VDict [("morpho", VDict [("a", VStr "felino")])])]
              "casa" (VDict [("morpho", VList [VInt 1])]) [] (Error AttributeError))
    as (Hrun & Hloop).
  - reflexivity.
  - constructor; [simpl; tauto | constructor].
  - apply List.Forall_cons; [| apply List.Forall_nil]. eexists. vm_compute. reflexivity.
  - reflexivity.
  - destruct (Hloop Fixtures.empty_store eq_refl) as (s2 & Eloop & Hids & Hnew).
    exists w1, s2. split; [exact Hrun |]. split; [exact Eloop |]. split.
    + apply (Hids "gatto" (VDict [("morpho", VDict [("a", VStr "felino")])])).
      left. reflexivity.
    + intros r Hr. destruct (Hnew r Hr) as [[] | [Hk | []]]. symmetry. exact Hk.
Defined.

(** ** What insert_terms adds *)

Lemma length_terms_payload s terms :
  (forall lemma forms, In (lemma, forms) terms ->
                       exists i, select_word_id lemma s = Some i) ->
  length (terms_payload s terms) = stored_count terms.
Proof.
  unfold terms_payload, stored_count.
  induction terms as [| [lemma forms] rest IH]; intros H; [reflexivity |].
  cbn [flat_map map fst snd]. rewrite List.length_app.
  change (list_sum (?x :: ?l)) with (x + list_sum l)%nat.
  rewrite IH by (intros l f Hin; apply (H l f); right; exact Hin).
  destruct (H lemma forms (or_introl eq_refl)) as (i & ->).
  unfold forms_payload. rewrite length_map. reflexivity.
Qed.

(** [insert_terms] adds to [derived_forms] exactly one row for each form
    of [terms] that is neither empty nor the sentinel, whatever the table
    holds already; the rows that were there stay at its head. *)
Theorem insert_terms_row_count terms w s :
  db w = Some s ->
  exists w' s' added,
    insert_terms terms w = (Ok tt, w')
    /\ db w' = Some s'
    /\ derived_forms s' = (derived_forms s ++ added)%list
    /\ length added = stored_count terms.
Proof.
  intros Hdb.
  destruct (insert_terms_run terms w s Hdb)
    as (w' & s' & ws & added & E & Hdb' & _ & Hd & Hp & _ & Hids).
  exists w', s', added. split; [exact E |]. split; [exact Hdb' |].
  split; [exact Hd |].
  rewrite <- (length_map payload), Hp. apply length_terms_payload, Hids.
Qed.

(** Two stored forms and a sentinel for casa: two rows more. *)
Lemma insert_terms_row_count_witness :
  exists w' s' added,
    insert_terms [("casa", [("a", "casereccio"); ("v", "accasare"); ("r", "N/A")])]
      Fixtures.casa_world = (Ok tt, w')
    /\ db w' = Some s'
    /\ derived_forms s' = (derived_forms Fixtures.casa_store ++ added)%list
    /\ length added = 2%nat.
Proof.
  apply (insert_terms_row_count
           [("casa", [("a", "casereccio"); ("v", "accasare"); ("r", "N/A")])]
           Fixtures.casa_world Fixtures.casa_store).
  reflexivity.
Defined.

Lemma select_some_existsb lemma s i :
  select_word_id lemma s = Some i ->
  existsb (fun r => String.eqb (w_lemma r) lemma) (words s) = true.
Proof.
  unfold select_word_id.
  destruct (List.find _ (words s)) as [r |] eqn:E; [| discriminate].
  intros _. apply find_some in E. apply existsb_exists. exists r. exact E.
Qed.

(** When every lemma of [terms] has its row, [insert_terms] leaves
    [words] alone. *)
Lemma insert_terms_known : forall terms w s,
  db w = Some s ->
  (forall lemma forms, In (lemma, forms) terms ->
                       exists i, select_word_id lemma s = Some i) ->
  exists s', insert_terms terms w = (Ok tt, set_db s' w) /\ words s' = words s.
Proof.
  induction terms as [| [lemma forms] rest IH]; intros w s Hdb Hids.
  - exists s. simpl. unfold mret, M_ret, ret. destruct w; simpl in *. subst. auto.
  - simpl. unfold mbind, M_bind, bind.
    rewrite (execute_run _ _ _ Hdb).
    destruct (Hids lemma forms (or_introl eq_refl)) as (i & Hi).
    set (s1 := insert_or_ignore_word lemma "n" s).
    assert (Hsame : words s1 = words s).
    { unfold s1, insert_or_ignore_word. cbv zeta.
      rewrite (select_some_existsb _ _ _ Hi). reflexivity. }
    assert (Hi1 : select_word_id lemma s1 = Some i).
    { unfold select_word_id in *. rewrite Hsame. exact Hi. }
    rewrite (query_run _ (set_db s1 w) s1 eq_refl), Hi1.
    destruct (insert_forms_preserves (fun s' => words s' = words s))
      with (i := i) (forms := forms) (w := set_db s1 w) (s := s1)
      as (s2 & E2 & Hw2 & _).
    + intros s0 i0 form pos H0 _. exact H0.
    + reflexivity.
    + exact Hsame.
    + exact (select_word_id_has _ _ _ Hi1).
    + rewrite E2.
      destruct (IH (set_db s2 (set_db s1 w)) s2 eq_refl) as (s3 & E3 & Hw3).
      { intros l f Hin. destruct (Hids l f (or_intror Hin)) as (j & Hj).
        exists j. unfold select_word_id in *. rewrite Hw2. exact Hj. }
      exists s3. rewrite E3. split; [reflexivity | congruence].
Qed.

Lemma terms_payload_same_words s s' terms :
  words s' = words s -> terms_payload s' terms = terms_payload s terms.
Proof.
  intros Hw. unfold terms_payload, select_word_id. rewrite Hw. reflexivity.
Qed.

(** Running [insert_terms] a second time with the same terms adds no
    word, and stores every form once more: the rows the second run adds to
    [derived_forms] say what the rows of the first run say, under new
    ids. *)
Theorem rerun_stores_every_form_again terms w s :
  db w = Some s ->
  exists w1 s1 w2 s2 added1 added2,
    insert_terms terms w = (Ok tt, w1) /\ db w1 = Some s1
    /\ insert_terms terms w1 = (Ok tt, w2) /\ db w2 = Some s2
    /\ words s2 = words s1
    /\ derived_forms s1 = (derived_forms s ++ added1)%list
    /\ derived_forms s2 = (derived_forms s1 ++ added2)%list
    /\ map payload added2 = map payload added1.
Proof.
  intros Hdb.
  destruct (insert_terms_run terms w s Hdb)
    as (w1 & s1 & ws1 & added1 & E1 & Hdb1 & _ & Hd1 & Hp1 & _ & Hids1).
  destruct (insert_terms_run terms w1 s1 Hdb1)
    as (w2 & s2 & ws2 & added2 & E2 & Hdb2 & _ & Hd2 & Hp2 & _ & _).
  destruct (insert_terms_known terms w1 s1 Hdb1 Hids1) as (s2' & E2' & Hw2).
  assert (s2' = s2).
  { rewrite E2 in E2'. injection E2' as ->. simpl in Hdb2. congruence. }
  subst s2'.
  exists w1, s1, w2, s2, added1, added2.
  repeat (split; [assumption |]).
  rewrite Hp2, Hp1. apply terms_payload_same_words, Hw2.
Qed.

(** The end-to-end terms, twice, on an empty database. *)
Lemma rerun_stores_every_form_again_witness :
  exists w1 s1 w2 s2 added1 added2,
    insert_terms Fixtures.casa_again Fixtures.empty_world = (Ok tt, w1)
    /\ db w1 = Some s1
    /\ insert_terms Fixtures.casa_again w1 = (Ok tt, w2) /\ db w2 = Some s2
    /\ words s2 = words s1
    /\ derived_forms s1 = (derived_forms Fixtures.empty_store ++ added1)%list
    /\ derived_forms s2 = (derived_forms s1 ++ added2)%list
    /\ map payload added2 = map payload added1.
Proof.
  apply (rerun_stores_every_form_again Fixtures.casa_again Fixtures.empty_world
           Fixtures.empty_store).
  reflexivity.
Defined.

(** ** The chunks *)

Lemma list_slice_nonneg {A : Type} (l : list A) (a b : Z) :
  0 <= a -> 0 <= b ->
  list_slice l a b =
  firstn (Z.to_nat (Z.min b (Z.of_nat (length l)))
          - Z.to_nat (Z.min a (Z.of_nat (length l))))%nat
    (skipn (Z.to_nat (Z.min a (Z.of_nat (length l)))) l).
Proof.
  intros Ha Hb. unfold list_slice.
  rewrite (proj2 (Z.ltb_ge a 0)) by lia.
  rewrite (proj2 (Z.ltb_ge b 0)) by lia.
  rewrite !Z.max_l by lia. reflexivity.
Qed.

Lemma chunks_from (word_list : list string) (chunk_size : Z) :
  0 < chunk_size ->
  forall k start,
    0 <= start ->
    k = Z.to_nat ((Z.of_nat (length word_list) - start + chunk_size - 1) / chunk_size) ->
    concat (chunks_of word_list chunk_size (range_from k start chunk_size))
      = skipn (Z.to_nat start) word_list
    /\ Forall (fun c => c <> [] /\ Z.of_nat (length c) <= chunk_size)
         (chunks_of word_list chunk_size (range_from k start chunk_size)).
Proof.
  intros Hstep. set (n := Z.of_nat (length word_list)).
  induction k as [| k IH]; intros start Hstart Hk.
  - simpl. split; [| apply List.Forall_nil].
    symmetry. apply skipn_all2.
    assert ((n - start + chunk_size - 1) / chunk_size <= 0) by lia.
    assert (n - start + chunk_size - 1 < chunk_size).
    { destruct (Z_lt_ge_dec (n - start + chunk_size - 1) chunk_size) as [Hlt | Hge];
        [exact Hlt |].
      assert (1 <= (n - start + chunk_size - 1) / chunk_size)
        by (apply Z.div_le_lower_bound; lia).
      lia. }
    unfold n in *. lia.
  - assert (Hdiv : (n - start + chunk_size - 1) / chunk_size
                   = (n - (start + chunk_size) + chunk_size - 1) / chunk_size + 1).
    { replace (n - start + chunk_size - 1)
        with (n - (start + chunk_size) + chunk_size - 1 + 1 * chunk_size) by lia.
      apply Z.div_add. lia. }
    assert (Hlt : start < n).
    { destruct (Z_lt_ge_dec start n) as [Hlt | Hge]; [exact Hlt |].
      assert ((n - start + chunk_size - 1) / chunk_size < 1)
        by (apply Z.div_lt_upper_bound; lia).
      lia. }
    assert (Hk' : k = Z.to_nat ((n - (start + chunk_size) + chunk_size - 1) / chunk_size)).
    { assert (0 <= (n - (start + chunk_size) + chunk_size - 1) / chunk_size)
        by (apply Z.div_pos; lia).
      lia. }
    destruct (IH (start + chunk_size) ltac:(lia) Hk') as [Hcat Hall].
    cbn [range_from chunks_of map concat].
    change (map (fun i => list_slice word_list i (i + chunk_size))
              (range_from k (start + chunk_size) chunk_size))
      with (chunks_of word_list chunk_size (range_from k (start + chunk_size) chunk_size)).
    rewrite Hcat.
    rewrite list_slice_nonneg by lia. fold n.
    rewrite (Z.min_l start n) by lia.
    set (X := skipn (Z.to_nat start) word_list).
    assert (HX : length X = Z.to_nat (n - start)).
    { unfold X. rewrite length_skipn. unfold n. lia. }
    destruct (Z_le_gt_dec (start + chunk_size) n) as [Hle | Hgt].
    + rewrite (Z.min_l (start + chunk_size) n) by lia.
      replace (Z.to_nat (start + chunk_size) - Z.to_nat start)%nat
        with (Z.to_nat chunk_size) by lia.
      split.
      * replace (Z.to_nat (start + chunk_size))
          with (Z.to_nat chunk_size + Z.to_nat start)%nat by lia.
        rewrite <- skipn_skipn. fold X. apply firstn_skipn.
      * apply List.Forall_cons; [| exact Hall]. split.
        -- intros Hnil. apply (f_equal (@length string)) in Hnil.
           rewrite length_firstn, HX in Hnil. simpl in Hnil. lia.
        -- rewrite length_firstn, HX. lia.
    + rewrite (Z.min_r (start + chunk_size) n) by lia.
      rewrite (skipn_all2 (n := Z.to_nat (start + chunk_size))) by (unfold n in *; lia).
      rewrite app_nil_r.
      rewrite firstn_all2 by lia.
      split; [reflexivity |].
      apply List.Forall_cons; [| exact Hall]. split.
      * intros Hnil. apply (f_equal (@length string)) in Hnil.
        rewrite HX in Hnil. simpl in Hnil. lia.
      * rewrite HX. lia.
Qed.

(** With a start that is not negative and a positive chunk size, the
    chunks [main] cuts are the word list from [start] on, piece by piece:
    put end to end they give every word from [start] on once, in order;
    no chunk is empty and none is longer than the chunk size. *)
Theorem chunks_cover_the_word_list (word_list : list string) start chunk_size :
  0 <= start ->
  0 < chunk_size ->
  exists indices,
    py_range start (Z.of_nat (length word_list)) chunk_size = Ok indices
    /\ concat (chunks_of word_list chunk_size indices)
       = skipn (Z.to_nat start) word_list
    /\ Forall (fun c => c <> [] /\ Z.of_nat (length c) <= chunk_size)
         (chunks_of word_list chunk_size indices).
Proof.
  intros Hstart Hstep. unfold py_range.
  rewrite (proj2 (Z.eqb_neq chunk_size 0)) by lia.
  rewrite (proj2 (Z.ltb_lt 0 chunk_size)) by lia.
  eexists. split; [reflexivity |].
  apply chunks_from; [exact Hstep | exact Hstart | reflexivity].
Qed.

(** Five words in chunks of two, from the second word on. *)
Lemma chunks_cover_the_word_list_witness :
  exists indices,
    py_range 1 (Z.of_nat (length ["a"; "b"; "c"; "d"; "e"])) 2 = Ok indices
    /\ concat (chunks_of ["a"; "b"; "c"; "d"; "e"] 2 indices)
       = skipn (Z.to_nat 1) ["a"; "b"; "c"; "d"; "e"]
    /\ Forall (fun c => c <> [] /\ Z.of_nat (length c) <= 2)
         (chunks_of ["a"; "b"; "c"; "d"; "e"] 2 indices).
Proof.
  apply (chunks_cover_the_word_list ["a"; "b"; "c"; "d"; "e"] 1 2); lia.
Defined.

(** ** The vocabulary file *)

Lemma lstrip_head s :
  PyStr.lstrip s = "" \/ exists c r, PyStr.lstrip s = String c r /\ PyStr.is_space c = false.
Proof.
  induction s as [| c s IH]; [left; reflexivity |].
  simpl. destruct (PyStr.is_space c) eqn:E; [exact IH |].
  right. exists c, s. auto.
Qed.

Lemma rstrip_head c r :
  PyStr.is_space c = false -> exists r', PyStr.rstrip (String c r) = String c r'.
Proof.
  intros Hc. simpl. destruct (PyStr.rstrip r); [rewrite Hc |]; eauto.
Qed.

Lemma rstrip_idem s : PyStr.rstrip (PyStr.rstrip s) = PyStr.rstrip s.
Proof.
  induction s as [| c s IH]; [reflexivity |].
  simpl. destruct (PyStr.rstrip s) as [| d r] eqn:E.
  - destruct (PyStr.is_space c) eqn:Hc; [reflexivity |].
    simpl. rewrite Hc. reflexivity.
  - change (PyStr.rstrip (String c (String d r))) with
      (match PyStr.rstrip (String d r) with
       | EmptyString => if PyStr.is_space c then EmptyString else String c EmptyString
       | r0 => String c r0
       end).
    rewrite IH. reflexivity.
Qed.

Lemma strip_idem s : PyStr.strip (PyStr.strip s) = PyStr.strip s.
Proof.
  unfold PyStr.strip.
  destruct (lstrip_head s) as [-> | (c & r & -> & Hc)]; [reflexivity |].
  destruct (rstrip_head c r Hc) as (r' & E). rewrite E.
  simpl PyStr.lstrip. rewrite Hc. rewrite <- E. apply rstrip_idem.
Qed.

Lemma contains_comma_cons c s :
  PyStr.contains (String c s) "," = Ascii.eqb "," c || PyStr.contains s ",".
Proof.
  unfold PyStr.contains.
  change (PyStr.find_offset "," (String c s))
    with (if Ascii.eqb "," c && PyStr.startswith "" s then Some O
          else option_map S (PyStr.find_offset "," s)).
  replace (PyStr.startswith "" s) with true by (destruct s; reflexivity).
  rewrite andb_true_r.
  destruct (Ascii.eqb "," c); [reflexivity |].
  destruct (PyStr.find_offset "," s); reflexivity.
Qed.

Lemma lstrip_no_comma s :
  PyStr.contains s "," = false -> PyStr.contains (PyStr.lstrip s) "," = false.
Proof.
  induction s as [| c s IH]; [auto |].
  intros H. simpl. destruct (PyStr.is_space c); [| exact H].
  apply IH. rewrite contains_comma_cons in H. apply orb_false_iff in H. tauto.
Qed.

Lemma rstrip_no_comma s :
  PyStr.contains s "," = false -> PyStr.contains (PyStr.rstrip s) "," = false.
Proof.
  induction s as [| c s IH]; [auto |].
  intros H. rewrite contains_comma_cons in H. apply orb_false_iff in H as [Hc Hs].
  specialize (IH Hs). simpl. destruct (PyStr.rstrip s) as [| d r].
  - destruct (PyStr.is_space c); [reflexivity |].
    rewrite contains_comma_cons, Hc. reflexivity.
  - rewrite contains_comma_cons, Hc. exact IH.
Qed.

Lemma split_head_no_comma s :
  exists piece rest,
    PyStr.split_char "," s = piece :: rest /\ PyStr.contains piece "," = false.
Proof.
  induction s as [| c s (piece & rest & E & Hp)].
  - exists "", []. split; reflexivity.
  - simpl. destruct (Ascii.eqb c ",") eqn:Hc.
    + eexists _, _. split; reflexivity.
    + rewrite E. eexists _, _. split; [reflexivity |].
      rewrite contains_comma_cons, Hp, Ascii.eqb_sym, Hc. reflexivity.
Qed.

(** The term of a line has no white space around it and no comma. *)
Lemma term_of_line_clean line :
  PyStr.strip (term_of_line line) = term_of_line line
  /\ PyStr.contains (term_of_line line) "," = false.
Proof.
  unfold term_of_line, line_parts.
  destruct (split_head_no_comma line) as (piece & rest & -> & Hp). simpl.
  split; [apply strip_idem |].
  unfold PyStr.strip. apply rstrip_no_comma, lstrip_no_comma, Hp.
Qed.

Lemma paisa_terms_spec lines : forall (s : gset string) t,
  t ∈ paisa_terms lines s <->
  t ∈ s \/ exists line, In line lines /\ skipped_line line = false /\ t = term_of_line line.
Proof.
  induction lines as [| line rest IH]; intros s t; simpl.
  - split; [auto | intros [H | (l & [] & _)]; exact H].
  - destruct (skipped_line line) eqn:Hs.
    + rewrite IH. split.
      * intros [H | (l & Hl & Hk & Ht)]; [auto |]. right. exists l. auto.
      * intros [H | (l & [<- | Hl] & Hk & Ht)]; [auto | congruence |].
        right. exists l. auto.
    + unfold term_of_line.
      destruct (line_parts line) as [| term parts] eqn:Hp.
      * exfalso. unfold line_parts in Hp.
        destruct (split_head_no_comma line) as (piece & more & E & _).
        rewrite E in Hp. discriminate.
      * rewrite IH. rewrite elem_of_union, elem_of_singleton. split.
        -- intros [[H | ->] | (l & Hl & Hk & Ht)]; [auto | |].
           ++ right. exists line. rewrite Hp. auto.
           ++ right. exists l. auto.
        -- intros [H | (l & [<- | Hl] & Hk & Ht)]; [auto | |].
           ++ rewrite Hp in Ht. auto.
           ++ right. exists l. auto.
Qed.

(** [load_paisa_set] leaves the database, the files and the standard
    input alone.  When the file is not found it prints a warning and
    returns the empty set; any other exception of opening or reading the
    file (a directory at the path, a file that is not UTF-8) is not caught
    and reaches the caller with nothing printed.  When the file is read,
    the set holds, for each line that is not empty, does not start with
    [#] and is not white space, what stands before the first comma of the
    line, stripped, and nothing else; so no term has white space around it
    or a comma in it; and a line that starts with a comma makes the empty
    text a term. *)
Theorem load_paisa_set_terms read_text path w :
  (forall e,
      read_text w path = Raise e ->
      load_paisa_set read_text path w =
        if is_FileNotFoundError e
        then (Ok ∅, log (EvPrint [FStr "Warning: paisa file not found at "; FStr path;
                                  FStr ". Continuing with empty set."]) w)
        else (Raise e, w))
  /\ (forall text,
        read_text w path = Ok text ->
        exists terms : gset string,
          load_paisa_set read_text path w = (Ok terms, w)
          /\ (forall t, t ∈ terms <->
                 exists line, In line (PyStr.splitlines text)
                              /\ skipped_line line = false
                              /\ t = term_of_line line)
          /\ (forall t, t ∈ terms ->
                 PyStr.strip t = t /\ PyStr.contains t "," = false)
          /\ (forall rest, In (String "," rest) (PyStr.splitlines text) ->
                 PyStr.strip (String "," rest) <> "" -> "" ∈ terms)).
Proof.
  unfold load_paisa_set. split.
  { intros e ->. destruct (is_FileNotFoundError e); reflexivity. }
  intros text ->. eexists. split; [reflexivity |].
  assert (Hspec : forall t, t ∈ paisa_terms (PyStr.splitlines text) ∅ <->
                    exists line, In line (PyStr.splitlines text)
                                 /\ skipped_line line = false
                                 /\ t = term_of_line line).
  { intros t. rewrite paisa_terms_spec. split; [| auto].
    intros [H | H]; [| exact H]. exfalso. exact (not_elem_of_empty t H). }
  split; [exact Hspec |]. split.
  - intros t Ht. apply Hspec in Ht as (line & _ & _ & ->). apply term_of_line_clean.
  - intros rest Hin Hne. apply Hspec. exists (String "," rest).
    split; [exact Hin |]. split; [| reflexivity].
    unfold skipped_line. simpl.
    destruct (String.eqb_spec (PyStr.strip (String "," rest)) ""); [congruence | reflexivity].
Qed.

End BuilderExtra.

(* ===================================================================== *)
(** * More on the reconciliation workflow *)
(* ===================================================================== *)

Module CleanupExtra.
Import Py Sys Cleanup CleanupProofs.

(** ** Reading the records *)

Section Reading.

Variable json_loads : string -> option pyval.
Variable repr : pyval -> string.



End Reading.


Lemma find_app {A : Type} (f : A -> bool) (l1 l2 : list A) :
  List.find f (l1 ++ l2) =
  match List.find f l1 with Some x => Some x | None => List.find f l2 end.
Proof.
  induction l1 as [| x l1 IH]; [reflexivity |].
  simpl. destruct (f x); [reflexivity | exact IH].
Qed.

Section InputMap.

Variable repr : pyval -> string.

Lemma build_input_map_spec records : forall m0 m,
  build_input_map repr records m0 = Ok m ->
  List.NoDup (dict_keys m0) ->
  List.NoDup (dict_keys m)
  /\ forall k, dict_get m k =
               match List.find (has_key repr k) (rev records) with
               | Some r => Some r
               | None => dict_get m0 k
               end.
Proof.
  induction records as [| r rest IH]; intros m0 m H Hnd.
  - simpl in H. injection H as <-. split; [exact Hnd | reflexivity].
  - cbn [build_input_map] in H. unfold mbind, result_bind, rbind in H.
    destruct r as [| b | z | s | l | d | attrs]; try discriminate.
    cbn [py_get py_get_default] in H. cbn [rev].
    assert (Hk : forall k, has_key repr k (VDict d) =
                   match dict_get d "custom_id" with
                   | Some cid => if is_none cid then false
                                 else String.eqb (py_str repr cid) k
                   | None => false
                   end).
    { intros k. unfold has_key, record_key.
      destruct (dict_get d "custom_id") as [cid |]; [| reflexivity].
      destruct (is_none cid); reflexivity. }
    destruct (dict_get d "custom_id") as [cid |] eqn:Hc.
    + destruct (is_none cid) eqn:Hn.
      * destruct (IH _ _ H Hnd) as [Hnd' Hget]. split; [exact Hnd' |].
        intros k. rewrite Hget, find_app. simpl. rewrite Hk.
        destruct (List.find (has_key repr k) (rev rest)); reflexivity.
      * destruct (IH _ _ H (dict_set_nodup _ _ _ Hnd)) as [Hnd' Hget].
        split; [exact Hnd' |].
        intros k. rewrite Hget, find_app. simpl. rewrite Hk.
        destruct (List.find (has_key repr k) (rev rest)); [reflexivity |].
        destruct (String.eqb_spec (py_str repr cid) k) as [<- | Hne].
        -- apply dict_get_set_same.
        -- apply dict_get_set_other. congruence.
    + simpl in H. destruct (IH _ _ H Hnd) as [Hnd' Hget]. split; [exact Hnd' |].
      intros k. rewrite Hget, find_app. simpl. rewrite Hk.
      destruct (List.find (has_key repr k) (rev rest)); reflexivity.
Qed.

Lemma build_input_map_total records : forall m0,
  Forall (fun r => is_dict r = true) records ->
  exists m, build_input_map repr records m0 = Ok m.
Proof.
  induction records as [| r rest IH]; intros m0 H; [exists m0; reflexivity |].
  inversion H as [| ? ? Hr Hrest]; subst.
  destruct r; try discriminate.
  cbn [build_input_map py_get py_get_default]. unfold mbind, result_bind, rbind.
  destruct (is_none _); apply IH, Hrest.
Qed.

(** [build_input_map] succeeds on records that are mappings.  The map it
    returns has each key once, and under a key the last record of the list
    whose [custom_id], rendered as text, is that key: records with no
    [custom_id], or with [None] for it, are left out, an earlier record
    with the same id is replaced, and the number 1 and the text 1 are the
    same key. *)
Theorem build_input_map_last_wins records :
  (Forall (fun r => is_dict r = true) records ->
   exists m, build_input_map repr records [] = Ok m)
  /\ (forall m,
        build_input_map repr records [] = Ok m ->
        List.NoDup (dict_keys m)
        /\ forall k, dict_get m k = List.find (has_key repr k) (rev records)).
Proof.
  split; [apply build_input_map_total |].
  intros m H.
  destruct (build_input_map_spec records [] m H (List.NoDup_nil _)) as [Hnd Hget].
  split; [exact Hnd |]. intros k. rewrite Hget.
  destruct (List.find (has_key repr k) (rev records)); reflexivity.
Qed.

End InputMap.

(** ** The words of a question *)

Lemma startswith_split sub s :
  PyStr.startswith sub s = true -> s = sub +:+ PyStr.drop (String.length sub) s.
Proof.
  revert s. induction sub as [| a sub IH]; intros s H; [reflexivity |].
  destruct s as [| b s]; [discriminate |].
  simpl in H. apply andb_true_iff in H as [Hab Hs].
  apply Ascii.eqb_eq in Hab. subst b.
  change (String a s = String a (sub +:+ PyStr.drop (String.length sub) s)).
  f_equal. apply IH, Hs.
Qed.

Lemma take_drop k s : s = PyStr.take k s +:+ PyStr.drop k s.
Proof.
  revert s. induction k as [| k IH]; intros s; [reflexivity |].
  destruct s as [| a s]; [reflexivity |].
  change (String a s = String a (PyStr.take k s +:+ PyStr.drop k s)).
  f_equal. apply IH.
Qed.

Lemma drop_drop a b s : PyStr.drop a (PyStr.drop b s) = PyStr.drop (b + a) s.
Proof.
  revert s. induction b as [| b IH]; intros s; [reflexivity |].
  destruct s as [| c s]; [destruct a; reflexivity |].
  simpl. apply IH.
Qed.

Lemma length_drop k s : String.length (PyStr.drop k s) = (String.length s - k)%nat.
Proof.
  revert s. induction k as [| k IH]; intros s; [simpl; lia |].
  destruct s as [| c s]; [reflexivity |]. simpl. apply IH.
Qed.

(** Where [find] finds a text, the text is. *)
Lemma find_offset_some sub s k :
  PyStr.find_offset sub s = Some k ->
  PyStr.startswith sub (PyStr.drop k s) = true
  /\ (k + String.length sub <= String.length s)%nat.
Proof.
  revert k. induction s as [| c s IH]; intros k H.
  - simpl in H. destruct (PyStr.startswith sub "") eqn:E; [| discriminate].
    injection H as <-. split; [exact E |].
    destruct sub; [simpl; lia | discriminate].
  - cbn [PyStr.find_offset] in H.
    destruct (PyStr.startswith sub (String c s)) eqn:E.
    + injection H as <-. split; [exact E |].
      clear IH. revert E. generalize (String c s). intros s0.
      revert s0. induction sub as [| a sub IHs]; intros s0 E; [simpl; lia |].
      destruct s0 as [| b s0]; [discriminate |]. simpl in E.
      apply andb_true_iff in E as [_ E]. specialize (IHs _ E). simpl in *. lia.
    + destruct (PyStr.find_offset sub s) as [j |] eqn:Ej; [| discriminate].
      injection H as <-. destruct (IH j eq_refl) as [H1 H2].
      split; [exact H1 | simpl; lia].
Qed.

(** Before the place where [find] finds a character there is none. *)
Lemma find_offset_char_first c s j :
  PyStr.find_offset (String c "") s = Some j ->
  PyStr.contains (PyStr.take j s) (String c "") = false.
Proof.
  revert j. induction s as [| d s IH]; intros j H.
  - simpl in H. discriminate.
  - cbn [PyStr.find_offset] in H.
    destruct (PyStr.startswith (String c "") (String d s)) eqn:E.
    + injection H as <-. reflexivity.
    + destruct (PyStr.find_offset (String c "") s) as [i |] eqn:Ei; [| discriminate].
      injection H as <-. cbn [PyStr.take]. unfold PyStr.contains.
      cbn [PyStr.find_offset].
      assert (E' : PyStr.startswith (String c "") (String d (PyStr.take i s)) = false).
      { simpl in E |- *. destruct (Ascii.eqb c d); [| reflexivity].
        simpl in E. destruct s; discriminate. }
      rewrite E'. specialize (IH i eq_refl). unfold PyStr.contains in IH.
      destruct (PyStr.find_offset (String c "") (PyStr.take i s)); [discriminate | reflexivity].
Qed.

Lemma clip_nonneg s i :
  0 <= i -> PyStr.clip s i = Z.to_nat (Z.min i (PyStr.len s)).
Proof.
  intros H. unfold PyStr.clip. rewrite (proj2 (Z.ltb_ge i 0)) by lia.
  rewrite Z.max_l by lia. reflexivity.
Qed.

Lemma clip_minus_one s : PyStr.clip s (-1) = (String.length s - 1)%nat.
Proof.
  unfold PyStr.clip, PyStr.len. change (-1 <? 0) with true. cbv iota. lia.
Qed.

(** How [main] reads a word out of a question (lines 117-132).  When the
    marker does not occur in the text there is no word.  When it does, the
    first occurrence counts, and the word is what stands between it and
    the next quote, a text with no quote in it.  When no quote follows,
    the word is the rest of the text without its last character, which the
    slice up to [-1] cuts off. *)
Theorem quoted_after_spec content marker :
  match quoted_after content marker with
  | None => PyStr.contains content marker = false
  | Some t =>
      exists k,
        PyStr.find_offset marker content = Some k
        /\ content = PyStr.take k content +:+ marker
                     +:+ PyStr.drop (k + String.length marker) content
        /\ ((exists post,
               PyStr.drop (k + String.length marker) content = t +:+ "'" +:+ post
               /\ PyStr.contains t "'" = false)
            \/ (PyStr.contains (PyStr.drop (k + String.length marker) content) "'" = false
                /\ t = PyStr.take
                         (String.length (PyStr.drop (k + String.length marker) content) - 1)
                         (PyStr.drop (k + String.length marker) content)))
  end.
Proof.
  unfold quoted_after, PyStr.find, PyStr.find_from, PyStr.contains.
  change (0 <? 0) with false. cbv iota.
  assert (Hlen : (PyStr.len content <? 0) = false)
    by (apply Z.ltb_ge; unfold PyStr.len; lia).
  rewrite Hlen. change (PyStr.drop (Z.to_nat 0) content) with content.
  destruct (PyStr.find_offset marker content) as [k |] eqn:Ek; [| reflexivity].
  rewrite (proj2 (Z.eqb_neq (0 + Z.of_nat k) (-1))) by lia.
  destruct (find_offset_some _ _ _ Ek) as [Hsw Hk].
  set (start := 0 + Z.of_nat k + PyStr.len marker).
  assert (Hstart : start = Z.of_nat (k + String.length marker))
    by (unfold start, PyStr.len; lia).
  rewrite (proj2 (Z.ltb_ge start 0)) by lia.
  assert (Hle : (PyStr.len content <? start) = false)
    by (apply Z.ltb_ge; unfold PyStr.len; lia).
  rewrite Hle.
  replace (Z.to_nat start) with (k + String.length marker)%nat by lia.
  set (rest := PyStr.drop (k + String.length marker) content).
  assert (Hrest : String.length rest
                  = (String.length content - (k + String.length marker))%nat)
    by (unfold rest; apply length_drop).
  exists k. split; [reflexivity |]. split.
  - rewrite (take_drop k content) at 1. f_equal.
    rewrite (startswith_split _ _ Hsw) at 1. rewrite drop_drop. reflexivity.
  - unfold PyStr.slice. rewrite (clip_nonneg content start) by lia.
    replace (Z.to_nat (Z.min start (PyStr.len content)))
      with (k + String.length marker)%nat by (unfold PyStr.len; lia).
    fold rest.
    destruct (PyStr.find_offset "'" rest) as [j |] eqn:Ej.
    + left. destruct (find_offset_some _ _ _ Ej) as [Hq Hj]. simpl in Hj.
      rewrite (clip_nonneg content (start + Z.of_nat j)) by lia.
      replace (Z.to_nat (Z.min (start + Z.of_nat j) (PyStr.len content))
               - (k + String.length marker))%nat with j
        by (unfold PyStr.len; lia).
      exists (PyStr.drop (j + 1) rest). split.
      * rewrite (take_drop j rest) at 1. f_equal.
        rewrite (startswith_split _ _ Hq) at 1. rewrite drop_drop. reflexivity.
      * exact (find_offset_char_first _ _ _ Ej).
    + right. split; [reflexivity |].
      rewrite clip_minus_one. f_equal. lia.
Qed.

(** ** What a run leaves alone *)

Section Keeps.

Variable R : world -> world -> Prop.
Hypothesis R_refl : forall w, R w w.
Hypothesis R_trans : forall w1 w2 w3, R w1 w2 -> R w2 w3 -> R w1 w3.
Hypothesis R_log : forall e w, R w (log e w).

Lemma keeps_ret {A : Type} (a : A) : keeps R (mret a : M A).
Proof. intros w. apply R_refl. Qed.

Lemma keeps_raise {A : Type} (e : exn) : keeps R (raise e : M A).
Proof. intros w. apply R_refl. Qed.

Lemma keeps_lift {A : Type} (r : result A) : keeps R (lift r).
Proof. intros w. apply R_refl. Qed.

Lemma keeps_print line : keeps R (print line).
Proof. intros w. apply R_log. Qed.

Lemma keeps_query {A : Type} (qf : store -> A) : keeps R (query qf).
Proof. intros w. unfold query. destruct (db w); apply R_refl. Qed.

Lemma keeps_mbind {A B : Type} (m : M A) (k : A -> M B) :
  keeps R m -> (forall a, keeps R (k a)) -> keeps R (m ≫= k).
Proof.
  intros Hm Hk w. unfold mbind, M_bind, bind.
  specialize (Hm w). destruct (m w) as [[a | e |] w1]; simpl in Hm |- *.
  - exact (R_trans _ _ _ Hm (Hk a w1)).
  - exact Hm.
  - exact Hm.
Qed.

Lemma keeps_read_jsonl json_loads path : keeps R (read_jsonl json_loads path).
Proof.
  intros w. unfold read_jsonl. destruct (dict_get (files w) path); apply R_refl.
Qed.

End Keeps.

Ltac keeps_step Hrefl Htrans Hlog :=
  first
    [ apply (keeps_ret _ Hrefl) | apply (keeps_raise _ Hrefl)
    | apply (keeps_lift _ Hrefl) | apply (keeps_print _ Hlog)
    | apply (keeps_query _ Hrefl) | apply (keeps_read_jsonl _ Hrefl)
    | assumption
    | apply (keeps_mbind _ Htrans); [| intros ?]
    | progress cbv iota
    | match goal with
      | |- keeps _ (if ?b then _ else _) => destruct b
      | |- keeps _ (match ?x with _ => _ end) => destruct x
      end
    | progress cbv zeta ].

Ltac keeps_all Hrefl Htrans Hlog := repeat keeps_step Hrefl Htrans Hlog.

Lemma same_stdin_refl w : same_stdin w w.
Proof. reflexivity. Qed.

Lemma same_stdin_trans w1 w2 w3 : same_stdin w1 w2 -> same_stdin w2 w3 -> same_stdin w1 w3.
Proof. unfold same_stdin. congruence. Qed.

Lemma same_stdin_log e w : same_stdin w (log e w).
Proof. reflexivity. Qed.

Lemma same_files_refl w : same_files w w.
Proof. split; reflexivity. Qed.

Lemma same_files_trans w1 w2 w3 : same_files w1 w2 -> same_files w2 w3 -> same_files w1 w3.
Proof. unfold same_files. intros [] []. split; congruence. Qed.

Lemma same_files_log e w : same_files w (log e w).
Proof. split; reflexivity. Qed.

Ltac stdin_all := keeps_all same_stdin_refl same_stdin_trans same_stdin_log.
Ltac files_all := keeps_all same_files_refl same_files_trans same_files_log.

Section Frames.

Variable json_loads : string -> option pyval.
Variable repr : pyval -> string.

Lemma stdin_examine input_map out : keeps same_stdin (examine repr true input_map out).
Proof. unfold examine. stdin_all. Qed.

Lemma stdin_confirm_loop input_map outputs : forall to_delete,
  keeps same_stdin (confirm_loop repr true input_map outputs to_delete).
Proof.
  induction outputs as [| out rest IH]; intros to_delete; simpl.
  - apply (keeps_ret _ same_stdin_refl).
  - apply (keeps_mbind _ same_stdin_trans); [apply stdin_examine |].
    intros [[derived root] |]; apply IH.
Qed.

Lemma stdin_match_loop to_delete : forall deletions,
  keeps same_stdin (match_loop to_delete deletions).
Proof.
  induction to_delete as [| [derived root] rest IH]; intros deletions; simpl.
  - apply (keeps_ret _ same_stdin_refl).
  - apply (keeps_mbind _ same_stdin_trans); [| intros; apply IH].
    unfold match_pair. stdin_all.
Qed.

Lemma stdin_write_statements deletions : forall written,
  keeps same_stdin (write_statements deletions written).
Proof.
  induction deletions as [| d rest IH]; intros written; simpl.
  - apply (keeps_ret _ same_stdin_refl).
  - apply (keeps_mbind _ same_stdin_trans); [apply (keeps_print _ same_stdin_log) |].
    intros; apply IH.
Qed.

Lemma stdin_save_artifact text : keeps same_stdin (save_artifact text).
Proof. intros w. reflexivity. Qed.

Lemma stdin_report to_delete : keeps same_stdin (report to_delete).
Proof.
  unfold report.
  pose proof stdin_match_loop as H1.
  pose proof stdin_write_statements as H2.
  pose proof stdin_save_artifact as H3.
  stdin_all; first [apply H1 | apply H2 | apply H3].
Qed.

(** With [--yes] the run is not interactive: it reads nothing from the
    standard input, whatever the records say and however it ends. *)
Theorem yes_flag_reads_nothing a w :
  arg_yes a = true ->
  stdin (snd (main json_loads repr a w)) = stdin w.
Proof.
  intros Hyes. unfold main.
  destruct (negb (dict_has (files w) (arg_input a))); [reflexivity |].
  destruct (negb (dict_has (files w) (arg_output a))); [reflexivity |].
  destruct (db w); [| reflexivity].
  assert (H : keeps same_stdin (reconcile json_loads repr a)).
  { unfold reconcile, collect. rewrite Hyes.
    pose proof stdin_confirm_loop as H1.
    pose proof stdin_report as H2.
    stdin_all; first [apply H1 | apply H2]. }
  exact (H w).
Qed.

(** ** The artifact *)





Lemma files_match_loop to_delete : forall deletions,
  keeps same_files (match_loop to_delete deletions).
Proof.
  induction to_delete as [| [derived root] rest IH]; intros deletions; simpl.
  - apply (keeps_ret _ same_files_refl).
  - apply (keeps_mbind _ same_files_trans); [| intros; apply IH].
    unfold match_pair. files_all.
Qed.









(** ** The plan, pair by pair *)



















(** ** The test for a negative answer *)

Lemma find_is_contains s sub :
  negb (PyStr.find s sub =? -1) = PyStr.contains s sub.
Proof.
  unfold PyStr.find, PyStr.find_from, PyStr.contains.
  change (0 <? 0) with false. cbv iota.
  assert (Hlen : (PyStr.len s <? 0) = false)
    by (apply Z.ltb_ge; unfold PyStr.len; lia).
  rewrite Hlen. change (PyStr.drop (Z.to_nat 0) s) with s.
  destruct (PyStr.find_offset sub s) as [k |]; [| reflexivity].
  apply negb_true_iff, Z.eqb_neq. lia.
Qed.

(** Whether an answer is negative is a test for the letters [no]: for a
    record whose question names a derived word and a root, the pair is
    confirmed under [--yes] exactly when the text of the answer, stripped
    and in lower case, has [no] somewhere in it, be it inside another
    word.  An answer that is missing ([None]) is rendered as the text
    [None] and so counts as negative. *)
Theorem negative_answer_is_a_substring_test
  input_map out cid in_rec content derived0 root0 answer w :
  py_get out "custom_id" = Ok cid ->
  is_none cid = false ->
  dict_get input_map (py_str repr cid) = Some in_rec ->
  is_none in_rec = false ->
  message_content in_rec = Ok content ->
  quoted_after content "La parola '" = Some derived0 ->
  quoted_after content "con il lemma '" = Some root0 ->
  derived0 <> "" ->
  root0 <> "" ->
  answer_of out = Ok answer ->
  examine repr true input_map out w =
    (Ok (if PyStr.contains (PyStr.lower (PyStr.strip (py_str repr answer))) "no"
         then Some (PyStr.strip derived0, PyStr.strip root0)
         else None), w)
  /\ (answer = VNone ->
      examine repr true input_map out w
      = (Ok (Some (PyStr.strip derived0, PyStr.strip root0)), w)).
Proof.
  intros Hcid Hnone Hin Hrec Hcontent Hd Hr Hd0 Hr0 Hans.
  assert (E : examine repr true input_map out w =
              (Ok (if PyStr.contains (PyStr.lower (PyStr.strip (py_str repr answer))) "no"
                   then Some (PyStr.strip derived0, PyStr.strip root0)
                   else None), w)).
  { unfold examine, mbind, M_bind, bind, lift.
    rewrite Hcid, Hnone, Hin, Hrec, Hcontent, Hd, Hr.
    assert (Hfb : fallback in_rec derived0 root0 = Ok (derived0, root0)).
    { unfold fallback.
      rewrite (proj2 (String.eqb_neq derived0 "") Hd0).
      rewrite (proj2 (String.eqb_neq root0 "") Hr0). reflexivity. }
    rewrite Hfb. cbn [fst snd].
    rewrite (proj2 (String.eqb_neq derived0 "") Hd0).
    rewrite (proj2 (String.eqb_neq root0 "") Hr0). cbn [orb].
    rewrite Hans, find_is_contains.
    destruct (PyStr.contains _ "no"); reflexivity. }
  split; [exact E |].
  intros ->. rewrite E. reflexivity.
Qed.

Lemma lower_char_y c :
  Ascii.eqb (PyStr.lower_char c) "y" = Ascii.eqb c "y" || Ascii.eqb c "Y".
Proof.
  destruct c as [[] [] [] [] [] [] [] []]; vm_compute; reflexivity.
Qed.

(** Without [--yes] each negative answer is put to the user, once: the
    question is printed and one line is read.  The pair is confirmed when
    the reply, after the white space at its head, starts with y or Y; any
    other reply, the empty line among them, declines; and when the input
    is at its end the run stops with [EOFError]. *)
Theorem confirmation_reads_one_line
  input_map out cid in_rec content derived0 root0 answer w :
  py_get out "custom_id" = Ok cid ->
  is_none cid = false ->
  dict_get input_map (py_str repr cid) = Some in_rec ->
  is_none in_rec = false ->
  message_content in_rec = Ok content ->
  quoted_after content "La parola '" = Some derived0 ->
  quoted_after content "con il lemma '" = Some root0 ->
  derived0 <> "" ->
  root0 <> "" ->
  answer_of out = Ok answer ->
  PyStr.contains (PyStr.lower (PyStr.strip (py_str repr answer))) "no" = true ->
  examine repr false input_map out w =
    let asked :=
      log (EvPrint [FStr (confirm_prompt (PyStr.strip derived0) (PyStr.strip root0))]) w in
    match stdin w with
    | [] => (Raise (Error EOFError), asked)
    | line :: rest =>
        (Ok (if says_yes line
             then Some (PyStr.strip derived0, PyStr.strip root0) else None),
         set_stdin rest asked)
    end.
Proof.
  intros Hcid Hnone Hin Hrec Hcontent Hd Hr Hd0 Hr0 Hans Hno.
  unfold examine, mbind, M_bind, bind, lift.
  rewrite Hcid, Hnone, Hin, Hrec, Hcontent, Hd, Hr.
  assert (Hfb : fallback in_rec derived0 root0 = Ok (derived0, root0)).
  { unfold fallback.
    rewrite (proj2 (String.eqb_neq derived0 "") Hd0).
    rewrite (proj2 (String.eqb_neq root0 "") Hr0). reflexivity. }
  rewrite Hfb. cbn [fst snd].
  rewrite (proj2 (String.eqb_neq derived0 "") Hd0).
  rewrite (proj2 (String.eqb_neq root0 "") Hr0). cbn [orb].
  rewrite Hans, find_is_contains, Hno.
  unfold prompt_yes_no, input, mbind, M_bind, bind, confirm_prompt, says_yes.
  cbn [stdin log]. destruct (stdin w) as [| line rest]; [reflexivity |].
  destruct (PyStr.strip line) as [| c r]; [reflexivity |].
  cbn [PyStr.lower]. unfold mret, M_ret, ret. rewrite lower_char_y.
  destruct (Ascii.eqb c "y" || Ascii.eqb c "Y"); reflexivity.
Qed.

(** ** How a run can end *)

Lemma plain_rbind {A B : Type} (r : result A) (k : A -> result B) :
  plain r -> (forall a, plain (k a)) -> plain (r ≫= k).
Proof.
  unfold mbind, result_bind, rbind. destruct r; simpl; auto; try (intros []).
Qed.

Lemma plain_py_get_default v k dflt : plain (py_get_default v k dflt).
Proof. destruct v; exact I || reflexivity. Qed.

Lemma plain_getitem_key v k : plain (getitem_key v k).
Proof. destruct v; try reflexivity. simpl. destruct (dict_get d k); exact I || reflexivity. Qed.

Lemma plain_getitem_0 v : plain (getitem_0 v).
Proof. destruct v as [| | | [| c s] | [| x l] | |]; exact I || reflexivity. Qed.

Lemma plain_as_str v : plain (as_str v).
Proof. destruct v; exact I || reflexivity. Qed.

Lemma plain_py_in x v : plain (py_in x v).
Proof. destruct v; exact I || reflexivity. Qed.

Lemma plain_message_content in_rec : plain (message_content in_rec).
Proof.
  unfold message_content.
  repeat (apply plain_rbind; [first [apply plain_getitem_key | apply plain_getitem_0] |];
          intros ?).
  apply plain_as_str.
Qed.

Lemma plain_answer_of out : plain (answer_of out).
Proof.
  unfold answer_of.
  repeat (apply plain_rbind; [first [apply plain_getitem_key | apply plain_getitem_0] |];
          intros ?).
  apply plain_getitem_key.
Qed.

Lemma plain_fallback in_rec derived root : plain (fallback in_rec derived root).
Proof.
  unfold fallback. destruct (_ || _); [| exact I].
  apply plain_rbind; [apply plain_py_get_default |]. intros q1.
  apply plain_rbind; [apply plain_py_get_default |]. intros q2.
  apply plain_rbind; [apply plain_py_in |]. intros [|]; [| exact I].
  apply plain_rbind; [apply plain_as_str |]. intros s.
  destruct (map PyStr.strip (PyStr.split_once s "->")) as [| d [| r [| x l]]]; exact I.
Qed.

Lemma plain_build_input_map records : forall m, plain (build_input_map repr records m).
Proof.
  induction records as [| r rest IH]; intros m; [exact I |].
  cbn [build_input_map]. apply plain_rbind; [apply plain_py_get_default |].
  intros cid. destruct (is_none cid); apply IH.
Qed.

Lemma plain_decode_lines ls : plain (decode_lines json_loads ls).
Proof.
  induction ls as [| line rest IH]; [exact I |].
  cbn [decode_lines]. destruct (String.eqb _ _); [exact IH |].
  destruct (json_loads _); [| reflexivity].
  apply plain_rbind; [exact IH | intros; exact I].
Qed.

Lemma no_exit_ret {A : Type} (a : A) : no_exit (mret a : M A).
Proof. intros w. exact I. Qed.

Lemma no_exit_lift {A : Type} (r : result A) : plain r -> no_exit (lift r).
Proof. intros H w. exact H. Qed.

Lemma no_exit_print line : no_exit (print line).
Proof. intros w. exact I. Qed.

Lemma no_exit_query {A : Type} (qf : store -> A) : no_exit (query qf).
Proof. intros w. unfold query. destruct (db w); exact I || reflexivity. Qed.

Lemma no_exit_mbind {A B : Type} (m : M A) (k : A -> M B) :
  no_exit m -> (forall a, no_exit (k a)) -> no_exit (m ≫= k).
Proof.
  intros Hm Hk w. unfold mbind, M_bind, bind.
  specialize (Hm w). destruct (m w) as [[a | e |] w1]; simpl in Hm |- *.
  - apply Hk.
  - exact Hm.
  - exact Hm.
Qed.

Lemma no_exit_prompt_yes_no prompt default : no_exit (prompt_yes_no prompt default).
Proof.
  intros w. unfold prompt_yes_no, input, mbind, M_bind, bind. cbn [stdin log].
  destruct (stdin w) as [| line rest]; [reflexivity |].
  destruct (PyStr.lower (PyStr.strip line)); exact I.
Qed.

Lemma no_exit_read_jsonl path : no_exit (read_jsonl json_loads path).
Proof.
  intros w. unfold read_jsonl. destruct (dict_get (files w) path); [| reflexivity].
  apply plain_decode_lines.
Qed.

Ltac no_exit_step :=
  first
    [ apply no_exit_ret | apply no_exit_print | apply no_exit_query
    | apply no_exit_prompt_yes_no
    | apply no_exit_lift;
      first [ apply plain_py_get_default | apply plain_message_content
            | apply plain_fallback | apply plain_answer_of ]
    | assumption
    | apply no_exit_mbind; [| intros ?]
    | match goal with
      | |- no_exit (if ?b then _ else _) => destruct b
      | |- no_exit (match ?x with _ => _ end) => destruct x
      end
    | progress cbv zeta ].

Lemma no_exit_examine yes input_map out : no_exit (examine repr yes input_map out).
Proof. unfold examine. repeat no_exit_step. Qed.

Lemma no_exit_confirm_loop yes input_map outputs : forall to_delete,
  no_exit (confirm_loop repr yes input_map outputs to_delete).
Proof.
  induction outputs as [| out rest IH]; intros to_delete; simpl.
  - apply no_exit_ret.
  - apply no_exit_mbind; [apply no_exit_examine |].
    intros [[derived root] |]; apply IH.
Qed.

Lemma no_exit_match_loop to_delete : forall deletions,
  no_exit (match_loop to_delete deletions).
Proof.
  induction to_delete as [| [derived root] rest IH]; intros deletions; simpl.
  - apply no_exit_ret.
  - apply no_exit_mbind; [| intros; apply IH].
    unfold match_pair. repeat no_exit_step.
Qed.

Lemma no_exit_write_statements deletions : forall written,
  no_exit (write_statements deletions written).
Proof.
  induction deletions as [| d rest IH]; intros written; simpl.
  - apply no_exit_ret.
  - apply no_exit_mbind; [apply no_exit_print | intros; apply IH].
Qed.

Lemma no_exit_report to_delete : no_exit (report to_delete).
Proof.
  unfold report.
  pose proof no_exit_match_loop as H1.
  pose proof no_exit_write_statements as H2.
  assert (H3 : forall text, no_exit (save_artifact text)) by (intros text w; exact I).
  repeat first [ apply H1 | apply H2 | apply H3 | no_exit_step ].
Qed.

Lemma no_exit_reconcile a : no_exit (reconcile json_loads repr a).
Proof.
  unfold reconcile, collect.
  pose proof no_exit_read_jsonl as H1.
  pose proof no_exit_confirm_loop as H2.
  pose proof no_exit_report as H3.
  pose proof plain_build_input_map as H4.
  repeat first [ apply H1 | apply H2 | apply H3
               | apply no_exit_lift; apply H4 | no_exit_step ].
Qed.

(** A run ends with [SystemExit] when one of the three files is missing,
    and only then: the first file missing, in the order input, output,
    database, is named in the message, and nothing has been read, printed
    or written.  Whatever goes wrong once the files are there is an
    ordinary exception. *)
Theorem system_exit_means_a_missing_file a w :
  (forall msg,
      fst (main json_loads repr a w) = Raise (SystemExit msg) <->
      (dict_has (files w) (arg_input a) = false
       /\ msg = "Input file not found: " +:+ arg_input a)
      \/ (dict_has (files w) (arg_input a) = true
          /\ dict_has (files w) (arg_output a) = false
          /\ msg = "Output file not found: " +:+ arg_output a)
      \/ (dict_has (files w) (arg_input a) = true
          /\ dict_has (files w) (arg_output a) = true
          /\ db w = None
          /\ msg = "DB file not found: " +:+ arg_db a))
  /\ (forall msg,
        fst (main json_loads repr a w) = Raise (SystemExit msg) ->
        snd (main json_loads repr a w) = w).
Proof.
  unfold main.
  destruct (dict_has (files w) (arg_input a)) eqn:Hi; cbn [negb].
  2:{ split.
      - intros msg. simpl. split.
        + intros H. injection H as <-. left. auto.
        + intros [[_ ->] | [(H & _) | (H & _)]]; [reflexivity | discriminate | discriminate].
      - intros msg _. reflexivity. }
  destruct (dict_has (files w) (arg_output a)) eqn:Ho; cbn [negb].
  2:{ split.
      - intros msg. simpl. split.
        + intros H. injection H as <-. right. left. auto.
        + intros [[H _] | [(_ & _ & ->) | (_ & H & _)]];
            [discriminate | reflexivity | discriminate].
      - intros msg _. reflexivity. }
  destruct (db w) as [s |] eqn:Hdb.
  - pose proof (no_exit_reconcile a w) as Hp.
    split.
    + intros msg. split.
      * intros H. rewrite H in Hp. discriminate Hp.
      * intros [[H _] | [(_ & H & _) | (_ & _ & H & _)]]; discriminate.
    + intros msg H. rewrite H in Hp. discriminate Hp.
  - split.
    + intros msg. simpl. split.
      * intros H. injection H as <-. right. right. auto.
      * intros [[H _] | [(_ & H & _) | (_ & _ & _ & ->)]];
          [discriminate | discriminate | reflexivity].
    + intros msg _. reflexivity.
Qed.

End Frames.

(** The user answers Yes to the one question of the batch, and a second
    line stays unread. *)
Lemma confirmation_reads_one_line_witness :
  examine Fixtures.no_repr false [("7", Fixtures.question "7" "rallegrare" "allegria")]
    (Fixtures.answer "7" "No.") (Fixtures.allegria_world [" Yes"; "n"])
  = let asked :=
      log (EvPrint [FStr (confirm_prompt (PyStr.strip "rallegrare") (PyStr.strip "allegria"))])
        (Fixtures.allegria_world [" Yes"; "n"]) in
    match stdin (Fixtures.allegria_world [" Yes"; "n"]) with
    | [] => (Raise (Error EOFError), asked)
    | line :: rest =>
        (Ok (if says_yes line
             then Some (PyStr.strip "rallegrare", PyStr.strip "allegria") else None),
         set_stdin rest asked)
    end.
Proof.
  apply (confirmation_reads_one_line Fixtures.no_repr
           [("7", Fixtures.question "7" "rallegrare" "allegria")]
           (Fixtures.answer "7" "No.") (VStr "7")
           (Fixtures.question "7" "rallegrare" "allegria")
           ("La parola 'rallegrare' ha una relazione morfologica con il lemma 'allegria'?")
           "rallegrare" "allegria" (VStr "No.") (Fixtures.allegria_world [" Yes"; "n"])).
  - reflexivity.
  - reflexivity.
  - reflexivity.
  - reflexivity.
  - vm_compute. reflexivity.
  - vm_compute. reflexivity.
  - vm_compute. reflexivity.
  - discriminate.
  - discriminate.
  - reflexivity.
  - vm_compute. reflexivity.
Defined.

(** The answer is that the two words are related, and has the letters
    [no] inside the word sono: the pair is confirmed.  So is the pair of a
    record whose message has no content. *)
Lemma negative_answer_is_a_substring_test_witness :
  examine Fixtures.no_repr true [("7", Fixtures.question "7" "rallegrare" "allegria")]
    (Fixtures.answer "7" "Certo, sono collegate.") Fixtures.w0
  = (Ok (Some ("rallegrare", "allegria")), Fixtures.w0)
  /\ examine Fixtures.no_repr true [("7", Fixtures.question "7" "rallegrare" "allegria")]
       (Fixtures.no_answer "7") Fixtures.w0
     = (Ok (Some ("rallegrare", "allegria")), Fixtures.w0).
Proof.
  split.
  - refine (proj1 (negative_answer_is_a_substring_test Fixtures.no_repr
             [("7", Fixtures.question "7" "rallegrare" "allegria")]
             (Fixtures.answer "7" "Certo, sono collegate.") (VStr "7")
             (Fixtures.question "7" "rallegrare" "allegria")
             ("La parola 'rallegrare' ha una relazione morfologica con il lemma 'allegria'?")
             "rallegrare" "allegria" (VStr "Certo, sono collegate.") Fixtures.w0
             _ _ _ _ _ _ _ _ _ _));
      first [discriminate | vm_compute; reflexivity].
  - refine (proj2 (negative_answer_is_a_substring_test Fixtures.no_repr
             [("7", Fixtures.question "7" "rallegrare" "allegria")]
             (Fixtures.no_answer "7") (VStr "7")
             (Fixtures.question "7" "rallegrare" "allegria")
             ("La parola 'rallegrare' ha una relazione morfologica con il lemma 'allegria'?")
             "rallegrare" "allegria" VNone Fixtures.w0
             _ _ _ _ _ _ _ _ _ _) eq_refl);
      first [discriminate | vm_compute; reflexivity].
Defined.


(** The batch of one question with [--yes], and a line waiting on the
    standard input that is not read. *)
Lemma yes_flag_reads_nothing_witness :
  stdin (snd (main (Fixtures.allegria_loads "No.") Fixtures.no_repr
                (Fixtures.allegria_args true) (Fixtures.allegria_world ["n"])))
  = stdin (Fixtures.allegria_world ["n"]).
Proof.
  apply (yes_flag_reads_nothing (Fixtures.allegria_loads "No.") Fixtures.no_repr
           (Fixtures.allegria_args true) (Fixtures.allegria_world ["n"])).
  reflexivity.
Defined.

End CleanupExtra.
